(** * astrocats: entity resolution, citations and the quantity store

    A shallow embedding of the catalogue core of [scripts/import-external.py]
    ([add_event], [add_alias], [get_source], [add_photometry],
    [add_spectrum], [add_quanta], [get_max_light], [get_first_light],
    [set_first_max_light], the derivation block run before the events are
    written), of [Catalog.add_entry], [find_entry_name_of_alias],
    [get_preferred_name], [entry_exists], [count] and [copy_entry_to_entry]
    of [astrocats/catalog/catalog.py], and of [Catalog/utils/strings.py].

    Python [str] values are modelled by [string], a character being read as
    a code point below 256.  Dictionaries whose iteration order is observed
    (the global [events]) are association lists; the per-event quantity
    lists are kept in a [gmap] keyed by the quantity name.  A call that may
    raise returns an [outcome]; the calls into libraries ([float],
    [Decimal], astropy, the class [Entry]) are parameters, given by type
    classes. *)

From Stdlib Require Import String Ascii List ZArith Lia Bool.
From stdpp Require Import base option list strings gmap pretty.

Open Scope string_scope.
Open Scope list_scope.

(** ** Python string primitives *)

Module PyStr.

(** [str.isspace] on the code points below 256. *)
Definition is_space (c : ascii) : bool :=
  match nat_of_ascii c with
  | 9 | 10 | 11 | 12 | 13 | 28 | 29 | 30 | 31 | 32 | 133 | 160 => true
  | _ => false
  end.

Fixpoint lstrip_by (p : ascii -> bool) (s : string) : string :=
  match s with
  | "" => ""
  | String c s' => if p c then lstrip_by p s' else s
  end.

Definition strip_by (p : ascii -> bool) (s : string) : string :=
  String.rev (lstrip_by p (String.rev (lstrip_by p s))).

(** [s.strip()] *)
Definition strip (s : string) : string := strip_by is_space s.

(** [s.strip(c)] for a one-character argument. *)
Definition strip_char (c : ascii) (s : string) : string :=
  strip_by (Ascii.eqb c) s.

(** [s.split(c)] for a one-character separator: always at least one field. *)
Fixpoint split_go (sep : ascii) (cur : string) (s : string) : list string :=
  match s with
  | "" => [String.rev cur]
  | String c s' =>
      if Ascii.eqb c sep then String.rev cur :: split_go sep "" s'
      else split_go sep (String c cur) s'
  end.
Definition split (sep : ascii) (s : string) : list string := split_go sep "" s.

(** [s.split()]: fields separated by runs of white space, none empty. *)
Fixpoint words_go (cur : option string) (s : string) : list string :=
  match s with
  | "" => match cur with Some w => [String.rev w] | None => [] end
  | String c s' =>
      if is_space c
      then match cur with
           | Some w => String.rev w :: words_go None s'
           | None => words_go None s'
           end
      else words_go (Some (String c (default "" cur))) s'
  end.
Definition words (s : string) : list string := words_go None s.

(** [sep.join(l)] *)
Definition join (sep : string) (l : list string) : string := String.concat sep l.

(** [s.replace(old, new)] for a non-empty [old]: occurrences are replaced
    from the left and do not overlap; [skip] counts the characters of a
    match still to be dropped. *)
Fixpoint replace_go (old new : string) (skip : nat) (s : string) : string :=
  match s with
  | "" => ""
  | String c s' =>
      match skip with
      | S k => replace_go old new k s'
      | O =>
          if String.prefix old s
          then new +:+ replace_go old new (String.length old - 1) s'
          else String c (replace_go old new 0 s')
      end
  end.
Definition replace (old new s : string) : string := replace_go old new 0 s.

(** [x in l] for a list of strings. *)
Definition mem (x : string) (l : list string) : bool :=
  bool_decide (x ∈ l).

(** Truthiness of a string: [if s:]. *)
Definition truthy (s : string) : bool := negb (String.eqb s "").

End PyStr.

(** ** Exceptions and outcomes *)

Inductive exn : Type :=
| ValueError (msg : string)
| KeyError (key : string)
| ArithmeticError (msg : string).

(** The result of a call: it returned a value or raised. *)
Inductive outcome (A : Type) : Type :=
| Returned (a : A)
| Raised (e : exn).
Arguments Returned {A} a.
Arguments Raised {A} e.

Definition raises {A} (o : outcome A) : Prop :=
  match o with Raised _ => True | Returned _ => False end.

(** ** Numbers that the script reads out of strings

    [float(s)], [Decimal(s)] and ['%g' % d] are library code.  The
    development is parametric in them; [DecimalLiterals] below gives the
    instance used to run examples. *)

Class PyNum := {
  (** [is_number(s)]: [float(s)] does not raise [ValueError]. *)
  is_number : string -> bool;
  (** [float(a) < float(b)]. *)
  float_ltb : string -> string -> bool;
  (** [Decimal(a) < Decimal(b)], which signals [InvalidOperation] when one
      of the two is a NaN. *)
  decimal_ltb : string -> string -> outcome bool;
  (** ['%g' % Decimal(s)]. *)
  fmt_g : string -> string;
}.

(** ** Quantity records *)

(** One entry of [events[name][quanta]]: the key ['value'] is always set,
    ['error'] and ['source'] only when the arguments were non-empty. *)
Record quantum : Type := Quantum {
  q_value : string;
  q_error : option string;
  q_source : option string;
}.

Global Instance quantum_eq_dec : EqDecision quantum.
Proof. solve_decision. Defined.

Definition typereps : list (string * list string) :=
  [ ("I P",    ["I pec"; "I-pec"; "I Pec"; "I-Pec"]);
    ("Ia P",   ["Ia pec"; "Ia-pec"; "Iapec"]);
    ("Ib P",   ["Ib pec"; "Ib-pec"]);
    ("Ic P",   ["Ic pec"; "Ic-pec"]);
    ("Ib/c",   ["Ibc"]);
    ("Ib/c P", ["Ib/c-pec"]);
    ("II P",   ["II pec"; "IIpec"; "II Pec"; "IIPec"; "IIP"; "IIp"; "II p";
                "II-pec"; "II P pec"; "II-P"]);
    ("II L",   ["IIL"]);
    ("IIn P",  ["IIn pec"; "IIn-pec"]);
    ("IIb P",  ["IIb-pec"; "IIb: pec"]) ].

Definition repbetterquanta : list string :=
  ["redshift"; "ebv"; "hvel"; "lumdist"].

(** [get_sig_digits(x)]: [len((''.join(x.split('.'))).strip('0'))]. *)
Definition get_sig_digits (x : string) : nat :=
  String.length
    (PyStr.strip_char "0" (PyStr.join "" (PyStr.split "." x))).

(** The loop over [typereps]: the first key whose list holds [svalue]. *)
Fixpoint claimedtype_rep (reps : list (string * list string)) (svalue : string)
  : string :=
  match reps with
  | [] => svalue
  | (rep, l) :: reps' =>
      if PyStr.mem svalue l then rep else claimedtype_rep reps' svalue
  end.

Section AddQuanta.
Context `{PyNum}.

(** The value kept in the record: [svalue] after the per-quantity
    rewriting and the ['%g'] normalisation of numbers. *)
Definition norm_value (quanta value : string) : string :=
  let svalue := PyStr.strip value in
  let svalue :=
    if String.eqb quanta "host" then
      let s1 := PyStr.replace "NGC" "NGC " svalue in
      let s2 := PyStr.replace "UGC" "UGC " s1 in
      let s3 := PyStr.replace "IC" "IC " s2 in
      PyStr.join " " (PyStr.words s3)
    else if String.eqb quanta "claimedtype" then
      claimedtype_rep typereps svalue
    else svalue in
  if is_number value then fmt_g svalue else svalue.

(** The error kept in the record; [""] stands for no error. *)
Definition norm_error (error : string) : string :=
  let serror := PyStr.strip error in
  if PyStr.truthy serror then fmt_g serror else serror.

(** The first loop of [add_quanta]: the position and the record of the
    first entry whose value equals [svalue]. *)
Fixpoint find_value (svalue : string) (i : nat) (cts : list quantum)
  : option (nat * quantum) :=
  match cts with
  | [] => None
  | ct :: cts' =>
      if String.eqb (q_value ct) svalue then Some (i, ct)
      else find_value svalue (S i) cts'
  end.

(** The second loop: [newquantas] and [isworse] after the records [cts]. *)
Fixpoint better_loop (serror : string) (newsig : nat) (cts : list quantum)
  (newquantas : list quantum) (isworse : bool) : list quantum * bool :=
  match cts with
  | [] => (newquantas, isworse)
  | ct :: cts' =>
      match q_error ct with
      | Some cterr =>
          if PyStr.truthy serror && float_ltb serror cterr
          then better_loop serror newsig cts' newquantas false
          else better_loop serror newsig cts' (newquantas ++ [ct]) isworse
      | None =>
          if PyStr.truthy serror
          then better_loop serror newsig cts' newquantas false
          else
            let oldsig := get_sig_digits (q_value ct) in
            let newquantas' :=
              if (newsig <=? oldsig)%nat then newquantas ++ [ct]
              else newquantas in
            let isworse' :=
              if (oldsig <=? newsig)%nat then false else isworse in
            better_loop serror newsig cts' newquantas' isworse'
      end
  end.

(** The quantity lists of one event, [events[name]] restricted to the
    keys that [add_quanta] reads and writes. *)
Definition quantities := gmap string (list quantum).

(** [add_quanta(name, quanta, value, source, forcereplacebetter, error)]
    on the quantity lists of [events[name]]. *)
Definition add_quanta (ev : quantities) (quanta value source : string)
  (forcereplacebetter : bool) (error : string)
  : quantities * outcome unit :=
  if negb (PyStr.truthy quanta) then
    (ev, Raised (ValueError "Quanta must be specified for add_quanta."))
  else
    let svalue := PyStr.strip value in
    let serror := PyStr.strip error in
    if negb (PyStr.truthy svalue) || String.eqb svalue "--"
       || String.eqb svalue "-" then (ev, Returned tt)
    else if PyStr.truthy serror
            && (negb (is_number serror) || float_ltb serror "0.") then
      (ev, Raised (ValueError
                     "Quanta error value must be a number and positive."))
    else if (String.eqb quanta "hvel" || String.eqb quanta "redshift")
            && negb (is_number value) then (ev, Returned tt)
    else
      let svalue := norm_value quanta value in
      let serror := norm_error error in
      let found :=
        match ev !! quanta with
        | Some cts => find_value svalue 0 cts
        | None => None
        end in
      match found with
      | Some (i, ct) =>
          if PyStr.truthy source then
            match q_source ct with
            | None => (ev, Raised (KeyError "source"))
            | Some ctsrc =>
                if negb (PyStr.mem source (PyStr.split "," ctsrc)) then
                  let ct' :=
                    {| q_value := q_value ct;
                       q_error := if PyStr.truthy serror then Some serror
                                  else q_error ct;
                       q_source := Some (ctsrc +:+ "," +:+ source) |} in
                  (alter (fun cts => <[i := ct']> cts) quanta ev,
                   Returned tt)
                else (ev, Returned tt)
            end
          else (ev, Returned tt)
      | None =>
          let quantaentry :=
            {| q_value := svalue;
               q_error := if PyStr.truthy serror then Some serror else None;
               q_source := if PyStr.truthy source then Some source
                           else None |} in
          match ev !! quanta with
          | Some cts =>
              if forcereplacebetter || PyStr.mem quanta repbetterquanta then
                let '(newquantas, isworse) :=
                  better_loop serror (get_sig_digits svalue) cts [] true in
                let newquantas :=
                  if isworse then newquantas
                  else newquantas ++ [quantaentry] in
                (<[quanta := newquantas]> ev, Returned tt)
              else (<[quanta := cts ++ [quantaentry]]> ev, Returned tt)
          | None => (<[quanta := [quantaentry]]> ev, Returned tt)
          end
      end.

End AddQuanta.

(** ** An instance of [PyNum] for plain decimal literals

    The literals read here are [sign? digits (. digits)?] with optional
    surrounding white space; a literal denotes [mantissa / 10 ^ scale].
    On such literals with at most six significant digits and a magnitude
    that ['%g'] prints without an exponent, the three operations agree with
    Python; exponents, [inf] and [nan] are outside this instance. *)

Module DecimalLiterals.

Record dec : Type := Dec { mantissa : Z; scale : nat }.

Fixpoint digits_value (s : string) (acc : Z) : option Z :=
  match s with
  | "" => Some acc
  | String c s' =>
      match Ascii.is_nat c with
      | Some d => digits_value s' (10 * acc + Z.of_nat d)%Z
      | None => None
      end
  end.

Definition parse_unsigned (s : string) : option dec :=
  match PyStr.split "." s with
  | [i] =>
      if PyStr.truthy i then
        m ← digits_value i 0; Some (Dec m 0)
      else None
  | [i; f] =>
      if PyStr.truthy i || PyStr.truthy f then
        m ← digits_value (i +:+ f) 0; Some (Dec m (String.length f))
      else None
  | _ => None
  end.

Definition parse (s : string) : option dec :=
  match PyStr.strip s with
  | String "-" s' =>
      d ← parse_unsigned s'; Some (Dec (- mantissa d) (scale d))
  | String "+" s' => parse_unsigned s'
  | s' => parse_unsigned s'
  end.

Definition dec_ltb (a b : dec) : bool :=
  (mantissa a * 10 ^ Z.of_nat (scale b)
   <? mantissa b * 10 ^ Z.of_nat (scale a))%Z.

Fixpoint zeros (n : nat) : string :=
  match n with O => "" | S k => String "0" (zeros k) end.

(** The positional form without trailing zeros of the fraction. *)
Definition print (d : dec) : string :=
  let p := (10 ^ Z.of_nat (scale d))%Z in
  let a := Z.abs (mantissa d) in
  let ipart := pretty (Z.to_N (a / p)) in
  let fdigits := pretty (Z.to_N (a mod p)) in
  let fpart :=
    String.rev
      (PyStr.lstrip_by (Ascii.eqb "0")
         (String.rev
            (zeros (scale d - String.length fdigits) +:+ fdigits))) in
  (if (mantissa d <? 0)%Z then "-" else "")
    +:+ ipart
    +:+ (if PyStr.truthy fpart then "." +:+ fpart else "").

Definition dec_is_number (s : string) : bool :=
  match parse s with Some _ => true | None => false end.

Definition dec_float_ltb (a b : string) : bool :=
  match parse a, parse b with
  | Some x, Some y => dec_ltb x y
  | _, _ => false
  end.

Definition dec_fmt_g (s : string) : string :=
  match parse s with Some d => print d | None => s end.

(** The order of [Decimal] on the literals; what is not a literal is
    outside this instance and signals. *)
Definition dec_decimal_ltb (a b : string) : outcome bool :=
  match parse a, parse b with
  | Some x, Some y => Returned (dec_ltb x y)
  | _, _ => Raised (ArithmeticError "InvalidOperation")
  end.

Definition pynum : PyNum :=
  {| is_number := dec_is_number;
     float_ltb := dec_float_ltb;
     decimal_ltb := dec_decimal_ltb;
     fmt_g := dec_fmt_g |}.

End DecimalLiterals.


(** ** The directory of events *)

(** One citation of [events[name]['sources']]; ['url'], ['bibcode'] and
    ['secondary'] are set only for truthy arguments. *)
Record citation : Type := Citation {
  c_name : string;
  c_url : option string;
  c_bibcode : option string;
  c_alias : string;
  c_secondary : bool;
}.

(** One entry of [events[name]['photometry']], with the keys that the
    light-curve scans read. *)
Record photo : Type := Photo {
  p_timeunit : string;
  p_time : string;
  p_band : string;
  p_abmag : string;
}.

(** [events[name]]: an optional field is a key that may be missing. *)
Record event : Type := Event {
  ev_name : string;
  ev_aliases : option (list string);
  ev_sources : option (list citation);
  ev_quanta : gmap string (list quantum);
  ev_photometry : option (list photo);
  ev_scalars : gmap string string;
}.

Definition set_aliases (l : list string) (e : event) : event :=
  {| ev_name := ev_name e; ev_aliases := Some l; ev_sources := ev_sources e;
     ev_quanta := ev_quanta e; ev_photometry := ev_photometry e;
     ev_scalars := ev_scalars e |}.

Definition set_sources (l : list citation) (e : event) : event :=
  {| ev_name := ev_name e; ev_aliases := ev_aliases e; ev_sources := Some l;
     ev_quanta := ev_quanta e; ev_photometry := ev_photometry e;
     ev_scalars := ev_scalars e |}.

Definition set_quanta (q : gmap string (list quantum)) (e : event) : event :=
  {| ev_name := ev_name e; ev_aliases := ev_aliases e;
     ev_sources := ev_sources e; ev_quanta := q;
     ev_photometry := ev_photometry e; ev_scalars := ev_scalars e |}.

Definition set_scalar (k v : string) (e : event) : event :=
  {| ev_name := ev_name e; ev_aliases := ev_aliases e;
     ev_sources := ev_sources e; ev_quanta := ev_quanta e;
     ev_photometry := ev_photometry e;
     ev_scalars := <[k := v]> (ev_scalars e) |}.

(** [events = OrderedDict()]: keys in insertion order, each at most once. *)
Definition directory := list (string * event).

Module Dir.

Fixpoint get (name : string) (events : directory) : option event :=
  match events with
  | [] => None
  | (k, e) :: rest => if String.eqb k name then Some e else get name rest
  end.

(** [name in events] *)
Definition has (name : string) (events : directory) : bool :=
  match get name events with Some _ => true | None => false end.

(** [events[name] = e]: in place for a present key, appended otherwise. *)
Fixpoint set (name : string) (e : event) (events : directory) : directory :=
  match events with
  | [] => [(name, e)]
  | (k, e') :: rest =>
      if String.eqb k name then (k, e) :: rest
      else (k, e') :: set name e rest
  end.

(** [del events[name]] *)
Fixpoint remove (name : string) (events : directory) : directory :=
  match events with
  | [] => []
  | (k, e) :: rest =>
      if String.eqb k name then rest else (k, e) :: remove name rest
  end.

Definition keys (events : directory) : list string := map fst events.

End Dir.

(** The event made by [events[name] = OrderedDict()] followed by
    [events[name]['name'] = name]. *)
Definition new_event (name : string) : event :=
  {| ev_name := name; ev_aliases := None; ev_sources := None;
     ev_quanta := ∅; ev_photometry := None; ev_scalars := ∅ |}.

(** [add_alias(name, alias)] *)
Definition add_alias (events : directory) (name alias : string)
  : directory * outcome unit :=
  match Dir.get name events with
  | None => (events, Raised (KeyError name))
  | Some e =>
      match ev_aliases e with
      | Some l =>
          if PyStr.mem alias l then (events, Returned tt)
          else (Dir.set name (set_aliases (l ++ [alias]) e) events,
                Returned tt)
      | None => (Dir.set name (set_aliases [alias] e) events, Returned tt)
      end
  end.

(** The loop of [add_event] over the events [rest] still to visit: the
    first event with more than one alias that lists [name]. *)
Fixpoint scan_aliases (name : string) (rest : directory) : outcome (option string) :=
  match rest with
  | [] => Returned None
  | (k, e) :: rest' =>
      match ev_aliases e with
      | None => Raised (KeyError "aliases")
      | Some l =>
          if (1 <? length l)%nat && PyStr.mem name l then Returned (Some k)
          else scan_aliases name rest'
      end
  end.

(** [add_event(name)] *)
Definition add_event (events : directory) (name : string)
  : directory * outcome string :=
  if Dir.has name events then (events, Returned name)
  else
    match scan_aliases name events with
    | Raised x => (events, Raised x)
    | Returned (Some k) => (events, Returned k)
    | Returned None =>
        let events1 := Dir.set name (new_event name) events in
        (fst (add_alias events1 name name), Returned name)
    end.

(** Modelled from the spec: the merge of two entities at the level of the
    directory, which the script does not have and which [catalog.py] leaves
    to the class [Entry] of [astrocats.catalog.entry].  Every alias of the
    loser is re-pointed to the winner and the loser is deleted from the
    directory. *)
Definition merge (events : directory) (winner loser : string) : directory :=
  match Dir.get winner events, Dir.get loser events with
  | Some w, Some l =>
      if String.eqb winner loser then events
      else
        let wa := default [] (ev_aliases w) in
        let la := default [] (ev_aliases l) in
        let added := filter (fun a => a ∉ wa) la in
        Dir.remove loser (Dir.set winner (set_aliases (wa ++ added) w) events)
  | _, _ => events
  end.

(** The alias list of an entity, empty when the key is missing. *)
Definition aliases_of (e : event) : list string := default [] (ev_aliases e).

(** The operations that change the directory. *)
Inductive op : Type :=
| OpAddEvent (name : string)
| OpAddAlias (name alias : string)
| OpMerge (winner loser : string).

Definition run_op (events : directory) (o : op) : directory :=
  match o with
  | OpAddEvent name => fst (add_event events name)
  | OpAddAlias name alias => fst (add_alias events name alias)
  | OpMerge winner loser => merge events winner loser
  end.

(** States reached from the empty directory by operations that satisfy
    [allowed] in the state in which they run. *)
Inductive reachable (allowed : directory -> op -> Prop) : directory -> Prop :=
| reach_empty : reachable allowed []
| reach_step events o :
    reachable allowed events -> allowed events o ->
    reachable allowed (run_op events o).

Definition any_op (events : directory) (o : op) : Prop := True.

(** The operations of the script itself. *)
Definition script_op (events : directory) (o : op) : Prop :=
  match o with OpMerge _ _ => False | _ => True end.

(** An alias may be registered when no other entity lists it. *)
Definition fresh_alias_op (events : directory) (o : op) : Prop :=
  match o with
  | OpAddAlias name alias =>
      forall k e, (k, e) ∈ events -> k <> name -> alias ∉ aliases_of e
  | _ => True
  end.

(** Alias uniqueness: distinct canonical names have disjoint alias lists. *)
Definition aliases_disjoint (events : directory) : Prop :=
  forall k1 e1 k2 e2 a,
    (k1, e1) ∈ events -> (k2, e2) ∈ events -> k1 <> k2 ->
    a ∈ aliases_of e1 -> a ∉ aliases_of e2.

(** What every state of the directory satisfies: a canonical name is a key
    once, and every entity has an alias list that holds its own name. *)
Definition well_formed (events : directory) : Prop :=
  NoDup (Dir.keys events)
  /\ forall k e, (k, e) ∈ events -> exists l, ev_aliases e = Some l /\ k ∈ l.

(** The entity that [add_event] makes for a new name. *)
Definition created (name : string) : event :=
  set_aliases [name] (new_event name).

(** ** The source registry of one event *)

(** [l.index(x)] over the names of the citations, returning the citation. *)
Fixpoint find_citation (reference : string) (l : list citation)
  : option citation :=
  match l with
  | [] => None
  | c :: l' =>
      if String.eqb (c_name c) reference then Some c
      else find_citation reference l'
  end.

(** [get_source(name, reference, url, bibcode, secondary)] on
    [events[name]['sources']]; [None] is the missing key. *)
Definition get_source (sources : option (list citation))
  (reference url bibcode : string) (secondary : bool)
  : option (list citation) * outcome string :=
  let nsources := match sources with Some l => length l | None => 0 end in
  if negb (PyStr.truthy reference) && negb (PyStr.truthy bibcode) then
    (sources, Raised (ValueError "Bibcode must be specified if name is not."))
  else
    let '(reference, url) :=
      if negb (PyStr.truthy reference)
      then (bibcode, "http://adsabs.harvard.edu/abs/" +:+ bibcode)
      else (reference, url) in
    match (match sources with
           | Some l => find_citation reference l
           | None => None
           end) with
    | None =>
        let source := pretty (nsources + 1)%nat in
        let newsource :=
          {| c_name := reference;
             c_url := if PyStr.truthy url then Some url else None;
             c_bibcode := if PyStr.truthy bibcode then Some bibcode else None;
             c_alias := source;
             c_secondary := secondary |} in
        (Some (default [] sources ++ [newsource]), Returned source)
    | Some c => (sources, Returned (c_alias c))
    end.

(** The arguments of one [get_source] call. *)
Record source_call : Type := SourceCall {
  sc_reference : string;
  sc_url : string;
  sc_bibcode : string;
  sc_secondary : bool;
}.

Definition get_source_call (sources : option (list citation)) (c : source_call)
  : option (list citation) * outcome string :=
  get_source sources (sc_reference c) (sc_url c) (sc_bibcode c)
    (sc_secondary c).

(** The registry after a sequence of calls, from left to right. *)
Definition run_get_source (sources : option (list citation))
  (calls : list source_call) : option (list citation) :=
  fold_left (fun s c => fst (get_source_call s c)) calls sources.

(** The identity under which a citation is compared. *)
Definition citation_identity (c : citation) : string * option string :=
  (c_name c, c_bibcode c).

(** ["1"], ["2"], ..., [str(n)]. *)
Definition alias_numbers (n : nat) : list string :=
  map (fun i : nat => pretty i) (seq 1 n).

(** The name under which a call looks its citation up: the reference, or
    the bibcode when no reference is given. *)
Definition effective_name (c : source_call) : string :=
  if PyStr.truthy (sc_reference c) then sc_reference c else sc_bibcode c.

(** The citations of a registry, none when the key is missing. *)
Definition citations (sources : option (list citation)) : list citation :=
  default [] sources.

(** What [get_source] keeps true of a registry. *)
Definition registry_ok (sources : option (list citation)) : Prop :=
  c_alias <$> citations sources = alias_numbers (length (citations sources))
  /\ NoDup (c_name <$> citations sources)
  /\ Forall (fun c => c_name c <> "") (citations sources).

(** ** First and maximum light *)

(** What the script gets from astropy and from [pretty_num]. *)
Class PyAstro := {
  (** [astrotime(float(t), format='mjd').datetime], kept as the
      [pretty_num] of its year, month and day; astropy raises on a time that
      it cannot convert (a NaN, a date out of the range of [datetime]). *)
  mjd_date : string -> outcome (string * string * string);
  (** [pretty_num(Decimal(m))], which raises on an infinity or a NaN
      ([floor(log10(abs(x)))]). *)
  pretty_num_decimal : string -> outcome string;
  (** [pretty_num(clight/1.e5*((z + 1.)**2. - 1.)/((z + 1.)**2. + 1.),
      sig = n)] for [z = float(bestz)]. *)
  doppler_hvel : string -> nat -> outcome string;
  (** [pretty_num(sqrt((1. + voc)/(1. - voc)) - 1., sig = n)] for
      [voc = float(besthv)*1.e5/clight]. *)
  doppler_redshift : string -> nat -> outcome string;
}.

(** The first position of a least element, as [l.index(min(l))] finds it;
    [lt] is the strict order that [min] uses. *)
Fixpoint index_min_go {A} (lt : A -> A -> bool) (best : A) (besti i : nat)
  (l : list A) : nat :=
  match l with
  | [] => besti
  | x :: l' =>
      if lt x best then index_min_go lt x i (S i) l'
      else index_min_go lt best besti (S i) l'
  end.

Definition index_min {A} (lt : A -> A -> bool) (l : list A) : option nat :=
  match l with
  | [] => None
  | x :: l' => Some (index_min_go lt x 0 1 l')
  end.

(** The same scan with a comparison that may raise. *)
Fixpoint index_min_go_raising {A} (lt : A -> A -> outcome bool) (best : A)
  (besti i : nat) (l : list A) : outcome nat :=
  match l with
  | [] => Returned besti
  | x :: l' =>
      match lt x best with
      | Raised e => Raised e
      | Returned true => index_min_go_raising lt x i (S i) l'
      | Returned false => index_min_go_raising lt best besti (S i) l'
      end
  end.

Definition index_min_raising {A} (lt : A -> A -> outcome bool) (l : list A)
  : outcome (option nat) :=
  match l with
  | [] => Returned None
  | x :: l' =>
      match index_min_go_raising lt x 0 1 l' with
      | Raised e => Raised e
      | Returned i => Returned (Some i)
      end
  end.

Section Light.
Context `{PyNum} `{PyAstro}.

(** The point that [get_max_light] selects: [mlindex], the position of
    the least magnitude, compared as [Decimal]; [min] raises on an empty
    list, and the comparison on a NaN. *)
Definition max_light_point (e : event) : outcome (option photo) :=
  match ev_photometry e with
  | None => Returned None
  | Some ph =>
      match index_min_raising decimal_ltb (map p_abmag ph) with
      | Raised x => Raised x
      | Returned None => Raised (ValueError "min() arg is an empty sequence")
      | Returned (Some i) => Returned (ph !! i)
      end
  end.

(** [get_max_light(name)]: the date of the selected point and its
    magnitude, [(None, None)] without photometry. *)
Definition get_max_light (e : event)
  : outcome (option (string * string * string * string)) :=
  match max_light_point e with
  | Raised x => Raised x
  | Returned None => Returned None
  | Returned (Some p) =>
      match mjd_date (p_time p) with
      | Raised x => Raised x
      | Returned d => Returned (Some (d, p_abmag p))
      end
  end.

(** The point that [get_first_light] selects: the position of the least
    of the list [eventtime], a list of [str]. *)
Definition first_light_point (e : event) : outcome (option photo) :=
  match ev_photometry e with
  | None => Returned None
  | Some ph =>
      match index_min String.ltb (map p_time ph) with
      | None => Raised (ValueError "min() arg is an empty sequence")
      | Some i => Returned (ph !! i)
      end
  end.

(** [get_first_light(name)]: the date of the selected point. *)
Definition get_first_light (e : event)
  : outcome (option (string * string * string)) :=
  match first_light_point e with
  | Raised x => Raised x
  | Returned None => Returned None
  | Returned (Some p) =>
      match mjd_date (p_time p) with
      | Raised x => Raised x
      | Returned d => Returned (Some d)
      end
  end.

(** The three date fields of the maximum, written before the magnitude is
    formatted. *)
Definition set_max_date (d : string * string * string) (e : event) : event :=
  let '(y, m, d) := d in
  set_scalar "maxday" d (set_scalar "maxmonth" m (set_scalar "maxyear" y e)).

Definition set_discover_fields (d : string * string * string) (e : event)
  : event :=
  let '(y, m, d) := d in
  set_scalar "discoverday" d
    (set_scalar "discovermonth" m (set_scalar "discoveryear" y e)).

(** The first half of [set_first_max_light]: the fields of the maximum. *)
Definition set_max_fields (e : event) : event * outcome unit :=
  match get_max_light e with
  | Raised x => (e, Raised x)
  | Returned None => (e, Returned tt)
  | Returned (Some (d, mag)) =>
      let e3 := set_max_date d e in
      match pretty_num_decimal mag with
      | Raised x => (e3, Raised x)
      | Returned s => (set_scalar "maxappmag" s e3, Returned tt)
      end
  end.

(** [set_first_max_light(name)] *)
Definition set_first_max_light (e : event) : event * outcome unit :=
  match set_max_fields e with
  | (e1, Raised x) => (e1, Raised x)
  | (e1, Returned _) =>
      match get_first_light e1 with
      | Raised x => (e1, Raised x)
      | Returned None => (e1, Returned tt)
      | Returned (Some d) => (set_discover_fields d e1, Returned tt)
      end
  end.

(** ** Derived velocity and redshift *)

(** The scan for the "best" value: the first value of the greatest
    significant-digit count, and that count; [bestsig] starts at 0. *)
Fixpoint best_sig_go (best : string) (bestsig : nat) (l : list quantum)
  : string * nat :=
  match l with
  | [] => (best, bestsig)
  | z :: l' =>
      let sig := get_sig_digits (q_value z) in
      if (bestsig <? sig)%nat then best_sig_go (q_value z) sig l'
      else best_sig_go best bestsig l'
  end.
Definition best_sig (l : list quantum) : string * nat := best_sig_go "" 0 l.

(** The two branches on ['redshift'] and ['hvel'] of the block that is
    run for each event before it is written. *)
Definition derive_velocity (q : gmap string (list quantum))
  : gmap string (list quantum) * outcome unit :=
  match q !! "redshift", q !! "hvel" with
  | Some zs, None =>
      let '(bestz, bestsig) := best_sig zs in
      if (0 <? bestsig)%nat then
        match doppler_hvel bestz bestsig with
        | Returned v => add_quanta q "hvel" v "D" false ""
        | Raised x => (q, Raised x)
        end
      else (q, Returned tt)
  | None, Some hvs =>
      let '(besthv, bestsig) := best_sig hvs in
      if (0 <? bestsig)%nat && is_number besthv then
        match doppler_redshift besthv bestsig with
        | Returned v => add_quanta q "redshift" v "D" false ""
        | Raised x => (q, Raised x)
        end
      else (q, Returned tt)
  | _, _ => (q, Returned tt)
  end.

End Light.

(** An instance of [PyAstro] that records what the script computes for
    the inputs of the examples below (dates of two Julian days, two
    magnitudes, two velocities, one redshift); other inputs are outside
    this instance. *)
Module RecordedAstro.

Definition recorded_date (t : string)
  : outcome (string * string * string) :=
  if String.eqb t "9999.5" then Returned ("1886", "4", "3")
  else if String.eqb t "10000.5" then Returned ("1886", "4", "4")
  else Raised (ArithmeticError "not recorded").

Definition recorded_magnitude (m : string) : outcome string :=
  if String.eqb m "14.8" then Returned "14.8"
  else if String.eqb m "15.2" then Returned "15.2"
  else Raised (ArithmeticError "not recorded").

Definition recorded_hvel (bestz : string) (sig : nat) : outcome string :=
  if String.eqb bestz "0.045" && (sig =? 2)%nat then Returned "13000"
  else if String.eqb bestz "0.068" && (sig =? 2)%nat then Returned "20000"
  else Raised (ArithmeticError "not recorded").

Definition recorded_redshift (besthv : string) (sig : nat) : outcome string :=
  if String.eqb besthv "13000" && (sig =? 2)%nat then Returned "0.044"
  else Raised (ArithmeticError "not recorded").

Definition astro : PyAstro :=
  {| mjd_date := recorded_date;
     pretty_num_decimal := recorded_magnitude;
     doppler_hvel := recorded_hvel;
     doppler_redshift := recorded_redshift |}.

End RecordedAstro.

(** ** Copying one entry into another ([Catalog.copy_entry_to_entry]) *)

(** The items of an entry are dictionaries; the fields read here are
    strings. *)
Definition item := gmap string string.

(** The destination entry and the [Entry] methods called on it, which are
    defined in [astrocats.catalog.entry], the key table [_KEYS] and the key
    names of [ENTRY] and [SOURCE]. *)
Class EntryOps (entry : Type) := {
  (** [_KEYS.get_key_by_name(key).no_source], which raises for a name
      that is not the name of a key. *)
  no_source : string -> outcome bool;
  NAME : string;
  (** [NAME in destentry]: [destentry[NAME]] raises [KeyError]
      otherwise. *)
  has_name : entry -> bool;
  SOURCES : string;
  ERRORS : string;
  PHOTOMETRY : string;
  SPECTRA : string;
  ALIAS : string;
  (** [destentry.setdefault(ERRORS, []).append(err)] *)
  append_error : entry -> item -> entry;
  (** [destentry.add_source] on the fields of [source]; it returns the
      alias of the citation in the destination. *)
  add_source : entry -> item -> entry * outcome string;
  add_photometry : entry -> item -> entry * outcome unit;
  add_spectrum : entry -> item -> entry * outcome unit;
  add_error : entry -> item -> entry * outcome unit;
  (** [destentry.add_quantity] with [check_for_dupes=False], the key and
      the fields of the item. *)
  add_quantity : entry -> string -> item -> entry * outcome unit;
  uniq_cdl : list string -> string;
}.

Section CopyEntry.
Context {entry : Type} `{EntryOps entry}.

(** [fromentry]: its keys in iteration order with their lists.  The value
    of a key whose items are not dictionaries, such as [NAME], is not read by
    the copy and is kept as the empty list. *)
Definition from_entry := list (string * list item).

Fixpoint entry_get (key : string) (fe : from_entry) : option (list item) :=
  match fe with
  | [] => None
  | (k, v) :: rest => if String.eqb k key then Some v else entry_get key rest
  end.

(** The first loop: [newsourcealiases[source.pop(ALIAS)] = source]. *)
Fixpoint collect_aliases (srcs : list item) (acc : gmap string item)
  : outcome (gmap string item) :=
  match srcs with
  | [] => Returned acc
  | s :: srcs' =>
      match s !! ALIAS with
      | None => Raised (KeyError ALIAS)
      | Some alias => collect_aliases srcs' (<[alias := delete ALIAS s]> acc)
      end
  end.

(** The loop over [item['source'].split(',')]. *)
Fixpoint remap_sources (nsa : gmap string item) (sids : list string)
  (dest : entry) (nsid : list string) : entry * outcome (list string) :=
  match sids with
  | [] => (dest, Returned nsid)
  | sid :: sids' =>
      match nsa !! sid with
      | Some src =>
          match add_source dest src with
          | (dest', Returned a) => remap_sources nsa sids' dest' (nsid ++ [a])
          | (dest', Raised x) => (dest', Raised x)
          end
      | None => (dest, Raised (ValueError "Couldn't find source alias!"))
      end
  end.

(** The body of the loop over the items of one key. *)
Definition copy_item (nsa : gmap string item) (key : string) (it : item)
  (dest : entry) : entry * outcome unit :=
  match it !! "source" with
  | None => (dest, Raised (ValueError "Item has no source!"))
  | Some src =>
      match remap_sources nsa (PyStr.split "," src) dest [] with
      | (dest', Raised x) => (dest', Raised x)
      | (dest', Returned nsid) =>
          let it' := <["source" := uniq_cdl nsid]> it in
          if String.eqb key PHOTOMETRY then add_photometry dest' it'
          else if String.eqb key SPECTRA then add_spectrum dest' it'
          else if String.eqb key ERRORS then add_error dest' it'
          else add_quantity dest' key it'
      end
  end.

Fixpoint copy_items (nsa : gmap string item) (key : string)
  (items : list item) (dest : entry) : entry * outcome unit :=
  match items with
  | [] => (dest, Returned tt)
  | it :: items' =>
      match copy_item nsa key it dest with
      | (dest', Returned _) => copy_items nsa key items' dest'
      | (dest', Raised x) => (dest', Raised x)
      end
  end.

(** The loop [for key in fromentry]. *)
Fixpoint copy_keys (nsa : gmap string item) (fe : from_entry) (dest : entry)
  : entry * outcome unit :=
  match fe with
  | [] => (dest, Returned tt)
  | (key, items) :: fe' =>
      match no_source key with
      | Raised x => (dest, Raised x)
      | Returned true => copy_keys nsa fe' dest
      | Returned false =>
          match copy_items nsa key items dest with
          | (dest', Returned _) => copy_keys nsa fe' dest'
          | (dest', Raised x) => (dest', Raised x)
          end
      end
  end.

(** [newsourcealiases] once the sources of [fromentry] are read. *)
Definition collected (fe : from_entry) : outcome (gmap string item) :=
  match entry_get SOURCES fe with
  | Some srcs => collect_aliases srcs ∅
  | None => Returned ∅
  end.

(** [copy_entry_to_entry(fromentry, destentry)]: the message that is
    logged first reads [fromentry[NAME]] and [destentry[NAME]]. *)
Definition copy_entry_to_entry (fe : from_entry) (dest : entry)
  : entry * outcome unit :=
  match entry_get NAME fe with
  | None => (dest, Raised (KeyError NAME))
  | Some _ =>
      if negb (has_name dest) then (dest, Raised (KeyError NAME))
      else
        match collected fe with
        | Raised x => (dest, Raised x)
        | Returned nsa =>
            let dest1 :=
              match entry_get ERRORS fe with
              | Some errs => fold_left append_error errs dest
              | None => dest
              end in
            copy_keys nsa fe dest1
        end
  end.

(** An item that the copy cannot attribute: no ['source'], or an alias
    that the sources of [fromentry] do not define. *)
Definition unsourced (nsa : gmap string item) (it : item) : Prop :=
  match it !! "source" with
  | None => True
  | Some src => exists sid, sid ∈ PyStr.split "," src /\ nsa !! sid = None
  end.

End CopyEntry.

(** An instance of [EntryOps] to run the copy: the destination is the list
    of what was added to it, under the key it was added for, and has a
    name; sources are numbered as they come; every string is the name of a
    key. *)
Module EntryLog.

Definition entry := list (string * item).

Definition log (key : string) (e : entry) (it : item)
  : entry * outcome unit :=
  (e ++ [(key, it)], Returned tt).

Definition ops : EntryOps entry :=
  {| no_source := fun key =>
       Returned (PyStr.mem key ["name"; "schema"; "sources"]);
     NAME := "name";
     has_name := fun _ => true;
     SOURCES := "sources";
     ERRORS := "errors";
     PHOTOMETRY := "photometry";
     SPECTRA := "spectra";
     ALIAS := "alias";
     append_error := fun e it => e ++ [("errors", it)];
     add_source := fun e it =>
       (e ++ [("sources", it)],
        Returned (pretty (S (length (filter (fun p => fst p = "sources") e)))));
     add_photometry := log "photometry";
     add_spectrum := log "spectra";
     add_error := log "errors";
     add_quantity := fun e key it => log key e it;
     uniq_cdl := fun l => PyStr.join "," (remove_dups l) |}.

End EntryLog.

(** ** The catalogue of [catalog.py]: [add_entry] *)

(** What [add_entry] and [find_entry_name_of_alias] read of an [Entry], a
    class of [astrocats.catalog.entry]: the flag [_stub], the
    list that [get_aliases(includename=False)] returns and the key
    [DISTINCT_FROM]. *)
Record centry : Type := CEntry {
  ce_stub : bool;
  ce_aliases : list string;
  ce_distinct_from : option (list string);
}.

(** [self.entries], in insertion order, and the index [self.aliases]. *)
Record catalog : Type := Catalog {
  cat_entries : list (string * centry);
  cat_aliases : gmap string string;
}.


Fixpoint entries_get (name : string) (l : list (string * centry))
  : option centry :=
  match l with
  | [] => None
  | (k, e) :: rest => if String.eqb k name then Some e else entries_get name rest
  end.


(** The "look really hard" loop of [find_entry_name_of_alias]. *)
Fixpoint scan_entries (alias : string) (l : list (string * centry))
  : option string :=
  match l with
  | [] => None
  | (name, e) :: rest =>
      if PyStr.mem alias (ce_aliases e)
         && match ce_distinct_from e with
            | None => true
            | Some d => negb (PyStr.mem alias d)
            end
      then Some name
      else scan_entries alias rest
  end.

(** [find_entry_name_of_alias(alias)] *)
Definition find_entry_name_of_alias (c : catalog) (alias : string)
  : option string :=
  match cat_aliases c !! alias with
  | Some name =>
      match entries_get name (cat_entries c) with
      | Some _ => Some name
      | None => scan_entries alias (cat_entries c)
      end
  | None => None
  end.

Section AddEntry.
Context `{EntryStore}.




End AddEntry.

(** ** Conditions on the arguments of [add_quanta] *)

(** The value is dropped: empty after [strip], ["--"] or ["-"]. *)
Definition blank_value (value : string) : bool :=
  let svalue := PyStr.strip value in
  negb (PyStr.truthy svalue) || String.eqb svalue "--"
  || String.eqb svalue "-".

Section Conditions.
Context `{PyNum}.

(** A stated error that is not a number or is below zero. *)
Definition malformed_error (error : string) : bool :=
  let serror := PyStr.strip error in
  PyStr.truthy serror && (negb (is_number serror) || float_ltb serror "0.").

(** A velocity or a redshift whose value is not a number is dropped. *)
Definition dropped_velocity (quanta value : string) : bool :=
  (String.eqb quanta "hvel" || String.eqb quanta "redshift")
  && negb (is_number value).

(** A call that reaches the two loops of [add_quanta]. *)
Definition accepted (quanta value error : string) : Prop :=
  quanta <> "" /\ blank_value value = false
  /\ malformed_error error = false /\ dropped_velocity quanta value = false.

(** The record that [add_quanta] builds for the candidate. *)
Definition quantaentry (quanta value source error : string) : quantum :=
  {| q_value := norm_value quanta value;
     q_error := if PyStr.truthy (norm_error error)
                then Some (norm_error error) else None;
     q_source := if PyStr.truthy source then Some source else None |}.

(** What the second loop keeps of the existing records. *)
Definition kept (serror : string) (newsig : nat) (ct : quantum) : bool :=
  match q_error ct with
  | Some cterr => negb (PyStr.truthy serror && float_ltb serror cterr)
  | None =>
      negb (PyStr.truthy serror)
      && (newsig <=? get_sig_digits (q_value ct))%nat
  end.

(** An existing record that lets the candidate in. *)
Definition yields (serror : string) (newsig : nat) (ct : quantum) : bool :=
  match q_error ct with
  | Some cterr => PyStr.truthy serror && float_ltb serror cterr
  | None =>
      PyStr.truthy serror
      || (get_sig_digits (q_value ct) <=? newsig)%nat
  end.

(** The record at a position after the source [source] was added to it. *)
Definition with_source (ct : quantum) (ctsrc source error : string)
  : quantum :=
  {| q_value := q_value ct;
     q_error := if PyStr.truthy (norm_error error)
                then Some (norm_error error) else q_error ct;
     q_source := Some (ctsrc +:+ "," +:+ source) |}.

End Conditions.

(** ** File names and character clean-up ([Catalog/utils/strings.py]) *)

Module PyText.

(** [sub in s] for strings. *)
Fixpoint contains (sub s : string) : bool :=
  String.prefix sub s
  || match s with
     | "" => false
     | String _ s' => contains sub s'
     end.

(** The one-character string of a character. *)
Definition char (c : ascii) : string := String c "".

End PyText.

(** [event_filename(name)] of the script and [get_event_filename(name)] of
    [strings.py]: [name.replace('/', '_')]. *)
Definition event_filename (name : string) : string :=
  PyStr.replace "/" "_" name.

Definition get_event_filename (name : string) : string :=
  PyStr.replace "/" "_" name.

(** [rep_chars(string, chars, rep)] for [chars] given as a [str], whose
    elements are its characters. *)
Fixpoint rep_chars (s : string) (chars : string) (rep : string) : string :=
  match chars with
  | "" => s
  | String c chars' =>
      rep_chars
        (if PyText.contains (PyText.char c) s
         then PyStr.replace (PyText.char c) rep s else s)
        chars' rep
  end.

(** [single_spaces(string)]: [' '.join(list(filter(None, string.split())))]. *)
Definition single_spaces (s : string) : string :=
  PyStr.join " " (List.filter PyStr.truthy (PyStr.words s)).

(** ** Photometry ([add_photometry]) *)

(** One entry of [events[name]['photometry']] with all the keys that
    [add_photometry] writes; ['instrument'], ['aberr'], ['source'] and
    ['upperlimit'] are set only for truthy arguments. *)
Record photopoint : Type := PhotoPoint {
  pp_timeunit : string;
  pp_time : string;
  pp_band : string;
  pp_abmag : string;
  pp_instrument : option string;
  pp_aberr : option string;
  pp_source : option string;
  pp_upperlimit : bool;
}.

(** The keys that the light-curve scans read. *)
Definition photo_of (p : photopoint) : photo :=
  {| p_timeunit := pp_timeunit p; p_time := pp_time p;
     p_band := pp_band p; p_abmag := pp_abmag p |}.

(** [Decimal(a) == Decimal(b)], library code like the operations of
    [PyNum]. *)
Class PyDecimalEq := {
  decimal_eqb : string -> string -> bool;
}.

(** The instance for plain decimal literals. *)
Definition dec_eqb (a b : string) : bool :=
  match DecimalLiterals.parse a, DecimalLiterals.parse b with
  | Some x, Some y =>
      (DecimalLiterals.mantissa x * 10 ^ Z.of_nat (DecimalLiterals.scale y)
       =? DecimalLiterals.mantissa y * 10 ^ Z.of_nat (DecimalLiterals.scale x))%Z
  | _, _ => false
  end.


(** ** Spectra ([add_spectrum]) *)

(** One entry of [events[name]['spectra']]: ['waveunit'], ['fluxunit'] and
    ['data'] are always set, the other keys only when [add_spectrum] sets
    them.  [deredshifted] and [dereddened] are [''] (here [None]) or a
    [bool]. *)
Record spectrum : Type := Spectrum {
  sp_deredshifted : option bool;
  sp_dereddened : option bool;
  sp_instrument : option string;
  sp_timeunit : option string;
  sp_time : option string;
  sp_snr : option string;
  sp_observer : option string;
  sp_reducer : option string;
  sp_waveunit : string;
  sp_fluxunit : string;
  sp_errorunit : option string;
  sp_data : list (list string);
  sp_source : option string;
}.

(** A key that is set for a truthy string only. *)
Definition if_truthy (s : string) : option string :=
  if PyStr.truthy s then Some s else None.

(** [[list(i) for i in zip(a, b)]] and the same for three lists. *)
Fixpoint zip2 (a b : list string) : list (list string) :=
  match a, b with
  | x :: a', y :: b' => [x; y] :: zip2 a' b'
  | _, _ => []
  end.

Fixpoint zip3 (a b c : list string) : list (list string) :=
  match a, b, c with
  | x :: a', y :: b', z :: c' => [x; y; z] :: zip3 a' b' c'
  | _, _, _ => []
  end.

Module Script.
Section AddPhotometry.
Context `{PyNum} `{PyDecimalEq}.

(** The test of the loop that looks for duplicate data. *)
Definition same_photometry (ph : photopoint)
  (timeunit time band abmag aberr : string) : bool :=
  String.eqb (pp_timeunit ph) timeunit && String.eqb (pp_band ph) band
  && decimal_eqb (pp_time ph) time && decimal_eqb (pp_abmag ph) abmag
  && match pp_aberr ph with
     | None => negb (PyStr.truthy aberr)
     | Some e =>
         (PyStr.truthy aberr && decimal_eqb e aberr)
         || negb (PyStr.truthy aberr)
     end.

(** [add_photometry(name, timeunit, time, instrument, band, abmag, aberr,
    source, upperlimit)] on [events[name]['photometry']]; [None] is the
    missing key. *)
Definition add_photometry (photometry : option (list photopoint))
  (timeunit time instrument band abmag aberr source : string)
  (upperlimit : bool) : option (list photopoint) :=
  if negb (PyStr.truthy time) || negb (PyStr.truthy abmag) then photometry
  else if negb (is_number time) || negb (is_number abmag) then photometry
  else if PyStr.truthy aberr && negb (is_number aberr) then photometry
  else if existsb (fun ph => same_photometry ph timeunit time band abmag aberr)
            (default [] photometry)
  then photometry
  else
    Some (default [] photometry
          ++ [{| pp_timeunit := timeunit; pp_time := time; pp_band := band;
                 pp_abmag := abmag;
                 pp_instrument :=
                   if PyStr.truthy instrument then Some instrument else None;
                 pp_aberr := if PyStr.truthy aberr then Some aberr else None;
                 pp_source := if PyStr.truthy source then Some source else None;
                 pp_upperlimit := upperlimit |}]).

End AddPhotometry.

Section AddSpectrum.
Context `{PyNum}.

(** [max] of the floats of a list that is not empty: the first of the
    greatest, [best] being the greatest so far. *)
Fixpoint max_go (best : string) (l : list string) : string :=
  match l with
  | [] => best
  | x :: l' => max_go (if float_ltb best x then x else best) l'
  end.

(** [add_spectrum(name, waveunit, fluxunit, wavelengths, fluxes, timeunit,
    time, instrument, deredshifted, dereddened, errorunit, errors, source,
    snr, observer, reducer)] on [events[name]['spectra']]; [errors = ''] is
    the empty list, and [float] of an error that is not a number raises. *)
Definition add_spectrum (spectra : option (list spectrum))
  (waveunit fluxunit : string) (wavelengths fluxes : list string)
  (timeunit time instrument : string) (deredshifted dereddened : option bool)
  (errorunit : string) (errors : list string)
  (source snr observer reducer : string)
  : option (list spectrum) * outcome unit :=
  if negb (PyStr.truthy waveunit) then (spectra, Returned tt)
  else if negb (PyStr.truthy fluxunit) then (spectra, Returned tt)
  else
    let entry (eu : option string) (data : list (list string)) :=
      {| sp_deredshifted := deredshifted; sp_dereddened := dereddened;
         sp_instrument := if_truthy instrument;
         sp_timeunit := if_truthy timeunit; sp_time := if_truthy time;
         sp_snr := if_truthy snr; sp_observer := if_truthy observer;
         sp_reducer := if_truthy reducer;
         sp_waveunit := waveunit; sp_fluxunit := fluxunit;
         sp_errorunit := eu; sp_data := data;
         sp_source := if_truthy source |} in
    let without_errors :=
      (Some (default [] spectra ++ [entry None (zip2 wavelengths fluxes)]),
       Returned tt) in
    match errors with
    | [] => without_errors
    | e0 :: es =>
        if negb (forallb is_number errors) then
          (spectra, Raised (ValueError "could not convert string to float"))
        else if float_ltb "0." (max_go e0 es) then
          if negb (PyStr.truthy errorunit) then (spectra, Returned tt)
          else
            (Some (default [] spectra
                   ++ [entry (Some errorunit)
                         (zip3 wavelengths fluxes errors)]),
             Returned tt)
        else without_errors
    end.

End AddSpectrum.

End Script.

(** A point whose time, magnitude and error are numbers. *)
Definition numeric_point `{PyNum} (p : photopoint) : Prop :=
  is_number (pp_time p) = true /\ is_number (pp_abmag p) = true
  /\ forall e, pp_aberr p = Some e -> is_number e = true.

(** ** The catalogue of [catalog.py]: names and counts *)

(** The loop of [get_preferred_name]: the first entry with more than one
    alias that lists [name]. *)
Fixpoint scan_preferred (name : string) (l : list (string * centry))
  : option string :=
  match l with
  | [] => None
  | (k, e) :: rest =>
      if (1 <? length (ce_aliases e))%nat && PyStr.mem name (ce_aliases e)
      then Some k else scan_preferred name rest
  end.

(** [get_preferred_name(name)] *)
Definition get_preferred_name (c : catalog) (name : string) : string :=
  match entries_get name (cat_entries c) with
  | Some _ => name
  | None => default name (scan_preferred name (cat_entries c))
  end.

(** [entry_exists(name)] *)
Definition entry_exists (c : catalog) (name : string) : bool :=
  match entries_get name (cat_entries c) with
  | Some _ => true
  | None => existsb (fun p => PyStr.mem name (ce_aliases (snd p))) (cat_entries c)
  end.

(** [count()]: the numbers of full entries and of stubs. *)
Fixpoint count_entries (l : list (string * centry)) (full stub : nat)
  : nat * nat :=
  match l with
  | [] => (full, stub)
  | (_, e) :: rest =>
      if ce_stub e then count_entries rest full (S stub)
      else count_entries rest (S full) stub
  end.

Definition count (c : catalog) : nat * nat := count_entries (cat_entries c) 0 0.

(** ** The quantity lists of an event, call after call *)

(** What [add_quanta] keeps true of the quantity lists of an event: no list
    is empty, no two records of a list have the same value, and a stored
    error or source is not the empty string. *)
Definition quanta_ok (ev : quantities) : Prop :=
  forall k cts,
    ev !! k = Some cts ->
    cts <> [] /\ NoDup (q_value <$> cts)
    /\ Forall (fun r => q_error r <> Some "" /\ q_source r <> Some "") cts.

(** The list that a "prefer-better" call leaves when no record has the
    value of the candidate: the records that pass [kept], then the candidate
    if some record [yields]. *)
Definition better_list `{PyNum} (quanta value source error : string)
  (cts : list quantum) : list quantum :=
  filter (fun ct => kept (norm_error error)
                      (get_sig_digits (norm_value quanta value)) ct) cts
  ++ (if existsb (yields (norm_error error)
                    (get_sig_digits (norm_value quanta value))) cts
      then [quantaentry quanta value source error] else []).

(** An item that the copy can attribute: it has a ['source'], and every
    alias of it is one that the sources of [fromentry] define. *)
Definition sourced (nsa : gmap string item) (it : item) : Prop :=
  exists src,
    it !! "source" = Some src
    /\ forall sid, sid ∈ PyStr.split "," src -> is_Some (nsa !! sid).

(** A string without white space, in the sense of [str.split()]. *)
Fixpoint no_space (s : string) : bool :=
  match s with
  | "" => true
  | String c s' => negb (PyStr.is_space c) && no_space s'
  end.

(** A field that [str.split()] may return: not empty, no white space. *)
Definition is_word (w : string) : Prop := w <> "" /\ no_space w = true.

(** An instance of [EntryStore] without files: a name is kept as it is, as
    [clean_entry_name] of [catalog.py] does, no file is loaded, and a new
    entry is not a stub and has no alias. *)
Module PlainStore.


End PlainStore.

(** * Properties *)

(** ** [add_quanta]: the guards *)

Section AddQuantaGuards.
Context `{PyNum}.

Lemma truthy_false (s : string) : PyStr.truthy s = false <-> s = "".
Proof.
  unfold PyStr.truthy. rewrite negb_false_iff. apply String.eqb_eq.
Qed.

Lemma truthy_true (s : string) : PyStr.truthy s = true <-> s <> "".
Proof.
  unfold PyStr.truthy. rewrite negb_true_iff. apply String.eqb_neq.
Qed.

Lemma add_quanta_no_kind ev value source frb error :
  add_quanta ev "" value source frb error
  = (ev, Raised (ValueError "Quanta must be specified for add_quanta.")).
Proof. reflexivity. Qed.

End AddQuantaGuards.

(** C10, as amended.  A call of [add_quanta] that names a quantity and
    whose value, once stripped, is empty, ["--"] or ["-"] returns and leaves
    the quantity lists of the event as they were: nothing is appended, no
    source is added, nothing is raised. *)
Theorem add_quanta_blank_value_returns `{PyNum} :
  forall ev quanta value source forcereplacebetter error,
    quanta <> "" -> blank_value value = true ->
    add_quanta ev quanta value source forcereplacebetter error
    = (ev, Returned tt).
Proof.
  intros ev quanta value source frb error Hq Hb. unfold add_quanta.
  apply truthy_true in Hq. rewrite Hq. cbn [negb].
  unfold blank_value in Hb. cbv zeta in *. rewrite Hb. reflexivity.
Qed.

Lemma add_quanta_blank_value_returns_witness :
  "redshift" <> "" /\ blank_value " -- " = true
  /\ add_quanta (H := DecimalLiterals.pynum)
       {[ "redshift" := [Quantum "0.045" (Some "0.001") (Some "1")] ]}
       "redshift" " -- " "2" false "0.002"
     = ({[ "redshift" := [Quantum "0.045" (Some "0.001") (Some "1")] ]},
        Returned tt).
Proof.
  split; [discriminate|]. split; [reflexivity|].
  apply (add_quanta_blank_value_returns (H := DecimalLiterals.pynum));
    [discriminate | reflexivity].
Defined.

(** C10, as stated, fails when no quantity is named: the call raises
    [ValueError] although the value is ["--"]. *)
Lemma add_quanta_blank_value_may_raise :
  ~ (forall ev quanta value source forcereplacebetter error,
        blank_value value = true ->
        add_quanta (H := DecimalLiterals.pynum)
          ev quanta value source forcereplacebetter error
        = (ev, Returned tt)).
Proof.
  intros Hall.
  specialize (Hall ∅ "" "--" "1" false "" eq_refl).
  rewrite add_quanta_no_kind in Hall. discriminate.
Qed.

(** C4, as amended.  A call of [add_quanta] that names a quantity, with a
    value that is not blank and a stated error that is not a number or is
    below zero, raises [ValueError] to the caller; the quantity lists of the
    event are as they were. *)
Theorem add_quanta_malformed_error_raises `{PyNum} :
  forall ev quanta value source forcereplacebetter error,
    quanta <> "" -> blank_value value = false ->
    malformed_error error = true ->
    add_quanta ev quanta value source forcereplacebetter error
    = (ev, Raised (ValueError
                     "Quanta error value must be a number and positive.")).
Proof.
  intros ev quanta value source frb error Hq Hb He. unfold add_quanta.
  apply truthy_true in Hq. rewrite Hq. cbn [negb].
  unfold blank_value in Hb. unfold malformed_error in He.
  cbv zeta in *. rewrite Hb, He. reflexivity.
Qed.

Lemma add_quanta_malformed_error_raises_witness :
  "redshift" <> "" /\ blank_value "0.5" = false
  /\ malformed_error (H := DecimalLiterals.pynum) "-0.1" = true
  /\ add_quanta (H := DecimalLiterals.pynum) ∅ "redshift" "0.5" "1" false "-0.1"
     = (∅, Raised (ValueError
                     "Quanta error value must be a number and positive.")).
Proof.
  split; [discriminate|]. split; [reflexivity|]. split; [reflexivity|].
  apply (add_quanta_malformed_error_raises (H := DecimalLiterals.pynum));
    [discriminate | reflexivity | reflexivity].
Defined.

(** C4, as stated, fails: an error that does not parse is not dropped in
    silence, the call raises. *)
Lemma add_quanta_malformed_error_not_silent :
  ~ (forall ev quanta value source forcereplacebetter error,
        malformed_error (H := DecimalLiterals.pynum) error = true ->
        add_quanta (H := DecimalLiterals.pynum)
          ev quanta value source forcereplacebetter error
        = (ev, Returned tt)).
Proof.
  intros Hall.
  specialize (Hall ∅ "redshift" "0.5" "1" false "abc" eq_refl).
  vm_compute in Hall. discriminate.
Qed.

(** ** [add_quanta]: the two loops *)

Section AddQuantaLoops.
Context `{PyNum}.

(** The second loop keeps the records that pass [kept], in their order,
    and clears [isworse] as soon as one record [yields]. *)
Lemma better_loop_spec serror newsig cts acc isworse :
  better_loop serror newsig cts acc isworse
  = (acc ++ filter (fun ct => kept serror newsig ct) cts,
     isworse && negb (existsb (yields serror newsig) cts)).
Proof.
  revert acc isworse.
  induction cts as [|ct cts IH]; intros acc isworse; cbn [better_loop existsb].
  - rewrite filter_nil, app_nil_r, andb_true_r. reflexivity.
  - assert (Hkept : forall b, kept serror newsig ct = b ->
              filter (fun c => kept serror newsig c) (ct :: cts)
              = if b then ct :: filter (fun c => kept serror newsig c) cts
                else filter (fun c => kept serror newsig c) cts).
    { intros [] Hb; [apply filter_cons_True | apply filter_cons_False];
        rewrite Hb; cbn; tauto. }
    destruct (q_error ct) as [cterr|] eqn:Herr.
    + destruct (PyStr.truthy serror && float_ltb serror cterr) eqn:Hlt.
      * assert (Hy : yields serror newsig ct = true)
          by (unfold yields; now rewrite Herr, Hlt).
        rewrite IH, Hy, (Hkept false)
          by (unfold kept; now rewrite Herr, Hlt).
        cbn. now rewrite andb_false_r.
      * assert (Hy : yields serror newsig ct = false)
          by (unfold yields; now rewrite Herr, Hlt).
        rewrite IH, Hy, (Hkept true)
          by (unfold kept; now rewrite Herr, Hlt).
        cbn. now rewrite <- app_assoc.
    + destruct (PyStr.truthy serror) eqn:Hse.
      * assert (Hy : yields serror newsig ct = true)
          by (unfold yields; now rewrite Herr, Hse).
        rewrite IH, Hy, (Hkept false)
          by (unfold kept; now rewrite Herr, Hse).
        cbn. now rewrite andb_false_r.
      * assert (Hy : yields serror newsig ct
                     = (get_sig_digits (q_value ct) <=? newsig)%nat)
          by (unfold yields; now rewrite Herr, Hse).
        rewrite IH, Hy,
          (Hkept (newsig <=? get_sig_digits (q_value ct))%nat)
          by (unfold kept; now rewrite Herr, Hse).
        destruct (newsig <=? get_sig_digits (q_value ct))%nat;
          destruct (get_sig_digits (q_value ct) <=? newsig)%nat;
          cbn; rewrite <- ?app_assoc, ?andb_false_r; reflexivity.
Qed.

Lemma find_value_Some svalue cts i0 i ct :
  find_value svalue i0 cts = Some (i, ct) ->
  (i0 <= i)%nat /\ cts !! (i - i0)%nat = Some ct /\ q_value ct = svalue
  /\ forall j r, (j < i - i0)%nat -> cts !! j = Some r -> q_value r <> svalue.
Proof.
  revert i0. induction cts as [|c cts IH]; intros i0; cbn; [discriminate|].
  destruct (String.eqb (q_value c) svalue) eqn:E.
  - intros [= <- <-]. rewrite Nat.sub_diag. apply String.eqb_eq in E.
    repeat split; [lia | assumption | intros j r Hj; lia].
  - intros Hf. apply IH in Hf as (Hle & Hl & Hv & Hbefore).
    apply String.eqb_neq in E.
    replace (i - i0)%nat with (S (i - S i0)) by lia.
    repeat split; [lia | assumption | assumption |].
    intros [|j] r Hj; cbn.
    + now intros [= <-].
    + apply Hbefore. lia.
Qed.

Lemma find_value_None svalue cts i0 :
  find_value svalue i0 cts = None <->
  forall r, r ∈ cts -> q_value r <> svalue.
Proof.
  revert i0. induction cts as [|c cts IH]; intros i0; cbn.
  - split; [intros _ r Hr; inversion Hr | reflexivity].
  - destruct (String.eqb (q_value c) svalue) eqn:E.
    + apply String.eqb_eq in E. split; [discriminate|].
      intros Hall. destruct (Hall c); [left | assumption].
    + apply String.eqb_neq in E. rewrite IH. split.
      * intros Hall r [->|Hr]%elem_of_cons; auto.
      * intros Hall r Hr. apply Hall. now right.
Qed.

(** The calls that get past the guards. *)
Lemma add_quanta_accepted ev quanta value source frb error :
  accepted quanta value error ->
  add_quanta ev quanta value source frb error
  = match (match ev !! quanta with
           | Some cts => find_value (norm_value quanta value) 0 cts
           | None => None
           end) with
    | Some (i, ct) =>
        if PyStr.truthy source then
          match q_source ct with
          | None => (ev, Raised (KeyError "source"))
          | Some ctsrc =>
              if negb (PyStr.mem source (PyStr.split "," ctsrc)) then
                (alter (fun cts =>
                          <[i := {| q_value := q_value ct;
                                    q_error :=
                                      if PyStr.truthy (norm_error error)
                                      then Some (norm_error error)
                                      else q_error ct;
                                    q_source :=
                                      Some (ctsrc +:+ "," +:+ source) |}]>
                            cts) quanta ev,
                 Returned tt)
              else (ev, Returned tt)
          end
        else (ev, Returned tt)
    | None =>
        match ev !! quanta with
        | Some cts =>
            if frb || PyStr.mem quanta repbetterquanta then
              (<[quanta :=
                   filter (fun ct =>
                             kept (norm_error error)
                               (get_sig_digits (norm_value quanta value)) ct)
                     cts
                   ++ (if existsb
                            (yields (norm_error error)
                               (get_sig_digits (norm_value quanta value)))
                            cts
                       then [quantaentry quanta value source error]
                       else [])]> ev,
               Returned tt)
            else (<[quanta := cts ++ [quantaentry quanta value source error]]>
                    ev, Returned tt)
        | None =>
            (<[quanta := [quantaentry quanta value source error]]> ev,
             Returned tt)
        end
    end.
Proof.
  intros (Hq & Hb & He & Hd). unfold add_quanta.
  apply truthy_true in Hq. rewrite Hq. cbn [negb].
  unfold blank_value in Hb. unfold malformed_error in He.
  unfold dropped_velocity in Hd. cbv zeta in *. rewrite Hb, He, Hd.
  destruct (match ev !! quanta with
            | Some cts => find_value (norm_value quanta value) 0 cts
            | None => None
            end) as [[i ct]|]; [reflexivity|].
  destruct (ev !! quanta) as [cts|]; [|reflexivity].
  destruct (frb || PyStr.mem quanta repbetterquanta); [|reflexivity].
  rewrite better_loop_spec. cbn [app andb].
  unfold quantaentry.
  destruct (existsb _ cts); cbn [negb]; [reflexivity|].
  now rewrite app_nil_r.
Qed.

End AddQuantaLoops.

Lemma alter_lookup_insert {A} (f : A -> A) (k : string) (m : gmap string A) x :
  m !! k = Some x -> alter f k m = <[k := f x]> m.
Proof.
  intros Hk. apply map_eq. intros j.
  destruct (decide (k = j)) as [<-|Hne].
  - now rewrite lookup_alter_eq, lookup_insert_eq, Hk.
  - now rewrite lookup_alter_ne, lookup_insert_ne.
Qed.

Lemma mem_true x l : PyStr.mem x l = true <-> x ∈ l.
Proof. unfold PyStr.mem. apply bool_decide_eq_true. Qed.

Lemma mem_false x l : PyStr.mem x l = false <-> x ∉ l.
Proof. unfold PyStr.mem. apply bool_decide_eq_false. Qed.

(** C5, as amended.  For a quantity that is not "prefer-better" (and without
    [forcereplacebetter]), a call that gets past the guards and whose
    normalised value is the value of an existing record changes at most
    that record, the first with this value: nothing is appended; when the
    source is empty or already among the sources of the record nothing
    changes at all; otherwise the source is appended to the sources of the
    record, its value is kept, and its error is kept when the call states
    no error and replaced by the stated error when it states one.  (A
    record without sources cannot take one: the call raises [KeyError].)
    When no record has the value, a record for the candidate is appended. *)
Theorem add_quanta_same_value `{PyNum} :
  forall ev quanta value source error cts,
    accepted quanta value error ->
    PyStr.mem quanta repbetterquanta = false ->
    ev !! quanta = Some cts ->
    (forall i ct,
        find_value (norm_value quanta value) 0 cts = Some (i, ct) ->
        cts !! i = Some ct /\ q_value ct = norm_value quanta value
        /\ (source = "" ->
            add_quanta ev quanta value source false error = (ev, Returned tt))
        /\ (source <> "" -> q_source ct = None ->
            add_quanta ev quanta value source false error
            = (ev, Raised (KeyError "source")))
        /\ (forall ctsrc,
              source <> "" -> q_source ct = Some ctsrc ->
              source ∈ PyStr.split "," ctsrc ->
              add_quanta ev quanta value source false error
              = (ev, Returned tt))
        /\ (forall ctsrc,
              source <> "" -> q_source ct = Some ctsrc ->
              source ∉ PyStr.split "," ctsrc ->
              add_quanta ev quanta value source false error
              = (<[quanta := <[i := with_source ct ctsrc source error]> cts]>
                   ev, Returned tt)
              /\ length (<[i := with_source ct ctsrc source error]> cts)
                 = length cts
              /\ q_value (with_source ct ctsrc source error) = q_value ct
              /\ (PyStr.strip error = "" ->
                  q_error (with_source ct ctsrc source error) = q_error ct)))
    /\ (find_value (norm_value quanta value) 0 cts = None ->
        add_quanta ev quanta value source false error
        = (<[quanta := cts ++ [quantaentry quanta value source error]]> ev,
           Returned tt)).
Proof.
  intros ev quanta value source error cts Hacc Hkind Hev. split.
  - intros i ct Hfind.
    pose proof (add_quanta_accepted ev quanta value source false error Hacc)
      as Heq.
    rewrite Hev, Hfind in Heq.
    apply find_value_Some in Hfind as (_ & Hi & Hv & _).
    rewrite Nat.sub_0_r in Hi.
    split; [assumption|]. split; [assumption|].
    split; [|split; [|split]].
    + intros ->. now rewrite Heq.
    + intros Hs%truthy_true Hnone. now rewrite Heq, Hs, Hnone.
    + intros ctsrc Hs%truthy_true Hsome Hin%mem_true.
      now rewrite Heq, Hs, Hsome, Hin.
    + intros ctsrc Hs%truthy_true Hsome Hin%mem_false.
      split; [|split; [|split]].
      * rewrite Heq, Hs, Hsome, Hin. cbn [negb].
        now rewrite (alter_lookup_insert _ _ _ _ Hev).
      * apply length_insert.
      * reflexivity.
      * intros Hse. unfold with_source, norm_error. cbn.
        now rewrite Hse.
  - intros Hfind.
    rewrite (add_quanta_accepted ev quanta value source false error Hacc).
    now rewrite Hev, Hfind, Hkind.
Qed.

Lemma add_quanta_same_value_witness :
  accepted (H := DecimalLiterals.pynum) "host" "M31" ""
  /\ PyStr.mem "host" repbetterquanta = false
  /\ ({[ "host" := [Quantum "M31" None (Some "1")] ]} : gmap string _)
     !! "host" = Some [Quantum "M31" None (Some "1")]
  /\ add_quanta (H := DecimalLiterals.pynum)
       {[ "host" := [Quantum "M31" None (Some "1")] ]}
       "host" "M31" "2" false ""
     = (<[ "host" := [Quantum "M31" None (Some "1,2")] ]>
          {[ "host" := [Quantum "M31" None (Some "1")] ]},
        Returned tt).
Proof.
  assert (Hacc : accepted (H := DecimalLiterals.pynum) "host" "M31" "")
    by (repeat split; [discriminate | reflexivity..]).
  assert (Hkind : PyStr.mem "host" repbetterquanta = false) by reflexivity.
  assert (Hev : ({[ "host" := [Quantum "M31" None (Some "1")] ]}
                 : gmap string _) !! "host"
                = Some [Quantum "M31" None (Some "1")]) by reflexivity.
  split; [exact Hacc|]. split; [exact Hkind|]. split; [exact Hev|].
  destruct (add_quanta_same_value (H := DecimalLiterals.pynum)
              _ "host" "M31" "2" "" _ Hacc Hkind Hev) as [Hfound _].
  destruct (Hfound 0%nat (Quantum "M31" None (Some "1")) eq_refl)
    as (_ & _ & _ & _ & _ & Hadd).
  destruct (Hadd "1") as [Heq _]; [discriminate | reflexivity | |exact Heq].
  apply mem_false. reflexivity.
Defined.

(** C5, as stated, fails: when the value of the call is the value of an
    existing record and a new source is added to that record, a stated
    error replaces the error of the record. *)
Lemma add_quanta_same_value_replaces_error :
  ~ (forall ev quanta value source error cts i ct cts',
        accepted (H := DecimalLiterals.pynum) quanta value error ->
        PyStr.mem quanta repbetterquanta = false ->
        ev !! quanta = Some cts ->
        find_value (norm_value (H := DecimalLiterals.pynum) quanta value) 0 cts
        = Some (i, ct) ->
        fst (add_quanta (H := DecimalLiterals.pynum)
               ev quanta value source false error) !! quanta = Some cts' ->
        q_value <$> cts' = q_value <$> cts
        /\ q_error <$> cts' = q_error <$> cts).
Proof.
  intros Hall.
  specialize (Hall {[ "host" := [Quantum "M31" None (Some "1")] ]}
                "host" "M31" "2" "0.2"
                [Quantum "M31" None (Some "1")]
                0%nat (Quantum "M31" None (Some "1"))
                [Quantum "M31" (Some "0.2") (Some "1,2")]).
  assert (Hacc : accepted (H := DecimalLiterals.pynum) "host" "M31" "0.2")
    by (repeat split; [discriminate | reflexivity..]).
  destruct (Hall Hacc eq_refl eq_refl eq_refl eq_refl) as [_ Herr].
  discriminate.
Qed.

(** ** [add_quanta]: the "prefer-better" quantities *)

Section PreferBetter.
Context `{PyNum}.

Lemma kept_errored serror newsig r :
  serror <> "" -> kept serror newsig r = true -> q_error r <> None.
Proof.
  intros Hs%truthy_true. unfold kept.
  destruct (q_error r); [discriminate|]. now rewrite Hs.
Qed.

Lemma kept_errorless_candidate newsig r :
  q_error r <> None -> kept "" newsig r = true.
Proof. unfold kept. destruct (q_error r); [reflexivity | congruence]. Qed.

Lemma yields_errorless_record serror newsig r :
  serror <> "" -> q_error r = None -> yields serror newsig r = true.
Proof. intros Hs%truthy_true Hr. unfold yields. now rewrite Hr, Hs. Qed.

Lemma yields_errorless_candidate newsig r :
  q_error r <> None -> yields "" newsig r = false.
Proof. unfold yields. destruct (q_error r); [reflexivity | congruence]. Qed.

Lemma norm_error_blank error : PyStr.strip error = "" -> norm_error error = "".
Proof. intros Hs. unfold norm_error. now rewrite Hs. Qed.

(** The first loop, for every kind: a call whose value is the value of a
    record changes at most that record, the first with the value. *)
Lemma add_quanta_found_cases ev quanta value source frb error cts i ct :
  accepted quanta value error ->
  ev !! quanta = Some cts ->
  find_value (norm_value quanta value) 0 cts = Some (i, ct) ->
  cts !! i = Some ct /\ q_value ct = norm_value quanta value
  /\ (source = "" ->
      add_quanta ev quanta value source frb error = (ev, Returned tt))
  /\ (source <> "" -> q_source ct = None ->
      add_quanta ev quanta value source frb error
      = (ev, Raised (KeyError "source")))
  /\ (forall ctsrc,
        source <> "" -> q_source ct = Some ctsrc ->
        source ∈ PyStr.split "," ctsrc ->
        add_quanta ev quanta value source frb error = (ev, Returned tt))
  /\ (forall ctsrc,
        source <> "" -> q_source ct = Some ctsrc ->
        source ∉ PyStr.split "," ctsrc ->
        add_quanta ev quanta value source frb error
        = (<[quanta := <[i := with_source ct ctsrc source error]> cts]> ev,
           Returned tt)
        /\ length (<[i := with_source ct ctsrc source error]> cts)
           = length cts
        /\ (forall j, j <> i ->
                      <[i := with_source ct ctsrc source error]> cts !! j
                      = cts !! j)
        /\ q_value (with_source ct ctsrc source error) = q_value ct
        /\ (PyStr.strip error = "" ->
            q_error (with_source ct ctsrc source error) = q_error ct)).
Proof.
  intros Hacc Hev Hfind.
  pose proof (add_quanta_accepted ev quanta value source frb error Hacc)
    as Heq.
  rewrite Hev, Hfind in Heq.
  apply find_value_Some in Hfind as (_ & Hi & Hv & _).
  rewrite Nat.sub_0_r in Hi.
  split; [assumption|]. split; [assumption|].
  split; [|split; [|split]].
  - intros ->. now rewrite Heq.
  - intros Hs%truthy_true Hnone. now rewrite Heq, Hs, Hnone.
  - intros ctsrc Hs%truthy_true Hsome Hin%mem_true.
    now rewrite Heq, Hs, Hsome, Hin.
  - intros ctsrc Hs%truthy_true Hsome Hin%mem_false.
    split; [|split; [|split; [|split]]].
    + rewrite Heq, Hs, Hsome, Hin. cbn [negb].
      now rewrite (alter_lookup_insert _ _ _ _ Hev).
    + apply length_insert.
    + intros j Hj. apply list_lookup_insert_ne. congruence.
    + reflexivity.
    + intros Hse. unfold with_source, norm_error. cbn.
      now rewrite Hse.
Qed.

End PreferBetter.

(** C3, as amended.  For a "prefer-better" quantity (or with
    [forcereplacebetter]) and a candidate that gets past the guards and whose
    normalised value is not the value of an existing record: a candidate
    with a stated error leaves no record without error in the list, and is
    itself appended as soon as the list had such a record; a candidate
    without error removes no record that has an error, and is not inserted
    when every existing record has one.  A candidate whose normalised value
    is the value of an existing record changes at most that record, the
    first with the value, and no other: nothing changes when it has no
    source or a source that the record has already; the call raises
    [KeyError] and changes nothing when it has a source and the record has
    no sources; otherwise the source is appended to the sources of the
    record, whose error becomes that of the candidate when one is stated.
    In particular redshift ["0.045"] with error ["0.001"] from source S1
    followed by redshift ["0.04"] without error from source S2 leaves the
    single record of value 0.045, error 0.001 and source S1. *)
Theorem add_quanta_prefer_better :
  (forall (H : PyNum) ev quanta value source forcereplacebetter error cts,
      accepted quanta value error ->
      forcereplacebetter || PyStr.mem quanta repbetterquanta = true ->
      ev !! quanta = Some cts ->
      find_value (norm_value quanta value) 0 cts = None ->
      exists cts',
        add_quanta ev quanta value source forcereplacebetter error
        = (<[quanta := cts']> ev, Returned tt)
        /\ (norm_error error <> "" ->
            (forall r, r ∈ cts' -> q_error r <> None)
            /\ ((exists r, r ∈ cts /\ q_error r = None) ->
                quantaentry quanta value source error ∈ cts'))
        /\ (PyStr.strip error = "" ->
            (forall r, r ∈ cts -> q_error r <> None -> r ∈ cts')
            /\ ((forall r, r ∈ cts -> q_error r <> None) -> cts' = cts)))
  /\ (forall (H : PyNum) ev quanta value source forcereplacebetter error cts
             i ct,
        accepted quanta value error ->
        forcereplacebetter || PyStr.mem quanta repbetterquanta = true ->
        ev !! quanta = Some cts ->
        find_value (norm_value quanta value) 0 cts = Some (i, ct) ->
        cts !! i = Some ct /\ q_value ct = norm_value quanta value
        /\ (source = "" ->
            add_quanta ev quanta value source forcereplacebetter error
            = (ev, Returned tt))
        /\ (source <> "" -> q_source ct = None ->
            add_quanta ev quanta value source forcereplacebetter error
            = (ev, Raised (KeyError "source")))
        /\ (forall ctsrc,
              source <> "" -> q_source ct = Some ctsrc ->
              source ∈ PyStr.split "," ctsrc ->
              add_quanta ev quanta value source forcereplacebetter error
              = (ev, Returned tt))
        /\ (forall ctsrc,
              source <> "" -> q_source ct = Some ctsrc ->
              source ∉ PyStr.split "," ctsrc ->
              add_quanta ev quanta value source forcereplacebetter error
              = (<[quanta := <[i := with_source ct ctsrc source error]> cts]>
                   ev, Returned tt)
              /\ length (<[i := with_source ct ctsrc source error]> cts)
                 = length cts
              /\ (forall j, j <> i ->
                            <[i := with_source ct ctsrc source error]> cts !! j
                            = cts !! j)
              /\ q_value (with_source ct ctsrc source error) = q_value ct
              /\ (PyStr.strip error = "" ->
                  q_error (with_source ct ctsrc source error) = q_error ct)))
  /\ (let ev1 :=
        fst (add_quanta (H := DecimalLiterals.pynum)
               ∅ "redshift" "0.045" "S1" false "0.001") in
      add_quanta (H := DecimalLiterals.pynum) ev1 "redshift" "0.04" "S2" false ""
      = ({[ "redshift" := [Quantum "0.045" (Some "0.001") (Some "S1")] ]},
         Returned tt)).
Proof.
  split; [|split; [|vm_compute; reflexivity]].
  2: { intros H ev quanta value source frb error cts i ct Hacc _ Hev Hfind.
       now apply add_quanta_found_cases. }
  intros H ev quanta value source frb error cts Hacc Hkind Hev Hfind.
  eexists. split.
  { rewrite (add_quanta_accepted ev quanta value source frb error Hacc).
    rewrite Hev, Hfind, Hkind. reflexivity. }
  set (serror := norm_error error).
  set (newsig := get_sig_digits (norm_value quanta value)).
  split.
  - intros Hse. split.
    + intros r [Hr|Hr]%elem_of_app.
      * apply list_elem_of_filter in Hr as [Hk _].
        apply Is_true_true in Hk. now apply (kept_errored serror newsig).
      * destruct (existsb _ cts); [|now apply elem_of_nil in Hr].
        apply list_elem_of_singleton in Hr as ->.
        unfold quantaentry. cbn. fold serror.
        apply truthy_true in Hse. now rewrite Hse.
    + intros (r & Hr & Hnone). apply elem_of_app. right.
      assert (Hex : existsb (yields serror newsig) cts = true).
      { apply existsb_exists. exists r. split.
        - now apply list_elem_of_In.
        - now apply yields_errorless_record. }
      rewrite Hex. now apply list_elem_of_singleton.
  - intros Hblank. apply norm_error_blank in Hblank.
    subst serror. rewrite Hblank. split.
    + intros r Hr Herr. apply elem_of_app. left.
      apply list_elem_of_filter. split; [|assumption].
      apply Is_true_true. now apply kept_errorless_candidate.
    + intros Hall.
      assert (Hex : existsb (yields "" newsig) cts = false).
      { apply not_true_is_false. intros (r & Hr & Hy)%existsb_exists.
        apply list_elem_of_In in Hr.
        rewrite yields_errorless_candidate in Hy by now apply Hall.
        discriminate. }
      rewrite Hex, app_nil_r.
      clear -Hall. induction cts as [|c cts IH]; [reflexivity|].
      rewrite filter_cons_True.
      * f_equal. apply IH. intros r Hr. apply Hall. now right.
      * apply Is_true_true, kept_errorless_candidate, Hall. now left.
Qed.

Lemma add_quanta_prefer_better_witness :
  accepted (H := DecimalLiterals.pynum) "redshift" "0.045" "0.001"
  /\ false || PyStr.mem "redshift" repbetterquanta = true
  /\ ({[ "redshift" := [Quantum "0.04" None (Some "S2")] ]} : gmap string _)
     !! "redshift" = Some [Quantum "0.04" None (Some "S2")]
  /\ find_value (norm_value (H := DecimalLiterals.pynum) "redshift" "0.045") 0
       [Quantum "0.04" None (Some "S2")] = None
  /\ exists cts',
      add_quanta (H := DecimalLiterals.pynum)
        {[ "redshift" := [Quantum "0.04" None (Some "S2")] ]}
        "redshift" "0.045" "S1" false "0.001"
      = (<[ "redshift" := cts' ]>
           {[ "redshift" := [Quantum "0.04" None (Some "S2")] ]},
         Returned tt)
      /\ forall r, r ∈ cts' -> q_error r <> None.
Proof.
  assert (Hacc : accepted (H := DecimalLiterals.pynum)
                   "redshift" "0.045" "0.001")
    by (repeat split; [discriminate | reflexivity..]).
  assert (Hkind : false || PyStr.mem "redshift" repbetterquanta = true)
    by reflexivity.
  assert (Hev : ({[ "redshift" := [Quantum "0.04" None (Some "S2")] ]}
                 : gmap string _) !! "redshift"
                = Some [Quantum "0.04" None (Some "S2")]) by reflexivity.
  assert (Hfind : find_value
                    (norm_value (H := DecimalLiterals.pynum)
                       "redshift" "0.045") 0
                    [Quantum "0.04" None (Some "S2")] = None)
    by reflexivity.
  split; [exact Hacc|]. split; [exact Hkind|]. split; [exact Hev|].
  split; [exact Hfind|].
  destruct (proj1 add_quanta_prefer_better DecimalLiterals.pynum
              _ "redshift" "0.045" "S1" false "0.001" _
              Hacc Hkind Hev Hfind) as (cts' & Heq & Herrd & _).
  exists cts'. split; [exact Heq|].
  apply Herrd. discriminate.
Defined.

(** C3, as stated, fails: a candidate with a stated error whose value is
    the value of an existing record is merged into that record, and the
    other records without error stay. *)
Lemma add_quanta_errorless_record_survives :
  ~ (forall ev value source error cts cts' r,
        accepted (H := DecimalLiterals.pynum) "redshift" value error ->
        norm_error (H := DecimalLiterals.pynum) error <> "" ->
        ev !! "redshift" = Some cts ->
        fst (add_quanta (H := DecimalLiterals.pynum)
               ev "redshift" value source false error) !! "redshift"
        = Some cts' ->
        r ∈ cts -> q_error r = None -> r ∉ cts').
Proof.
  intros Hall.
  pose (ev1 := fst (add_quanta (H := DecimalLiterals.pynum)
                      ∅ "redshift" "1" "1" false "")).
  pose (ev2 := fst (add_quanta (H := DecimalLiterals.pynum)
                      ev1 "redshift" "2" "1" false "")).
  specialize (Hall ev2 "1" "2" "0.1"
                [Quantum "1" None (Some "1"); Quantum "2" None (Some "1")]
                [Quantum "1" (Some "0.1") (Some "1,2");
                 Quantum "2" None (Some "1")]
                (Quantum "2" None (Some "1"))).
  assert (Hacc : accepted (H := DecimalLiterals.pynum) "redshift" "1" "0.1")
    by (repeat split; [discriminate | reflexivity..]).
  apply Hall; try reflexivity; try assumption.
  - discriminate.
  - set_solver.
  - set_solver.
Qed.

(** ** The directory: lookups and updates *)

Module DirFacts.

Lemma get_None name events :
  Dir.get name events = None <-> name ∉ Dir.keys events.
Proof.
  induction events as [|[k e] rest IH]; cbn.
  - split; [intros _; apply not_elem_of_nil | reflexivity].
  - destruct (String.eqb_spec k name) as [->|Hne].
    + split; [discriminate|]. intros Hn. destruct Hn. now left.
    + rewrite IH, not_elem_of_cons. split; [auto | tauto].
Qed.

Lemma has_true name events :
  Dir.has name events = true <-> name ∈ Dir.keys events.
Proof.
  unfold Dir.has. destruct (Dir.get name events) eqn:Hg.
  - split; [intros _ | reflexivity].
    destruct (decide (name ∈ Dir.keys events)) as [|Hn]; [assumption|].
    apply get_None in Hn. congruence.
  - split; [discriminate|]. intros Hin. apply get_None in Hg. contradiction.
Qed.

Lemma key_of_elem k e (events : directory) :
  (k, e) ∈ events -> k ∈ Dir.keys events.
Proof.
  intros Hin. unfold Dir.keys. apply list_elem_of_fmap. now exists (k, e).
Qed.

Lemma get_Some name e events :
  NoDup (Dir.keys events) ->
  Dir.get name events = Some e <-> (name, e) ∈ events.
Proof.
  induction events as [|[k e'] rest IH]; cbn; intros Hnd.
  - split; [discriminate | intros Hin; now apply elem_of_nil in Hin].
  - apply NoDup_cons in Hnd as [Hk Hnd].
    destruct (String.eqb_spec k name) as [->|Hne].
    + split.
      * intros [= ->]. now left.
      * intros [[= ->]|Hin]%elem_of_cons; [reflexivity|].
        apply key_of_elem in Hin. contradiction.
    + rewrite (IH Hnd). split.
      * intros Hin. now right.
      * intros [[= -> ->]|Hin]%elem_of_cons; [contradiction | assumption].
Qed.

Lemma set_absent name e events :
  name ∉ Dir.keys events -> Dir.set name e events = events ++ [(name, e)].
Proof.
  induction events as [|[k e'] rest IH]; cbn; intros Hn; [reflexivity|].
  apply not_elem_of_cons in Hn as [Hne Hn].
  destruct (String.eqb_spec k name) as [->|_]; [contradiction|].
  now rewrite IH.
Qed.

Lemma keys_set_present name e events :
  name ∈ Dir.keys events -> Dir.keys (Dir.set name e events) = Dir.keys events.
Proof.
  induction events as [|[k e'] rest IH]; cbn; intros Hin.
  - now apply elem_of_nil in Hin.
  - destruct (String.eqb_spec k name) as [->|Hne]; [reflexivity|].
    cbn. f_equal. apply IH.
    apply elem_of_cons in Hin as [->|Hin]; [contradiction | assumption].
Qed.

Lemma elem_set_present name e k e' events :
  NoDup (Dir.keys events) -> name ∈ Dir.keys events ->
  (k, e') ∈ Dir.set name e events
  <-> (k = name /\ e' = e) \/ (k <> name /\ (k, e') ∈ events).
Proof.
  induction events as [|[k0 e0] rest IH]; cbn; intros Hnd Hin.
  - now apply elem_of_nil in Hin.
  - apply NoDup_cons in Hnd as [Hk0 Hnd].
    destruct (String.eqb_spec k0 name) as [->|Hne].
    + rewrite !elem_of_cons. split.
      * intros [[= -> ->]|Hr]; [now left|].
        right. split; [|now right].
        intros ->. apply key_of_elem in Hr. contradiction.
      * intros [[-> ->]|[Hk [[= -> ->]|Hr]]]; [now left | contradiction |].
        now right.
    + apply elem_of_cons in Hin as [->|Hin]; [contradiction|].
      rewrite !elem_of_cons, (IH Hnd Hin). split.
      * intros [[= -> ->]|[[-> ->]|[Hk Hr]]].
        -- right. split; [congruence | now left].
        -- now left.
        -- right. split; [assumption | now right].
      * intros [[-> ->]|[Hk [[= -> ->]|Hr]]].
        -- right. now left.
        -- now left.
        -- right. right. now split.
Qed.

Lemma elem_remove name k e events :
  NoDup (Dir.keys events) ->
  (k, e) ∈ Dir.remove name events <-> k <> name /\ (k, e) ∈ events.
Proof.
  induction events as [|[k0 e0] rest IH]; cbn; intros Hnd.
  - split; [intros Hin; now apply elem_of_nil in Hin|].
    intros [_ Hin]. now apply elem_of_nil in Hin.
  - apply NoDup_cons in Hnd as [Hk0 Hnd].
    destruct (String.eqb_spec k0 name) as [->|Hne].
    + rewrite elem_of_cons. split.
      * intros Hr. split; [|now right].
        intros ->. apply key_of_elem in Hr. contradiction.
      * intros [Hk [[= -> ->]|Hr]]; [contradiction | assumption].
    + rewrite !elem_of_cons, (IH Hnd). split.
      * intros [[= -> ->]|[Hk Hr]]; [split; [congruence | now left]|].
        split; [assumption | now right].
      * intros [Hk [[= -> ->]|Hr]]; [now left | right; now split].
Qed.

Lemma keys_remove_sub name k events :
  k ∈ Dir.keys (Dir.remove name events) -> k ∈ Dir.keys events.
Proof.
  induction events as [|[k0 e0] rest IH]; cbn; [auto|].
  destruct (String.eqb_spec k0 name) as [->|Hne]; cbn.
  - intros Hin. now right.
  - intros [->|Hin]%elem_of_cons; [now left | right; auto].
Qed.

Lemma keys_remove_NoDup name events :
  NoDup (Dir.keys events) -> NoDup (Dir.keys (Dir.remove name events)).
Proof.
  induction events as [|[k0 e0] rest IH]; cbn; intros Hnd; [assumption|].
  apply NoDup_cons in Hnd as [Hk0 Hnd].
  destruct (String.eqb_spec k0 name) as [->|Hne]; [assumption|].
  cbn. apply NoDup_cons. split; [|auto].
  intros Hin. apply keys_remove_sub in Hin. contradiction.
Qed.

End DirFacts.

(** ** The directory: [add_event], [add_alias] and the merge *)

Section Directory.

Lemma get_app_last name e events :
  name ∉ Dir.keys events -> Dir.get name (events ++ [(name, e)]) = Some e.
Proof.
  induction events as [|[k e'] rest IH]; cbn; intros Hn.
  - now rewrite String.eqb_refl.
  - apply not_elem_of_cons in Hn as [Hne Hn].
    destruct (String.eqb_spec k name) as [->|_]; [contradiction | auto].
Qed.

Lemma set_app_last name e e' events :
  name ∉ Dir.keys events ->
  Dir.set name e' (events ++ [(name, e)]) = events ++ [(name, e')].
Proof.
  induction events as [|[k e0] rest IH]; cbn; intros Hn.
  - now rewrite String.eqb_refl.
  - apply not_elem_of_cons in Hn as [Hne Hn].
    destruct (String.eqb_spec k name) as [->|_]; [contradiction|].
    now rewrite IH.
Qed.

Lemma add_event_known events name :
  name ∈ Dir.keys events -> add_event events name = (events, Returned name).
Proof.
  intros Hin%DirFacts.has_true. unfold add_event. now rewrite Hin.
Qed.

Lemma add_event_new events name :
  name ∉ Dir.keys events -> scan_aliases name events = Returned None ->
  add_event events name = (events ++ [(name, created name)], Returned name).
Proof.
  intros Hn Hscan. unfold add_event.
  destruct (Dir.has name events) eqn:Hhas.
  { apply DirFacts.has_true in Hhas. contradiction. }
  rewrite Hscan. f_equal.
  rewrite (DirFacts.set_absent _ _ _ Hn). unfold add_alias.
  rewrite (get_app_last _ _ _ Hn). cbn.
  now rewrite (set_app_last _ _ _ _ Hn).
Qed.

Lemma add_event_alias events name k :
  name ∉ Dir.keys events -> scan_aliases name events = Returned (Some k) ->
  add_event events name = (events, Returned k).
Proof.
  intros Hn Hscan. unfold add_event.
  destruct (Dir.has name events) eqn:Hhas.
  { apply DirFacts.has_true in Hhas. contradiction. }
  now rewrite Hscan.
Qed.

(** The scan over events that all have an alias list. *)
Lemma scan_aliases_spec name events :
  (forall k e, (k, e) ∈ events -> exists l, ev_aliases e = Some l) ->
  (exists k e l,
      scan_aliases name events = Returned (Some k)
      /\ (k, e) ∈ events /\ ev_aliases e = Some l
      /\ (1 < length l)%nat /\ name ∈ l)
  \/ (scan_aliases name events = Returned None
      /\ forall k e l, (k, e) ∈ events -> ev_aliases e = Some l ->
                       (1 < length l)%nat -> name ∉ l).
Proof.
  induction events as [|[k e] rest IH]; intros Hall; cbn [scan_aliases].
  - right. split; [reflexivity|]. intros k e l Hin.
    now apply elem_of_nil in Hin.
  - destruct (Hall k e) as [l Hl]; [now left|]. rewrite Hl.
    destruct ((1 <? length l)%nat && PyStr.mem name l) eqn:Hc.
    + left. exists k, e, l. apply andb_true_iff in Hc as [Hlen Hm].
      apply Nat.ltb_lt in Hlen. apply mem_true in Hm.
      repeat split; try assumption. now left.
    + destruct IH as [(k' & e' & l' & Hs & Hin & Hl' & Hlen & Hm)|[Hs Hno]].
      * intros k' e' Hin. apply (Hall k' e'). now right.
      * left. exists k', e', l'. repeat split; try assumption. now right.
      * right. split; [assumption|].
        intros k' e' l' [[= -> ->]|Hin]%elem_of_cons Hl' Hlen.
        -- rewrite Hl in Hl'. injection Hl' as <-.
           apply andb_false_iff in Hc as [Hc|Hc].
           ++ apply Nat.ltb_ge in Hc. lia.
           ++ now apply mem_false.
        -- now apply (Hno k' e' l').
Qed.

Lemma two_elements (a b : string) (l : list string) :
  a ∈ l -> b ∈ l -> a <> b -> (1 < length l)%nat.
Proof.
  destruct l as [|x [|y l]]; cbn; intros Ha Hb Hne; [| |lia].
  - now apply elem_of_nil in Ha.
  - apply list_elem_of_singleton in Ha, Hb. congruence.
Qed.

Lemma aliases_of_Some e l : ev_aliases e = Some l -> aliases_of e = l.
Proof. unfold aliases_of. now intros ->. Qed.

(** An alias list that [add_event] skips holds nothing but the name of
    its own entity. *)
Lemma scan_none_not_listed events name :
  well_formed events -> name ∉ Dir.keys events ->
  scan_aliases name events = Returned None ->
  forall k e, (k, e) ∈ events -> name ∉ aliases_of e.
Proof.
  intros [Hnd Hwf] Hn Hscan k e Hin Hlisted.
  destruct (Hwf k e Hin) as (l & Hl & Hk).
  rewrite (aliases_of_Some _ _ Hl) in Hlisted.
  destruct (scan_aliases_spec name events) as
    [(k' & e' & l' & Hs & _)|[_ Hno]].
  - intros k' e' Hin'. destruct (Hwf k' e' Hin') as (l' & Hl' & _). eauto.
  - congruence.
  - apply (Hno k e l Hin Hl); [|assumption].
    apply (two_elements k name); [assumption..|].
    intros ->. apply DirFacts.key_of_elem in Hin. contradiction.
Qed.

Lemma well_formed_add_event events name :
  well_formed events -> well_formed (fst (add_event events name)).
Proof.
  intros Hwf. destruct (decide (name ∈ Dir.keys events)) as [Hin|Hn].
  { now rewrite add_event_known. }
  destruct (scan_aliases name events) as [[k|]|x] eqn:Hscan.
  - now rewrite (add_event_alias _ _ k).
  - rewrite add_event_new by assumption. cbn.
    destruct Hwf as [Hnd Hwf]. split.
    + unfold Dir.keys. rewrite map_app. cbn.
      apply NoDup_app. split; [assumption|]. split.
      * intros x Hx [->|Hx']%elem_of_cons; [contradiction|].
        now apply elem_of_nil in Hx'.
      * apply NoDup_singleton.
    + intros k e [Hin|Hin]%elem_of_app; [auto|].
      apply list_elem_of_singleton in Hin. injection Hin as -> ->.
      exists [name]. split; [reflexivity | now left].
  - unfold add_event.
    destruct (Dir.has name events); [assumption|]. now rewrite Hscan.
Qed.

Lemma well_formed_add_alias events name alias :
  well_formed events -> well_formed (fst (add_alias events name alias)).
Proof.
  intros [Hnd Hwf]. unfold add_alias.
  destruct (Dir.get name events) as [e|] eqn:Hget; [|now split].
  assert (Hin : (name, e) ∈ events) by now apply DirFacts.get_Some.
  assert (Hkey : name ∈ Dir.keys events)
    by now apply (DirFacts.key_of_elem name e).
  destruct (Hwf name e Hin) as (l & Hl & Hnl). rewrite Hl.
  destruct (PyStr.mem alias l); [now split|]. cbn. split.
  - now rewrite DirFacts.keys_set_present.
  - intros k e' Hin'.
    apply DirFacts.elem_set_present in Hin' as [[-> ->]|[Hk Hin']];
      try assumption; [|auto].
    exists (l ++ [alias]). split; [reflexivity|].
    apply elem_of_app. now left.
Qed.

Lemma well_formed_merge events winner loser :
  well_formed events -> well_formed (merge events winner loser).
Proof.
  intros [Hnd Hwf]. unfold merge.
  destruct (Dir.get winner events) as [w|] eqn:Hw; [|now split].
  destruct (Dir.get loser events) as [l|] eqn:Hl; [|now split].
  destruct (String.eqb_spec winner loser) as [->|Hne]; [now split|].
  assert (Hinw : (winner, w) ∈ events) by now apply DirFacts.get_Some.
  assert (Hkw : winner ∈ Dir.keys events)
    by now apply (DirFacts.key_of_elem winner w).
  assert (Hnd' : NoDup (Dir.keys (Dir.set winner
            (set_aliases (default [] (ev_aliases w)
               ++ filter (fun a => a ∉ default [] (ev_aliases w))
                    (default [] (ev_aliases l))) w) events)))
    by now rewrite DirFacts.keys_set_present.
  split.
  - now apply DirFacts.keys_remove_NoDup.
  - intros k e Hin.
    apply DirFacts.elem_remove in Hin as [Hk Hin]; [|assumption].
    apply DirFacts.elem_set_present in Hin as [[-> ->]|[Hk' Hin]];
      try assumption; [|auto].
    eexists. split; [reflexivity|].
    destruct (Hwf winner w Hinw) as (wl & Hwl & Hinwl).
    rewrite Hwl. cbn. apply elem_of_app. now left.
Qed.

Lemma reachable_well_formed allowed events :
  reachable allowed events -> well_formed events.
Proof.
  induction 1 as [|events o _ IH _].
  - split; [apply NoDup_nil_2|].
    intros k e Hin. now apply elem_of_nil in Hin.
  - destruct o as [name|name alias|winner loser]; cbn.
    + now apply well_formed_add_event.
    + now apply well_formed_add_alias.
    + now apply well_formed_merge.
Qed.

End Directory.


(** ** Alias uniqueness *)

Section AliasUniqueness.

Lemma disjoint_add_event events name :
  well_formed events -> aliases_disjoint events ->
  aliases_disjoint (fst (add_event events name)).
Proof.
  intros Hwf Hdis. destruct (decide (name ∈ Dir.keys events)) as [Hin|Hn].
  { now rewrite add_event_known. }
  destruct (scan_aliases name events) as [[k|]|x] eqn:Hscan.
  - now rewrite (add_event_alias _ _ k).
  - rewrite add_event_new by assumption. cbn.
    pose proof (scan_none_not_listed events name Hwf Hn Hscan) as Hfresh.
    intros k1 e1 k2 e2 a [H1|H1]%elem_of_app [H2|H2]%elem_of_app Hne Ha.
    + now apply (Hdis k1 e1 k2 e2).
    + apply list_elem_of_singleton in H2. injection H2 as -> ->.
      cbn. intros Ha2%list_elem_of_singleton. subst a.
      now apply (Hfresh k1 e1).
    + apply list_elem_of_singleton in H1. injection H1 as -> ->.
      cbn in Ha. apply list_elem_of_singleton in Ha. subst a.
      now apply (Hfresh k2 e2).
    + apply list_elem_of_singleton in H1, H2. congruence.
  - unfold add_event.
    destruct (Dir.has name events); [assumption|]. now rewrite Hscan.
Qed.

Lemma disjoint_add_alias events name alias :
  well_formed events -> aliases_disjoint events ->
  fresh_alias_op events (OpAddAlias name alias) ->
  aliases_disjoint (fst (add_alias events name alias)).
Proof.
  intros [Hnd Hwf] Hdis Hfresh. cbn in Hfresh. unfold add_alias.
  destruct (Dir.get name events) as [e|] eqn:Hget; [|assumption].
  assert (Hin : (name, e) ∈ events) by now apply DirFacts.get_Some.
  assert (Hkey : name ∈ Dir.keys events)
    by now apply (DirFacts.key_of_elem name e).
  destruct (Hwf name e Hin) as (l & Hl & Hnl). rewrite Hl.
  destruct (PyStr.mem alias l); [assumption|]. cbn.
  intros k1 e1 k2 e2 a H1 H2 Hne Ha.
  apply DirFacts.elem_set_present in H1 as [[-> ->]|[Hk1 H1]];
    try assumption;
    apply DirFacts.elem_set_present in H2 as [[-> ->]|[Hk2 H2]];
    try assumption.
  - congruence.
  - cbn in Ha. apply elem_of_app in Ha as [Ha|Ha].
    + apply (Hdis name e k2 e2 a); try assumption.
      now rewrite (aliases_of_Some _ _ Hl).
    + apply list_elem_of_singleton in Ha. subst a. now apply (Hfresh k2 e2).
  - cbn. intros [Ha2|Ha2]%elem_of_app.
    + apply (Hdis k1 e1 name e a); try assumption.
      now rewrite (aliases_of_Some _ _ Hl).
    + apply list_elem_of_singleton in Ha2. subst a.
      now apply (Hfresh k1 e1).
  - now apply (Hdis k1 e1 k2 e2).
Qed.

Lemma disjoint_merge events winner loser :
  well_formed events -> aliases_disjoint events ->
  aliases_disjoint (merge events winner loser).
Proof.
  intros [Hnd Hwf] Hdis. unfold merge.
  destruct (Dir.get winner events) as [w|] eqn:Hw; [|assumption].
  destruct (Dir.get loser events) as [l|] eqn:Hl; [|assumption].
  destruct (String.eqb_spec winner loser) as [->|Hne]; [assumption|].
  assert (Hinw : (winner, w) ∈ events) by now apply DirFacts.get_Some.
  assert (Hinl : (loser, l) ∈ events) by now apply DirFacts.get_Some.
  assert (Hkw : winner ∈ Dir.keys events)
    by now apply (DirFacts.key_of_elem winner w).
  set (w' := set_aliases _ w).
  assert (Hnd' : NoDup (Dir.keys (Dir.set winner w' events)))
    by now rewrite DirFacts.keys_set_present.
  assert (Hw' : forall a, a ∈ aliases_of w' ->
                          a ∈ aliases_of w \/ a ∈ aliases_of l).
  { intros a [Ha|Ha]%elem_of_app; [now left|].
    apply list_elem_of_filter in Ha as [_ Ha]. now right. }
  intros k1 e1 k2 e2 a H1 H2 Hk Ha.
  apply DirFacts.elem_remove in H1 as [Hk1 H1]; [|assumption].
  apply DirFacts.elem_remove in H2 as [Hk2 H2]; [|assumption].
  apply DirFacts.elem_set_present in H1 as [[-> ->]|[Hk1' H1]];
    try assumption;
    apply DirFacts.elem_set_present in H2 as [[-> ->]|[Hk2' H2]];
    try assumption.
  - congruence.
  - destruct (Hw' a Ha) as [Ha'|Ha'].
    + now apply (Hdis winner w k2 e2 a).
    + apply (Hdis loser l k2 e2 a); auto.
  - intros Ha2. destruct (Hw' a Ha2) as [Ha'|Ha'].
    + now apply (Hdis k1 e1 winner w a).
    + now apply (Hdis k1 e1 loser l a).
  - now apply (Hdis k1 e1 k2 e2).
Qed.

End AliasUniqueness.

(** C2, as amended.  In every state reached from the empty directory by
    [add_event], by the merge of two entities, and by those [add_alias]
    calls whose alias is not at that moment listed by another entity, the
    alias lists of two distinct canonical names have no name in common. *)
Theorem aliases_disjoint_when_fresh :
  forall events, reachable fresh_alias_op events -> aliases_disjoint events.
Proof.
  intros events Hreach. induction Hreach as [|events o Hreach IH Hok].
  - intros k1 e1 k2 e2 a Hin. now apply elem_of_nil in Hin.
  - pose proof (reachable_well_formed _ _ Hreach) as Hwf.
    destruct o as [name|name alias|winner loser]; cbn.
    + now apply disjoint_add_event.
    + now apply disjoint_add_alias.
    + now apply disjoint_merge.
Qed.

Lemma aliases_disjoint_when_fresh_witness :
  reachable fresh_alias_op
    (run_op (run_op (run_op [] (OpAddEvent "SN1987A"))
               (OpAddAlias "SN1987A" "1987A")) (OpAddEvent "SN2011fe"))
  /\ aliases_disjoint
       (run_op (run_op (run_op [] (OpAddEvent "SN1987A"))
                  (OpAddAlias "SN1987A" "1987A")) (OpAddEvent "SN2011fe")).
Proof.
  assert (Hreach : reachable fresh_alias_op
            (run_op (run_op (run_op [] (OpAddEvent "SN1987A"))
                       (OpAddAlias "SN1987A" "1987A"))
               (OpAddEvent "SN2011fe"))).
  { apply reach_step; [apply reach_step; [apply reach_step|]|];
      [apply reach_empty | exact I | | exact I].
    intros k e Hin Hk. apply list_elem_of_singleton in Hin.
    injection Hin as -> ->. congruence. }
  split; [exact Hreach|].
  exact (aliases_disjoint_when_fresh _ Hreach).
Defined.

(** C2, as stated, fails: [add_alias] takes any alias, also the canonical
    name of another entity. *)
Lemma add_alias_breaks_uniqueness :
  ~ (forall events, reachable script_op events -> aliases_disjoint events).
Proof.
  intros Hall.
  pose (events := run_op (run_op (run_op [] (OpAddEvent "A")) (OpAddEvent "B"))
                    (OpAddAlias "A" "B")).
  assert (Hreach : reachable script_op events).
  { repeat (apply reach_step; [|exact I]). apply reach_empty. }
  apply (Hall events Hreach
           "A" (set_aliases ["A"; "B"] (new_event "A"))
           "B" (created "B") "B").
  - left.
  - right. left.
  - discriminate.
  - right. left.
  - left.
Qed.

(** ** The source registry *)

Section Registry.

Lemma find_citation_None reference l :
  find_citation reference l = None <-> reference ∉ c_name <$> l.
Proof.
  induction l as [|c l IH]; cbn.
  - split; [intros _; apply not_elem_of_nil | reflexivity].
  - destruct (String.eqb_spec (c_name c) reference) as [<-|Hne].
    + split; [discriminate|]. intros Hn. destruct Hn. now left.
    + rewrite IH, not_elem_of_cons. split; [auto | tauto].
Qed.

Lemma find_citation_Some reference l x :
  NoDup (c_name <$> l) -> x ∈ l -> c_name x = reference ->
  find_citation reference l = Some x.
Proof.
  induction l as [|c l IH]; cbn; intros Hnd Hin Hx.
  - now apply elem_of_nil in Hin.
  - apply NoDup_cons in Hnd as [Hc Hnd].
    destruct (String.eqb_spec (c_name c) reference) as [Heq|Hne].
    + apply elem_of_cons in Hin as [->|Hin]; [reflexivity|].
      destruct Hc. rewrite Heq, <- Hx. now apply list_elem_of_fmap_2.
    + apply elem_of_cons in Hin as [->|Hin]; [contradiction | auto].
Qed.

Lemma alias_numbers_S n :
  alias_numbers (S n) = alias_numbers n ++ [pretty (n + 1)%nat].
Proof.
  unfold alias_numbers. rewrite seq_S, map_app. cbn.
  now rewrite Nat.add_comm.
Qed.

Lemma alias_numbers_NoDup n : NoDup (alias_numbers n).
Proof.
  unfold alias_numbers. apply (NoDup_fmap_2 (fun i : nat => pretty i)).
  apply NoDup_ListNoDup, List.seq_NoDup.
Qed.

(** What a call does, by cases on the names already in the registry. *)
Lemma get_source_call_cases sources c :
  (effective_name c = ""
   /\ get_source_call sources c
      = (sources,
         Raised (ValueError "Bibcode must be specified if name is not.")))
  \/ (effective_name c <> ""
      /\ exists x, find_citation (effective_name c) (citations sources)
                   = Some x
                   /\ get_source_call sources c
                      = (sources, Returned (c_alias x)))
  \/ (effective_name c <> ""
      /\ find_citation (effective_name c) (citations sources) = None
      /\ exists new,
          c_name new = effective_name c
          /\ c_alias new = pretty (length (citations sources) + 1)%nat
          /\ get_source_call sources c
             = (Some (citations sources ++ [new]), Returned (c_alias new))).
Proof.
  destruct c as [reference url bibcode secondary].
  unfold get_source_call, get_source, effective_name, citations. cbn.
  destruct (PyStr.truthy reference) eqn:Href; cbn.
  - apply truthy_true in Href. right.
    destruct sources as [l|]; cbn.
    + destruct (find_citation reference l) as [x|] eqn:Hf.
      * left. split; [assumption|]. now exists x.
      * right. split; [assumption|]. split; [reflexivity|].
        eexists (Citation _ _ _ _ _); (split; [|split]); [| |reflexivity]; reflexivity.
    + right. split; [assumption|]. split; [reflexivity|].
      eexists (Citation _ _ _ _ _); (split; [|split]); [| |reflexivity]; reflexivity.
  - destruct (PyStr.truthy bibcode) eqn:Hbib; cbn.
    + apply truthy_true in Hbib. right.
      destruct sources as [l|]; cbn.
      * destruct (find_citation bibcode l) as [x|] eqn:Hf.
        -- left. split; [assumption|]. now exists x.
        -- right. split; [assumption|]. split; [reflexivity|].
           eexists (Citation _ _ _ _ _); (split; [|split]); [| |reflexivity]; reflexivity.
      * right. split; [assumption|]. split; [reflexivity|].
        eexists (Citation _ _ _ _ _); (split; [|split]); [| |reflexivity]; reflexivity.
    + apply truthy_false in Hbib. left. now split.
Qed.

Lemma registry_ok_step sources c :
  registry_ok sources -> registry_ok (fst (get_source_call sources c)).
Proof.
  intros (Hal & Hnd & Hne).
  destruct (get_source_call_cases sources c) as
    [[_ ->]|[(_ & x & _ & ->)|(Hn & Hf & new & Hname & Halias & ->)]];
    [now split | now split |].
  cbn. unfold registry_ok, citations. cbn. fold (citations sources).
  rewrite !fmap_app, length_app. cbn.
  split; [|split].
  - change (map (fun i : nat => pretty i)
              (seq 1 (length (citations sources) + 1)))
      with (alias_numbers (length (citations sources) + 1)).
    rewrite (Nat.add_1_r (length (citations sources))) at 1.
    now rewrite alias_numbers_S, Hal, Halias.
  - apply NoDup_app. split; [assumption|]. split; [|apply NoDup_singleton].
    intros n Hin ->%list_elem_of_singleton.
    apply find_citation_None in Hf. rewrite Hname in Hin. contradiction.
  - apply Forall_app. split; [assumption|].
    apply Forall_singleton. now rewrite Hname.
Qed.

Lemma registry_ok_run sources calls :
  registry_ok sources -> registry_ok (run_get_source sources calls).
Proof.
  revert sources. induction calls as [|c calls IH]; intros sources Hok.
  - assumption.
  - cbn. apply IH. now apply registry_ok_step.
Qed.

Lemma registry_ok_empty : registry_ok None.
Proof.
  split; [reflexivity|]. split; [apply NoDup_nil_2 | apply Forall_nil_2].
Qed.

End Registry.

(** C6.  After any sequence of [get_source] calls on an event that had no
    sources, no two citations have the same (name, bibcode) identity, the
    aliases of the citations are ["1"], ["2"], ... in the order of
    insertion, hence all different, and a call whose name (the reference,
    or the bibcode when no reference is given) is the name of a citation
    already there returns the alias of that citation and appends nothing. *)
Theorem get_source_registry :
  forall calls,
    let sources := run_get_source None calls in
    NoDup (citation_identity <$> citations sources)
    /\ c_alias <$> citations sources
       = alias_numbers (length (citations sources))
    /\ NoDup (c_alias <$> citations sources)
    /\ forall c x,
        x ∈ citations sources -> c_name x = effective_name c ->
        get_source_call sources c = (sources, Returned (c_alias x)).
Proof.
  intros calls sources.
  destruct (registry_ok_run None calls registry_ok_empty)
    as (Hal & Hnd & Hne).
  fold sources in Hal, Hnd, Hne.
  split; [|split; [|split]].
  - apply (NoDup_fmap_1 fst). rewrite <- list_fmap_compose. exact Hnd.
  - exact Hal.
  - rewrite Hal. apply alias_numbers_NoDup.
  - intros c x Hin Hname.
    pose proof (find_citation_Some _ _ _ Hnd Hin Hname) as Hfound.
    destruct (get_source_call_cases sources c) as
      [[He _]|[(_ & y & Hf & ->)|(_ & Hf & _)]].
    + rewrite Forall_forall in Hne. destruct (Hne x Hin). congruence.
    + congruence.
    + congruence.
Qed.

Lemma get_source_registry_witness :
  let calls := [SourceCall "" "" "2014MNRAS.442..844F" false;
                SourceCall "SUSPECT" "https://www.nhn.ou.edu/~suspect/" ""
                  true] in
  let x := Citation "SUSPECT" (Some "https://www.nhn.ou.edu/~suspect/") None
             "2" true in
  x ∈ citations (run_get_source None calls)
  /\ c_name x = effective_name (SourceCall "SUSPECT" "" "" false)
  /\ get_source_call (run_get_source None calls)
       (SourceCall "SUSPECT" "" "" false)
     = (run_get_source None calls, Returned "2").
Proof.
  intros calls x.
  assert (Hin : x ∈ citations (run_get_source None calls))
    by (right; left).
  assert (Hname : c_name x = effective_name (SourceCall "SUSPECT" "" "" false))
    by reflexivity.
  split; [exact Hin|]. split; [exact Hname|].
  destruct (get_source_registry calls) as (_ & _ & _ & Hsame).
  exact (Hsame (SourceCall "SUSPECT" "" "" false) x Hin Hname).
Defined.

(** ** Copying an entry: items without a source *)

Section CopyRaises.
Context {entry : Type} `{EntryOps entry}.

Lemma remap_sources_raises nsa sids dest nsid :
  (exists sid, sid ∈ sids /\ nsa !! sid = None) ->
  raises (snd (remap_sources nsa sids dest nsid)).
Proof.
  revert dest nsid.
  induction sids as [|sid sids IH]; intros dest nsid (bad & Hin & Hbad).
  - now apply elem_of_nil in Hin.
  - cbn. destruct (nsa !! sid) as [src|] eqn:Hsid; [|exact I].
    destruct (add_source dest src) as [dest' [a|x]]; [|exact I].
    apply IH. exists bad. split; [|assumption].
    apply elem_of_cons in Hin as [->|Hin]; [congruence | assumption].
Qed.

Lemma copy_item_raises nsa key it dest :
  unsourced nsa it -> raises (snd (copy_item nsa key it dest)).
Proof.
  unfold unsourced, copy_item. destruct (it !! "source") as [src|].
  - intros Hbad.
    pose proof (remap_sources_raises nsa (PyStr.split "," src) dest [] Hbad)
      as Hr.
    destruct (remap_sources nsa (PyStr.split "," src) dest [])
      as [dest' [nsid|x]]; [destruct Hr | exact I].
  - intros _. exact I.
Qed.

Lemma copy_items_raises nsa key items dest it :
  it ∈ items -> unsourced nsa it ->
  raises (snd (copy_items nsa key items dest)).
Proof.
  revert dest. induction items as [|it0 items IH]; intros dest Hin Hbad.
  - now apply elem_of_nil in Hin.
  - cbn. apply elem_of_cons in Hin as [<-|Hin].
    + pose proof (copy_item_raises nsa key it dest Hbad) as Hr.
      destruct (copy_item nsa key it dest) as [dest' [[]|x]];
        [destruct Hr | exact I].
    + destruct (copy_item nsa key it0 dest) as [dest' [[]|x]];
        [now apply IH | exact I].
Qed.

Lemma copy_keys_raises nsa fe dest key items it :
  (key, items) ∈ fe -> no_source key = Returned false ->
  it ∈ items -> unsourced nsa it ->
  raises (snd (copy_keys nsa fe dest)).
Proof.
  revert dest. induction fe as [|[k its] fe IH]; intros dest Hin Hk Hit Hbad.
  - now apply elem_of_nil in Hin.
  - cbn [copy_keys]. apply elem_of_cons in Hin as [[= <- <-]|Hin].
    + rewrite Hk.
      pose proof (copy_items_raises nsa key items dest it Hit Hbad) as Hr.
      destruct (copy_items nsa key items dest) as [dest' [[]|x]];
        [destruct Hr | exact I].
    + destruct (no_source k) as [[]|x]; [now apply IH| |exact I].
      destruct (copy_items nsa k its dest) as [dest' [[]|x]];
        [now apply IH | exact I].
Qed.

End CopyRaises.

(** C7.  When [fromentry] holds, under a key that is not marked
    [no_source], an item without ['source'] or an item that cites an alias
    that the sources of [fromentry] do not define, [copy_entry_to_entry]
    raises instead of returning, whatever the methods of the destination
    do. *)
Theorem copy_entry_unsourced_raises {entry : Type} `{EntryOps entry} :
  forall (fe : from_entry) (dest : entry) key items it,
    (key, items) ∈ fe -> no_source key = Returned false -> it ∈ items ->
    (forall nsa, collected fe = Returned nsa -> unsourced nsa it) ->
    raises (snd (copy_entry_to_entry fe dest)).
Proof.
  intros fe dest key items it Hin Hk Hit Hbad. unfold copy_entry_to_entry.
  destruct (entry_get NAME fe); [|exact I].
  destruct (has_name dest); [|exact I]. cbn [negb].
  destruct (collected fe) as [nsa|x]; [|exact I].
  apply (copy_keys_raises nsa fe _ key items it); auto.
Qed.

Lemma copy_entry_unsourced_raises_witness :
  let src : item := {[ "name" := "Smith 2001"; "alias" := "1" ]} in
  let good : item := {[ "value" := "0.045"; "source" := "1" ]} in
  let bad : item := {[ "value" := "0.04"; "source" := "1,7" ]} in
  let fe : from_entry :=
    [("name", []); ("sources", [src]); ("redshift", [good; bad])] in
  ("redshift", [good; bad]) ∈ fe
  /\ no_source (EntryOps := EntryLog.ops) "redshift" = Returned false
  /\ bad ∈ [good; bad]
  /\ (forall nsa, collected (H := EntryLog.ops) fe = Returned nsa ->
                  unsourced nsa bad)
  /\ raises (snd (copy_entry_to_entry (H := EntryLog.ops) fe [])).
Proof.
  intros src good bad fe.
  assert (Hin : ("redshift", [good; bad]) ∈ fe) by (right; right; left).
  assert (Hk : no_source (EntryOps := EntryLog.ops) "redshift"
               = Returned false) by reflexivity.
  assert (Hit : bad ∈ [good; bad]) by (right; left).
  assert (Hbad : forall nsa, collected (H := EntryLog.ops) fe = Returned nsa ->
                             unsourced nsa bad).
  { intros nsa [= <-]. exists "7". split; [right; left | reflexivity]. }
  split; [exact Hin|]. split; [exact Hk|]. split; [exact Hit|].
  split; [exact Hbad|].
  exact (copy_entry_unsourced_raises (H := EntryLog.ops)
           fe [] "redshift" [good; bad] bad Hin Hk Hit Hbad).
Defined.

(** The same copy, run: the first item is copied, the second raises. *)
Example copy_entry_unknown_alias :
  copy_entry_to_entry (H := EntryLog.ops)
    [("name", []);
     ("sources", [{[ "name" := "Smith 2001"; "alias" := "1" ]}]);
     ("redshift", [{[ "value" := "0.045"; "source" := "1" ]};
                   {[ "value" := "0.04"; "source" := "1,7" ]}])] []
  = ([("sources", {[ "name" := "Smith 2001" ]});
      ("redshift", {[ "value" := "0.045"; "source" := "1" ]});
      ("sources", {[ "name" := "Smith 2001" ]})],
     Raised (ValueError "Couldn't find source alias!")).
Proof. vm_compute. reflexivity. Qed.

Example copy_entry_no_source :
  copy_entry_to_entry (H := EntryLog.ops)
    [("name", []);
     ("sources", [{[ "name" := "Smith 2001"; "alias" := "1" ]}]);
     ("redshift", [{[ "value" := "0.04" ]}])] []
  = ([], Raised (ValueError "Item has no source!")).
Proof. vm_compute. reflexivity. Qed.

(** ** First light *)

Section LightFrame.
Context `{PyNum} `{PyAstro}.

(** The scans read the photometry only. *)
Lemma first_light_point_photometry e1 e :
  ev_photometry e1 = ev_photometry e ->
  first_light_point e1 = first_light_point e.
Proof. intros He. unfold first_light_point. now rewrite He. Qed.

Lemma get_first_light_photometry e1 e :
  ev_photometry e1 = ev_photometry e ->
  get_first_light e1 = get_first_light e.
Proof.
  intros He. unfold get_first_light.
  now rewrite (first_light_point_photometry e1 e He).
Qed.

Lemma set_max_date_frame d e :
  ev_name (set_max_date d e) = ev_name e
  /\ ev_aliases (set_max_date d e) = ev_aliases e
  /\ ev_sources (set_max_date d e) = ev_sources e
  /\ ev_quanta (set_max_date d e) = ev_quanta e
  /\ ev_photometry (set_max_date d e) = ev_photometry e
  /\ ev_scalars (set_max_date d e)
     = <["maxday" := snd d]>
         (<["maxmonth" := snd (fst d)]>
            (<["maxyear" := fst (fst d)]> (ev_scalars e))).
Proof. destruct d as [[y m] d]. repeat split. Qed.

Lemma set_discover_fields_frame d e :
  ev_name (set_discover_fields d e) = ev_name e
  /\ ev_aliases (set_discover_fields d e) = ev_aliases e
  /\ ev_sources (set_discover_fields d e) = ev_sources e
  /\ ev_quanta (set_discover_fields d e) = ev_quanta e
  /\ ev_photometry (set_discover_fields d e) = ev_photometry e
  /\ ev_scalars (set_discover_fields d e)
     = <["discoverday" := snd d]>
         (<["discovermonth" := snd (fst d)]>
            (<["discoveryear" := fst (fst d)]> (ev_scalars e))).
Proof. destruct d as [[y m] d]. repeat split. Qed.

(** What the first half of [set_first_max_light] does, by cases. *)
Lemma set_max_fields_cases e :
  (exists x, get_max_light e = Raised x /\ set_max_fields e = (e, Raised x))
  \/ (get_max_light e = Returned None /\ set_max_fields e = (e, Returned tt))
  \/ (exists d mag x,
        get_max_light e = Returned (Some (d, mag))
        /\ pretty_num_decimal mag = Raised x
        /\ set_max_fields e = (set_max_date d e, Raised x))
  \/ (exists d mag s,
        get_max_light e = Returned (Some (d, mag))
        /\ pretty_num_decimal mag = Returned s
        /\ set_max_fields e
           = (set_scalar "maxappmag" s (set_max_date d e), Returned tt)).
Proof.
  unfold set_max_fields.
  destruct (get_max_light e) as [[[d mag]|]|x]; [|right; left; now split|left; eauto].
  right. right. destruct (pretty_num_decimal mag) as [s|x] eqn:Hs.
  - right. now exists d, mag, s.
  - left. now exists d, mag, x.
Qed.

Lemma set_max_fields_photometry e :
  ev_photometry (fst (set_max_fields e)) = ev_photometry e.
Proof.
  destruct (set_max_fields_cases e)
    as [(x & _ & ->)|[[_ ->]|[(d & mag & x & _ & _ & ->)
                             |(d & mag & s & _ & _ & ->)]]];
    cbn [fst]; try reflexivity;
    now destruct (set_max_date_frame d e) as (_ & _ & _ & _ & Hp & _).
Qed.

End LightFrame.

(** C9, at the input where the code departs from it.  With two photometry
    points of times ["9999.5"] and ["10000.5"], [get_first_light] selects
    the point of time ["10000.5"], the lesser string, although 9999.5 is
    the earlier time, and returns the date that astropy gives for 10000.5
    (or raises as astropy does).  When the fields of the maximum are set
    without a raise and astropy gives a date for 10000.5,
    [set_first_max_light] returns and has taken the discovery date from
    that point. *)
Theorem first_light_is_least_string `{PyNum} `{PyAstro} :
  let early := Photo "MJD" "9999.5" "V" "15.2" in
  let late := Photo "MJD" "10000.5" "V" "14.8" in
  let e := {| ev_name := "SN1885A"; ev_aliases := Some ["SN1885A"];
              ev_sources := None; ev_quanta := ∅;
              ev_photometry := Some [early; late]; ev_scalars := ∅ |} in
  first_light_point e = Returned (Some late)
  /\ DecimalLiterals.dec_float_ltb (p_time early) (p_time late) = true
  /\ get_first_light e
     = match mjd_date "10000.5" with
       | Returned d => Returned (Some d)
       | Raised x => Raised x
       end
  /\ forall date,
      snd (set_max_fields e) = Returned tt ->
      mjd_date "10000.5" = Returned date ->
      snd (set_first_max_light e) = Returned tt
      /\ ev_scalars (fst (set_first_max_light e)) !! "discoveryear"
         = Some (fst (fst date))
      /\ ev_scalars (fst (set_first_max_light e)) !! "discovermonth"
         = Some (snd (fst date))
      /\ ev_scalars (fst (set_first_max_light e)) !! "discoverday"
         = Some (snd date).
Proof.
  intros early late e.
  assert (Hpoint : first_light_point e = Returned (Some late))
    by reflexivity.
  assert (Hfirst : get_first_light e
                   = match mjd_date "10000.5" with
                     | Returned d => Returned (Some d)
                     | Raised x => Raised x
                     end)
    by (unfold get_first_light; now rewrite Hpoint).
  split; [exact Hpoint|]. split; [reflexivity|]. split; [exact Hfirst|].
  intros date Hmax Hdate. unfold set_first_max_light.
  pose proof (set_max_fields_photometry e) as Hph.
  destruct (set_max_fields e) as [e1 [[]|x]]; [|discriminate].
  cbn [fst] in Hph.
  rewrite (get_first_light_photometry e1 e Hph), Hfirst, Hdate.
  cbn [fst snd].
  destruct (set_discover_fields_frame date e1) as (_ & _ & _ & _ & _ & ->).
  split; [reflexivity|]. split; [|split].
  - rewrite lookup_insert_ne by discriminate.
    rewrite lookup_insert_ne by discriminate.
    now rewrite lookup_insert_eq.
  - rewrite lookup_insert_ne by discriminate.
    now rewrite lookup_insert_eq.
  - now rewrite lookup_insert_eq.
Qed.

(** The same event with the dates and magnitudes that the script computes:
    the discovery is dated 4 April 1886, the day of the later point. *)
Lemma first_light_is_least_string_witness :
  let early := Photo "MJD" "9999.5" "V" "15.2" in
  let late := Photo "MJD" "10000.5" "V" "14.8" in
  let e := {| ev_name := "SN1885A"; ev_aliases := Some ["SN1885A"];
              ev_sources := None; ev_quanta := ∅;
              ev_photometry := Some [early; late]; ev_scalars := ∅ |} in
  snd (set_max_fields (H := DecimalLiterals.pynum)
         (H0 := RecordedAstro.astro) e) = Returned tt
  /\ mjd_date (PyAstro := RecordedAstro.astro) "10000.5"
     = Returned ("1886", "4", "4")
  /\ snd (set_first_max_light (H := DecimalLiterals.pynum)
            (H0 := RecordedAstro.astro) e) = Returned tt
  /\ ev_scalars (fst (set_first_max_light (H := DecimalLiterals.pynum)
                        (H0 := RecordedAstro.astro) e)) !! "discoverday"
     = Some "4".
Proof.
  intros early late e.
  assert (Hmax : snd (set_max_fields (H := DecimalLiterals.pynum)
                        (H0 := RecordedAstro.astro) e) = Returned tt)
    by reflexivity.
  assert (Hdate : mjd_date (PyAstro := RecordedAstro.astro) "10000.5"
                  = Returned ("1886", "4", "4")) by reflexivity.
  split; [exact Hmax|]. split; [exact Hdate|].
  destruct (first_light_is_least_string
              (H := DecimalLiterals.pynum) (H0 := RecordedAstro.astro))
    as (_ & _ & _ & Hset).
  destruct (Hset ("1886", "4", "4") Hmax Hdate) as (Hret & _ & _ & Hday).
  split; [exact Hret | exact Hday].
Defined.

Section LeastElement.
Context {A : Type} (lt : A -> A -> bool).
Hypothesis lt_irrefl : forall x, lt x x = false.
Hypothesis lt_trans :
  forall x y z, lt x y = true -> lt y z = true -> lt x z = true.

(** The scan ends on an element that nothing in the list is below. *)
Lemma index_min_go_least pre l best besti :
  pre !! besti = Some best ->
  (forall x, x ∈ pre -> lt x best = false) ->
  exists b,
    (pre ++ l) !! index_min_go lt best besti (length pre) l = Some b
    /\ forall x, x ∈ pre ++ l -> lt x b = false.
Proof.
  revert pre best besti.
  induction l as [|y l IH]; intros pre best besti Hbest Hleast; cbn.
  - exists best. rewrite app_nil_r. now split.
  - replace (pre ++ y :: l) with ((pre ++ [y]) ++ l)
      by now rewrite <- app_assoc.
    replace (S (length pre)) with (length (pre ++ [y]))
      by (rewrite length_app; cbn; lia).
    destruct (lt y best) eqn:Hy.
    + apply IH.
      * rewrite lookup_app_r by lia. now rewrite Nat.sub_diag.
      * intros x [Hx|Hx]%elem_of_app.
        -- apply not_true_is_false. intros Hxy.
           pose proof (lt_trans x y best Hxy Hy) as Hxb.
           rewrite (Hleast x Hx) in Hxb. discriminate.
        -- apply list_elem_of_singleton in Hx as ->. apply lt_irrefl.
    + apply IH.
      * apply lookup_app_l_Some. assumption.
      * intros x [Hx|Hx]%elem_of_app; [auto|].
        now apply list_elem_of_singleton in Hx as ->.
Qed.

End LeastElement.

(** ** Derived velocity and redshift *)

Section Derivation.
Context `{PyNum} `{PyAstro}.

(** The scan for the best value: what it returns has the greatest count
    of the list, and comes from the list when that count is positive. *)
Lemma best_sig_go_spec best bestsig l b s :
  best_sig_go best bestsig l = (b, s) ->
  (bestsig <= s)%nat
  /\ (forall z, z ∈ l -> (get_sig_digits (q_value z) <= s)%nat)
  /\ ((bestsig < s)%nat ->
      exists z, z ∈ l /\ q_value z = b /\ get_sig_digits b = s)
  /\ (s = bestsig -> b = best).
Proof.
  revert best bestsig.
  induction l as [|z l IH]; intros best bestsig; cbn [best_sig_go].
  - intros [= <- <-]. repeat split; try lia; auto.
    intros z Hz. now apply elem_of_nil in Hz.
  - destruct (bestsig <? get_sig_digits (q_value z))%nat eqn:Hlt.
    + apply Nat.ltb_lt in Hlt. intros Hgo.
      apply IH in Hgo as (Hle & Hall & Hex & Hsame).
      split; [lia|]. split; [|split].
      * intros z' [->|Hz']%elem_of_cons; [lia | auto].
      * intros _. destruct (decide (s = get_sig_digits (q_value z))) as [->|Hne].
        -- exists z. rewrite (Hsame eq_refl). repeat split. now left.
        -- destruct Hex as (z' & Hz' & Hv & Hs); [lia|].
           exists z'. repeat split; try assumption. now right.
      * lia.
    + apply Nat.ltb_ge in Hlt. intros Hgo.
      apply IH in Hgo as (Hle & Hall & Hex & Hsame).
      split; [lia|]. split; [|split].
      * intros z' [->|Hz']%elem_of_cons; [lia | auto].
      * intros Hs. destruct (Hex Hs) as (z' & Hz' & Hv & Hs').
        exists z'. repeat split; try assumption. now right.
      * assumption.
Qed.

(** A call for a quantity that the event does not have leaves the lists
    of the other quantities alone. *)
Lemma add_quanta_absent_key q quanta value source frb error k cts :
  q !! quanta = None -> q !! k = Some cts ->
  fst (add_quanta q quanta value source frb error) !! k = Some cts.
Proof.
  intros Hnone Hk. unfold add_quanta. rewrite Hnone.
  assert (Hne : quanta <> k) by congruence.
  unfold quantities in *.
  repeat case_match; cbn; try assumption;
    now rewrite lookup_insert_ne.
Qed.

Lemma add_quanta_absent_key_accepted q quanta value source frb error :
  accepted quanta value error -> q !! quanta = None ->
  add_quanta q quanta value source frb error
  = (<[quanta := [quantaentry quanta value source error]]> q, Returned tt).
Proof.
  intros Hacc Hnone.
  rewrite (add_quanta_accepted q quanta value source frb error Hacc).
  now rewrite Hnone.
Qed.

End Derivation.

(** C8, as amended.  The derivation of a velocity from the redshifts (and,
    in the same way, of a redshift from the velocities) never changes the
    list of a quantity that the event already has, and does nothing when
    the event has neither quantity.  With redshifts and no velocity it does
    nothing when no stored redshift has a positive significant-digit
    count; otherwise it takes a stored redshift of the greatest count, has
    the velocity computed and formatted to that count of digits, and stores
    it, from the source ["D"], as the only velocity, provided [add_quanta]
    accepts the string.  A redshift is derived from the velocities when, in
    addition, the best velocity is a number. *)
Theorem derive_velocity_guarded `{PyNum} `{PyAstro} :
  forall q,
    (forall k cts, q !! k = Some cts ->
                   fst (derive_velocity q) !! k = Some cts)
    /\ (q !! "redshift" = None -> q !! "hvel" = None ->
        derive_velocity q = (q, Returned tt))
    /\ (forall zs bestz bestsig,
          q !! "redshift" = Some zs -> q !! "hvel" = None ->
          best_sig zs = (bestz, bestsig) ->
          (forall z, z ∈ zs -> (get_sig_digits (q_value z) <= bestsig)%nat)
          /\ (bestsig = 0%nat -> derive_velocity q = (q, Returned tt))
          /\ ((0 < bestsig)%nat ->
              (exists z, z ∈ zs /\ q_value z = bestz
                         /\ get_sig_digits bestz = bestsig)
              /\ forall v,
                  doppler_hvel bestz bestsig = Returned v ->
                  accepted "hvel" v "" ->
                  derive_velocity q
                  = (<["hvel" := [quantaentry "hvel" v "D" ""]]> q,
                     Returned tt)))
    /\ (forall hvs besthv bestsig,
          q !! "redshift" = None -> q !! "hvel" = Some hvs ->
          best_sig hvs = (besthv, bestsig) ->
          (forall hv, hv ∈ hvs -> (get_sig_digits (q_value hv) <= bestsig)%nat)
          /\ (bestsig = 0%nat \/ is_number besthv = false ->
              derive_velocity q = (q, Returned tt))
          /\ ((0 < bestsig)%nat -> is_number besthv = true ->
              (exists hv, hv ∈ hvs /\ q_value hv = besthv
                          /\ get_sig_digits besthv = bestsig)
              /\ forall v,
                  doppler_redshift besthv bestsig = Returned v ->
                  accepted "redshift" v "" ->
                  derive_velocity q
                  = (<["redshift" := [quantaentry "redshift" v "D" ""]]> q,
                     Returned tt))).
Proof.
  intros q. split; [|split; [|split]].
  - intros k cts Hk. unfold derive_velocity.
    destruct (q !! "redshift") as [zs|] eqn:Hz;
      destruct (q !! "hvel") as [hvs|] eqn:Hh; try assumption.
    + destruct (best_sig zs) as [bestz bestsig].
      destruct (0 <? bestsig)%nat; [|assumption].
      destruct (doppler_hvel bestz bestsig) as [v|x]; [|assumption].
      now apply add_quanta_absent_key.
    + destruct (best_sig hvs) as [besthv bestsig].
      destruct ((0 <? bestsig)%nat && is_number besthv); [|assumption].
      destruct (doppler_redshift besthv bestsig) as [v|x]; [|assumption].
      now apply add_quanta_absent_key.
  - intros Hz Hh. unfold derive_velocity. now rewrite Hz, Hh.
  - intros zs bestz bestsig Hz Hh Hbest.
    pose proof (best_sig_go_spec _ _ _ _ _ Hbest) as (_ & Hall & Hex & _).
    split; [exact Hall|]. unfold derive_velocity. rewrite Hz, Hh, Hbest.
    split.
    + intros ->. reflexivity.
    + intros Hpos. split; [now apply Hex|].
      intros v Hv Hacc. apply Nat.ltb_lt in Hpos. rewrite Hpos, Hv.
      now apply add_quanta_absent_key_accepted.
  - intros hvs besthv bestsig Hz Hh Hbest.
    pose proof (best_sig_go_spec _ _ _ _ _ Hbest) as (_ & Hall & Hex & _).
    split; [exact Hall|]. unfold derive_velocity. rewrite Hz, Hh, Hbest.
    split.
    + intros [->|Hnum]; [reflexivity|].
      now rewrite Hnum, andb_false_r.
    + intros Hpos Hnum. split; [now apply Hex|].
      intros v Hv Hacc. apply Nat.ltb_lt in Hpos. rewrite Hpos, Hnum, Hv.
      now apply add_quanta_absent_key_accepted.
Qed.

Lemma derive_velocity_guarded_witness :
  let q : gmap string (list quantum) :=
    {[ "redshift" := [Quantum "0.045" (Some "0.001") (Some "1")] ]} in
  q !! "redshift" = Some [Quantum "0.045" (Some "0.001") (Some "1")]
  /\ q !! "hvel" = None
  /\ best_sig [Quantum "0.045" (Some "0.001") (Some "1")] = ("0.045", 2%nat)
  /\ (0 < 2)%nat
  /\ doppler_hvel (PyAstro := RecordedAstro.astro) "0.045" 2 = Returned "13000"
  /\ accepted (H := DecimalLiterals.pynum) "hvel" "13000" ""
  /\ derive_velocity (H := DecimalLiterals.pynum) (H0 := RecordedAstro.astro) q
     = (<["hvel" := [Quantum "13000" None (Some "D")]]> q, Returned tt).
Proof.
  intros q.
  assert (Hz : q !! "redshift"
               = Some [Quantum "0.045" (Some "0.001") (Some "1")])
    by reflexivity.
  assert (Hh : q !! "hvel" = None) by reflexivity.
  assert (Hbest : best_sig [Quantum "0.045" (Some "0.001") (Some "1")]
                  = ("0.045", 2%nat)) by reflexivity.
  assert (Hpos : (0 < 2)%nat) by lia.
  assert (Hv : doppler_hvel (PyAstro := RecordedAstro.astro) "0.045" 2
               = Returned "13000") by reflexivity.
  assert (Hacc : accepted (H := DecimalLiterals.pynum) "hvel" "13000" "")
    by (repeat split; [discriminate | reflexivity..]).
  repeat (split; [assumption|]).
  destruct (derive_velocity_guarded
              (H := DecimalLiterals.pynum) (H0 := RecordedAstro.astro) q)
    as (_ & _ & Hderive & _).
  destruct (Hderive _ _ _ Hz Hh Hbest) as (_ & _ & Hsome).
  destruct (Hsome Hpos) as [_ Hstore].
  exact (Hstore "13000" Hv Hacc).
Defined.

(** C8, as stated, fails: an event whose only redshift is ["0"] has a
    redshift record and no velocity, and no velocity is derived, since the
    value has no significant digit. *)
Lemma derive_velocity_needs_digits :
  ~ (forall q zs,
        q !! "redshift" = Some zs -> zs <> [] -> q !! "hvel" = None ->
        exists hvs,
          fst (derive_velocity
                 (H := DecimalLiterals.pynum) (H0 := RecordedAstro.astro) q)
          !! "hvel" = Some hvs
          /\ hvs <> []).
Proof.
  intros Hall.
  pose (q := fst (add_quanta (H := DecimalLiterals.pynum)
                    ∅ "redshift" "0" "1" false "")).
  destruct (Hall q [Quantum "0" None (Some "1")]) as (hvs & Hhv & _);
    [reflexivity | discriminate | reflexivity |].
  vm_compute in Hhv. discriminate.
Qed.

(** The digits of a derived value: redshift ["0.068"], of two significant
    digits, gives the velocity ["20000"], in which [get_sig_digits] counts
    one. *)
Example derived_velocity_trailing_zeros :
  let q : gmap string (list quantum) :=
    {[ "redshift" := [Quantum "0.068" None (Some "1")] ]} in
  fst (derive_velocity
         (H := DecimalLiterals.pynum) (H0 := RecordedAstro.astro) q)
  !! "hvel" = Some [Quantum "20000" None (Some "D")]
  /\ get_sig_digits "0.068" = 2%nat /\ get_sig_digits "20000" = 1%nat.
Proof. vm_compute. auto. Qed.

(** ** [Catalog.add_entry] *)





(** * Further properties of the code *)

(** ** File names *)

Section OneCharacter.

Lemma prefix_empty s : String.prefix "" s = true.
Proof. now destruct s. Qed.

Lemma replace_char_cons (a : ascii) new c s :
  PyStr.replace_go (PyText.char a) new 0 (String c s)
  = if Ascii.eqb a c then new +:+ PyStr.replace_go (PyText.char a) new 0 s
    else String c (PyStr.replace_go (PyText.char a) new 0 s).
Proof.
  cbn. destruct (ascii_dec a c) as [->|Hne].
  - now rewrite prefix_empty, Ascii.eqb_refl.
  - apply Ascii.eqb_neq in Hne. now rewrite Hne.
Qed.

Lemma contains_char_cons (a c : ascii) s :
  PyText.contains (PyText.char a) (String c s)
  = Ascii.eqb a c || PyText.contains (PyText.char a) s.
Proof.
  cbn. destruct (ascii_dec a c) as [->|Hne].
  - now rewrite prefix_empty, Ascii.eqb_refl.
  - apply Ascii.eqb_neq in Hne. now rewrite Hne.
Qed.

Lemma contains_char_nil (a : ascii) : PyText.contains (PyText.char a) "" = false.
Proof. reflexivity. Qed.

End OneCharacter.

(** X1.  The file name of an event has no ['/'] and the length of the
    name; a name without ['/'] is its own file name, and so is every file
    name.  The function of the script and the one of [strings.py] agree. *)
Theorem event_filename_no_slash :
  forall name,
    PyText.contains "/" (event_filename name) = false
    /\ String.length (event_filename name) = String.length name
    /\ event_filename (event_filename name) = event_filename name
    /\ (PyText.contains "/" name = false -> event_filename name = name)
    /\ get_event_filename name = event_filename name.
Proof.
  intros name. unfold get_event_filename, event_filename, PyStr.replace.
  change "/" with (PyText.char "/").
  assert (Hno : PyText.contains (PyText.char "/")
                  (PyStr.replace_go (PyText.char "/") "_" 0 name) = false).
  { induction name as [|c s IH]; [reflexivity|].
    rewrite replace_char_cons.
    destruct (Ascii.eqb "/" c) eqn:E.
    - change ("_" +:+ ?x) with (String "_" x).
      now rewrite contains_char_cons, IH.
    - now rewrite contains_char_cons, E, IH. }
  assert (Hid : forall s, PyText.contains (PyText.char "/") s = false ->
                          PyStr.replace_go (PyText.char "/") "_" 0 s = s).
  { induction s as [|c s IH]; [reflexivity|].
    rewrite contains_char_cons, replace_char_cons.
    intros [-> Hs]%orb_false_iff. now rewrite IH. }
  split; [exact Hno|]. split; [|split; [|split]].
  - clear. induction name as [|c s IH]; [reflexivity|].
    rewrite replace_char_cons.
    destruct (Ascii.eqb "/" c);
      [change ("_" +:+ ?x) with (String "_" x)|];
      cbn [String.length]; now rewrite IH.
  - now apply Hid.
  - apply Hid.
  - reflexivity.
Qed.

(** ** [rep_chars] *)

Section RepChars.

Lemma remove_char_absent (c d : ascii) s :
  PyText.contains (PyText.char c) s = false ->
  PyText.contains (PyText.char c)
    (PyStr.replace (PyText.char d) "" s) = false.
Proof.
  unfold PyStr.replace. induction s as [|x s IH]; [reflexivity|].
  rewrite contains_char_cons, replace_char_cons.
  intros [Hx Hs]%orb_false_iff.
  destruct (Ascii.eqb d x); cbn [String.append].
  - now apply IH.
  - now rewrite contains_char_cons, Hx, IH.
Qed.

Lemma remove_char_gone (c : ascii) s :
  PyText.contains (PyText.char c)
    (PyStr.replace (PyText.char c) "" s) = false.
Proof.
  unfold PyStr.replace. induction s as [|x s IH]; [reflexivity|].
  rewrite replace_char_cons.
  destruct (Ascii.eqb c x) eqn:E; cbn [String.append]; [assumption|].
  now rewrite contains_char_cons, E, IH.
Qed.

Lemma rep_chars_absent (c : ascii) chars s :
  PyText.contains (PyText.char c) s = false ->
  PyText.contains (PyText.char c) (rep_chars s chars "") = false.
Proof.
  revert s. induction chars as [|d chars IH]; intros s Hs; [assumption|].
  cbn [rep_chars]. apply IH.
  destruct (PyText.contains (PyText.char d) s); [|assumption].
  now apply remove_char_absent.
Qed.

Lemma filter_keep_all (P : ascii -> bool) l :
  (forall c, In c l -> P c = true) -> List.filter P l = l.
Proof.
  induction l as [|x l IH]; intros Hall; [reflexivity|]. cbn [List.filter].
  rewrite (Hall x) by now left. f_equal. apply IH. intros c Hc. apply Hall.
  now right.
Qed.

Lemma filter_twice (P Q : ascii -> bool) l :
  List.filter P (List.filter Q l) = List.filter (fun c => Q c && P c) l.
Proof.
  induction l as [|x l IH]; [reflexivity|]. cbn [List.filter].
  destruct (Q x); cbn [andb List.filter]; [|assumption].
  destruct (P x); now rewrite IH.
Qed.

Lemma contains_char_In (c : ascii) s :
  PyText.contains (PyText.char c) s = true <-> In c (list_ascii_of_string s).
Proof.
  induction s as [|x s IH]; [split; [discriminate | intros []]|].
  rewrite contains_char_cons, orb_true_iff, IH. cbn [list_ascii_of_string In].
  rewrite Ascii.eqb_eq. split; intros [Hx|Hs]; auto.
Qed.

(** Replacing a character by [''] deletes its occurrences. *)
Lemma remove_char_filter (d : ascii) s :
  list_ascii_of_string (PyStr.replace (PyText.char d) "" s)
  = List.filter (fun c => negb (Ascii.eqb d c)) (list_ascii_of_string s).
Proof.
  unfold PyStr.replace. induction s as [|x s IH]; [reflexivity|].
  rewrite replace_char_cons. cbn [list_ascii_of_string List.filter].
  destruct (Ascii.eqb d x); cbn [negb].
  - exact IH.
  - cbn [list_ascii_of_string]. now rewrite IH.
Qed.

Lemma rep_chars_filter chars s :
  list_ascii_of_string (rep_chars s chars "")
  = List.filter (fun c => negb (PyText.contains (PyText.char c) chars))
      (list_ascii_of_string s).
Proof.
  revert s. induction chars as [|d chars IH]; intros s.
  - cbn [rep_chars]. symmetry. now apply filter_keep_all.
  - cbn [rep_chars]. rewrite IH.
    assert (Hstep : list_ascii_of_string
                      (if PyText.contains (PyText.char d) s
                       then PyStr.replace (PyText.char d) "" s else s)
                    = List.filter (fun c => negb (Ascii.eqb d c))
                        (list_ascii_of_string s)).
    { destruct (PyText.contains (PyText.char d) s) eqn:Hd;
        [apply remove_char_filter|].
      symmetry. apply filter_keep_all. intros c Hc.
      apply negb_true_iff, Ascii.eqb_neq. intros <-.
      apply contains_char_In in Hc. congruence. }
    rewrite Hstep, filter_twice. apply List.filter_ext. intros c.
    rewrite contains_char_cons, negb_orb, (Ascii.eqb_sym c d). reflexivity.
Qed.

End RepChars.

(** X2.  With the default replacement [''], [rep_chars] deletes the
    characters of [chars] and nothing else: the characters of the result
    are those of the string that are not in [chars], in their order.  So
    none of the characters of [chars] is left, and a string in which none
    of them occurs is returned unchanged. *)
Theorem rep_chars_removes :
  forall s chars,
    list_ascii_of_string (rep_chars s chars "")
    = List.filter (fun c => negb (PyText.contains (PyText.char c) chars))
        (list_ascii_of_string s)
    /\ (forall c, PyText.contains (PyText.char c) chars = true ->
                  PyText.contains (PyText.char c) (rep_chars s chars "")
                  = false)
    /\ ((forall c, PyText.contains (PyText.char c) chars = true ->
                   PyText.contains (PyText.char c) s = false) ->
        rep_chars s chars "" = s).
Proof.
  intros s chars. split; [apply rep_chars_filter|]. split.
  - intros c Hc. apply not_true_is_false. intros Hin%contains_char_In.
    rewrite rep_chars_filter in Hin. apply List.filter_In in Hin as [_ Hn].
    rewrite Hc in Hn. discriminate.
  - intros Hnone.
    rewrite <- (string_of_list_ascii_of_string (rep_chars s chars "")).
    rewrite rep_chars_filter, filter_keep_all;
      [apply string_of_list_ascii_of_string|].
    intros c Hc%contains_char_In. apply negb_true_iff.
    destruct (PyText.contains (PyText.char c) chars) eqn:Hch; [|reflexivity].
    rewrite (Hnone c Hch) in Hc. discriminate.
Qed.

Lemma rep_chars_removes_witness :
  PyText.contains (PyText.char "?") "()?" = true
  /\ PyText.contains (PyText.char "?") (rep_chars "SN(1987)A?" "()?" "")
     = false
  /\ rep_chars "SN(1987)A?" "()?" "" = "SN1987A".
Proof.
  assert (Hc : PyText.contains (PyText.char "?") "()?" = true)
    by reflexivity.
  split; [exact Hc|]. split.
  - exact (proj1 (proj2 (rep_chars_removes "SN(1987)A?" "()?"))
             "?"%char Hc).
  - rewrite <- (string_of_list_ascii_of_string
                  (rep_chars "SN(1987)A?" "()?" "")).
    now rewrite (proj1 (rep_chars_removes "SN(1987)A?" "()?")).
Defined.

(** ** [add_photometry] *)

(** X3.  [add_photometry] never changes or removes a stored point: it
    leaves the list as it is or appends one point, made of its arguments.
    It appends nothing when the time or the magnitude is empty or not a
    number, or when a stated error is not a number; so if every stored
    point has a numeric time, magnitude and error, this stays true. *)
Theorem add_photometry_keeps_points `{PyNum} `{PyDecimalEq} :
  forall photometry timeunit time instrument band abmag aberr source upperlimit,
    let r := Script.add_photometry photometry timeunit time instrument band
               abmag aberr source upperlimit in
    (r = photometry
     \/ exists p,
         r = Some (default [] photometry ++ [p])
         /\ pp_timeunit p = timeunit /\ pp_time p = time
         /\ pp_band p = band /\ pp_abmag p = abmag)
    /\ (time = "" \/ abmag = "" \/ is_number time = false
        \/ is_number abmag = false
        \/ (aberr <> "" /\ is_number aberr = false) -> r = photometry)
    /\ (Forall numeric_point (default [] photometry) ->
        Forall numeric_point (default [] r)).
Proof.
  intros photometry timeunit time instrument band abmag aberr source
    upperlimit r.
  subst r. unfold Script.add_photometry.
  destruct (PyStr.truthy time) eqn:Ht; cbn [negb orb];
    [|split; [now left | split; [reflexivity | auto]]].
  destruct (PyStr.truthy abmag) eqn:Hm; cbn [negb orb];
    [|split; [now left | split; [reflexivity | auto]]].
  destruct (is_number time) eqn:Hnt; cbn [negb orb];
    [|split; [now left | split; [reflexivity | auto]]].
  destruct (is_number abmag) eqn:Hnm; cbn [negb orb];
    [|split; [now left | split; [reflexivity | auto]]].
  destruct (PyStr.truthy aberr && negb (is_number aberr)) eqn:He;
    [split; [now left | split; [reflexivity | auto]]|].
  destruct (existsb _ (default [] photometry));
    [split; [now left | split; [reflexivity | auto]]|].
  apply truthy_true in Ht, Hm.
  split; [|split].
  - right. eexists. split; [reflexivity|]. cbn. auto.
  - intros [->|[->|[?|[?|[Hne Hnum]]]]]; try congruence.
    apply truthy_true in Hne. now rewrite Hne, Hnum in He.
  - intros Hall. cbn. apply Forall_app. split; [assumption|].
    apply Forall_singleton. repeat split; cbn; try assumption.
    intros e. destruct (PyStr.truthy aberr) eqn:Hae; [|discriminate].
    intros [= <-]. cbn in He. now apply negb_false_iff in He.
Qed.


Lemma dec_eqb_refl x :
  is_number (PyNum := DecimalLiterals.pynum) x = true -> dec_eqb x x = true.
Proof.
  cbn. unfold DecimalLiterals.dec_is_number, dec_eqb.
  destruct (DecimalLiterals.parse x); [|discriminate].
  intros _. apply Z.eqb_refl.
Qed.


(** ** [add_event] and [add_alias], call after call *)

Section DirectoryCalls.

Lemma scan_aliases_key name events k :
  scan_aliases name events = Returned (Some k) -> k ∈ Dir.keys events.
Proof.
  induction events as [|[k0 e] rest IH]; cbn [scan_aliases]; [discriminate|].
  destruct (ev_aliases e) as [l|]; [|discriminate].
  destruct ((1 <? length l)%nat && PyStr.mem name l).
  - intros [= <-]. now left.
  - intros Hs. right. now apply IH.
Qed.

(** What a call of [add_event] does, in any directory. *)
Lemma add_event_cases events name :
  (name ∈ Dir.keys events /\ add_event events name = (events, Returned name))
  \/ ((name ∉ Dir.keys events)
      /\ ((exists x, scan_aliases name events = Raised x
                     /\ add_event events name = (events, Raised x))
          \/ (exists k, scan_aliases name events = Returned (Some k)
                        /\ add_event events name = (events, Returned k))
          \/ (scan_aliases name events = Returned None
              /\ add_event events name
                 = (events ++ [(name, created name)], Returned name)))).
Proof.
  destruct (decide (name ∈ Dir.keys events)) as [Hin|Hn].
  - left. split; [assumption | now apply add_event_known].
  - right. split; [assumption|].
    destruct (scan_aliases name events) as [[k|]|x] eqn:Hscan.
    + right. left. exists k. split; [reflexivity|].
      now apply add_event_alias.
    + right. right. split; [reflexivity | now apply add_event_new].
    + left. exists x. split; [reflexivity|]. unfold add_event.
      destruct (Dir.has name events) eqn:Hhas.
      * apply DirFacts.has_true in Hhas. contradiction.
      * now rewrite Hscan.
Qed.

Lemma get_set_eq name e events : Dir.get name (Dir.set name e events) = Some e.
Proof.
  induction events as [|[k e'] rest IH]; cbn.
  - now rewrite String.eqb_refl.
  - destruct (String.eqb_spec k name) as [->|Hne]; cbn.
    + now rewrite String.eqb_refl.
    + apply String.eqb_neq in Hne. now rewrite Hne.
Qed.

Lemma get_set_ne name k e events :
  k <> name -> Dir.get k (Dir.set name e events) = Dir.get k events.
Proof.
  intros Hk. induction events as [|[k0 e'] rest IH]; cbn.
  - apply not_eq_sym, String.eqb_neq in Hk. now rewrite Hk.
  - destruct (String.eqb_spec k0 name) as [->|Hne]; cbn.
    + apply not_eq_sym, String.eqb_neq in Hk. now rewrite Hk.
    + now rewrite IH.
Qed.

Lemma get_Some_key name e events :
  Dir.get name events = Some e -> name ∈ Dir.keys events.
Proof.
  intros Hg. destruct (decide (name ∈ Dir.keys events)) as [|Hn]; [assumption|].
  apply DirFacts.get_None in Hn. congruence.
Qed.

End DirectoryCalls.

(** X5.  [add_event] is idempotent and only ever appends: when a call
    returns the name [k], the directory it leaves is the old one, followed
    by at most one new event, and in it both the same call and a call with
    [k] itself return [k] and change nothing. *)
Theorem add_event_idempotent :
  forall events name events' k,
    add_event events name = (events', Returned k) ->
    (exists tail, events' = events ++ tail /\ (length tail <= 1)%nat)
    /\ k ∈ Dir.keys events'
    /\ add_event events' name = (events', Returned k)
    /\ add_event events' k = (events', Returned k).
Proof.
  intros events name events' k Hcall.
  destruct (add_event_cases events name) as
    [[Hin Heq]|[Hn [(x & _ & Heq)|[(k' & Hscan & Heq)|[Hscan Heq]]]]];
    rewrite Heq in Hcall; try discriminate; injection Hcall as <- <-.
  - split; [exists []; split; [now rewrite app_nil_r | cbn; lia]|].
    split; [assumption|]. now rewrite Heq.
  - pose proof (scan_aliases_key _ _ _ Hscan) as Hk.
    split; [exists []; split; [now rewrite app_nil_r | cbn; lia]|].
    split; [assumption|]. split; [assumption|].
    now apply add_event_known.
  - assert (Hk : name ∈ Dir.keys (events ++ [(name, created name)])).
    { unfold Dir.keys. rewrite map_app. apply elem_of_app. right. now left. }
    split; [exists [(name, created name)]; split; [reflexivity | cbn; lia]|].
    split; [assumption|]. split; now apply add_event_known.
Qed.

Lemma add_event_idempotent_witness :
  let events := [("SN1987A", set_aliases ["SN1987A"; "1987A"]
                               (new_event "SN1987A"))] in
  add_event events "1987A" = (events, Returned "SN1987A")
  /\ add_event events "SN1987A" = (events, Returned "SN1987A").
Proof.
  intros events.
  assert (Hcall : add_event events "1987A" = (events, Returned "SN1987A"))
    by reflexivity.
  split; [exact Hcall|].
  exact (proj2 (proj2 (proj2
           (add_event_idempotent events "1987A" events "SN1987A" Hcall)))).
Defined.

(** X6.  For an event of the directory, [add_alias] returns, the alias is
    among the aliases of the event afterwards, the aliases it had come
    first and in their order, no other event and no key changes, and the
    same call once more changes nothing. *)
Theorem add_alias_registers :
  forall events name alias e,
    Dir.get name events = Some e ->
    let events' := fst (add_alias events name alias) in
    snd (add_alias events name alias) = Returned tt
    /\ (exists e' t,
          Dir.get name events' = Some e' /\ alias ∈ aliases_of e'
          /\ aliases_of e' = aliases_of e ++ t)
    /\ (forall k, k <> name -> Dir.get k events' = Dir.get k events)
    /\ Dir.keys events' = Dir.keys events
    /\ add_alias events' name alias = (events', Returned tt).
Proof.
  intros events name alias e Hget events'. subst events'.
  pose proof (get_Some_key _ _ _ Hget) as Hkey.
  destruct (ev_aliases e) as [l|] eqn:Hl;
    [destruct (PyStr.mem alias l) eqn:Hm|].
  - assert (Heq : add_alias events name alias = (events, Returned tt))
      by (unfold add_alias; now rewrite Hget, Hl, Hm).
    rewrite Heq. cbn [fst snd].
    split; [reflexivity|]. split; [|split; [|split]]; try reflexivity;
      [|assumption].
    exists e, []. split; [assumption|].
    rewrite app_nil_r, (aliases_of_Some _ _ Hl).
    split; [now apply mem_true | reflexivity].
  - assert (Heq : add_alias events name alias
                  = (Dir.set name (set_aliases (l ++ [alias]) e) events,
                     Returned tt))
      by (unfold add_alias; now rewrite Hget, Hl, Hm).
    rewrite Heq. cbn [fst snd].
    split; [reflexivity|]. split; [|split; [|split]].
    + exists (set_aliases (l ++ [alias]) e), [alias].
      split; [apply get_set_eq|]. rewrite (aliases_of_Some _ _ Hl).
      split; [|reflexivity]. apply elem_of_app. right. now left.
    + intros k Hk. now apply get_set_ne.
    + now apply DirFacts.keys_set_present.
    + unfold add_alias. rewrite get_set_eq. cbn [ev_aliases set_aliases].
      assert (Hin : PyStr.mem alias (l ++ [alias]) = true).
      { apply mem_true, elem_of_app. right. now left. }
      now rewrite Hin.
  - assert (Heq : add_alias events name alias
                  = (Dir.set name (set_aliases [alias] e) events, Returned tt))
      by (unfold add_alias; now rewrite Hget, Hl).
    rewrite Heq. cbn [fst snd].
    split; [reflexivity|]. split; [|split; [|split]].
    + exists (set_aliases [alias] e), [alias].
      split; [apply get_set_eq|]. unfold aliases_of. rewrite Hl.
      cbn [ev_aliases set_aliases].
      split; [now left | reflexivity].
    + intros k Hk. now apply get_set_ne.
    + now apply DirFacts.keys_set_present.
    + unfold add_alias. rewrite get_set_eq. cbn [ev_aliases set_aliases].
      assert (Hin : PyStr.mem alias [alias] = true)
        by (apply mem_true; now left).
      now rewrite Hin.
Qed.

Lemma add_alias_registers_witness :
  let events := [("SN1987A", created "SN1987A")] in
  Dir.get "SN1987A" events = Some (created "SN1987A")
  /\ add_alias (fst (add_alias events "SN1987A" "1987A")) "SN1987A" "1987A"
     = (fst (add_alias events "SN1987A" "1987A"), Returned tt).
Proof.
  intros events.
  assert (Hget : Dir.get "SN1987A" events = Some (created "SN1987A"))
    by reflexivity.
  split; [exact Hget|].
  exact (proj2 (proj2 (proj2 (proj2
           (add_alias_registers events "SN1987A" "1987A" _ Hget))))).
Defined.

(** ** [add_quanta], call after call *)

Section AddQuantaCalls.
Context `{PyNum}.

(** A call is stopped by a guard, and then changes nothing, or gets to the
    two loops. *)
Lemma add_quanta_guarded ev quanta value source frb error :
  accepted quanta value error
  \/ exists o, add_quanta ev quanta value source frb error = (ev, o).
Proof.
  unfold accepted, blank_value, malformed_error, dropped_velocity, add_quanta.
  destruct (PyStr.truthy quanta) eqn:Hq; cbn [negb]; [|right; eauto].
  cbv zeta.
  destruct (negb (PyStr.truthy (PyStr.strip value))
            || String.eqb (PyStr.strip value) "--"
            || String.eqb (PyStr.strip value) "-") eqn:Hb; [right; eauto|].
  destruct (PyStr.truthy (PyStr.strip error)
            && (negb (is_number (PyStr.strip error))
                || float_ltb (PyStr.strip error) "0.")) eqn:He;
    [right; eauto|].
  destruct ((String.eqb quanta "hvel" || String.eqb quanta "redshift")
            && negb (is_number value)) eqn:Hd; [right; eauto|].
  left. apply truthy_true in Hq. auto.
Qed.

Lemma kept_or_yields serror newsig ct :
  kept serror newsig ct = false -> yields serror newsig ct = true.
Proof.
  unfold kept, yields. destruct (q_error ct) as [e|].
  - now intros ->%negb_false_iff.
  - destruct (PyStr.truthy serror); [reflexivity|]. cbn.
    intros Hle%Nat.leb_gt. apply Nat.leb_le. lia.
Qed.

Lemma filter_kept_all serror newsig cts :
  existsb (yields serror newsig) cts = false ->
  filter (fun ct => kept serror newsig ct) cts = cts.
Proof.
  induction cts as [|c cts IH]; [reflexivity|]. cbn [existsb].
  intros [Hc Hcts]%orb_false_iff.
  rewrite filter_cons_True, IH; [reflexivity | assumption |].
  apply Is_true_true. destruct (kept serror newsig c) eqn:Hk; [reflexivity|].
  apply kept_or_yields in Hk. congruence.
Qed.

(** What a call does to the quantity lists, by cases. *)
Lemma add_quanta_shapes ev quanta value source frb error :
  (exists o, add_quanta ev quanta value source frb error = (ev, o))
  \/ (exists cts i ct ctsrc,
        ev !! quanta = Some cts /\ cts !! i = Some ct
        /\ q_source ct = Some ctsrc
        /\ add_quanta ev quanta value source frb error
           = (<[quanta := <[i := with_source ct ctsrc source error]> cts]> ev,
              Returned tt))
  \/ (exists cts cts',
        ev !! quanta = Some cts
        /\ (forall r, r ∈ cts -> q_value r <> norm_value quanta value)
        /\ (cts' = cts ++ [quantaentry quanta value source error]
            \/ cts' = better_list quanta value source error cts)
        /\ add_quanta ev quanta value source frb error
           = (<[quanta := cts']> ev, Returned tt))
  \/ (ev !! quanta = None
      /\ add_quanta ev quanta value source frb error
         = (<[quanta := [quantaentry quanta value source error]]> ev,
            Returned tt)).
Proof.
  destruct (add_quanta_guarded ev quanta value source frb error)
    as [Hacc|Hrej]; [|now left].
  rewrite (add_quanta_accepted ev quanta value source frb error Hacc).
  destruct (ev !! quanta) as [cts|] eqn:Hev; [|right; right; right; now split].
  destruct (find_value (norm_value quanta value) 0 cts) as [[i ct]|] eqn:Hf.
  - destruct (PyStr.truthy source); [|left; eauto].
    destruct (q_source ct) as [ctsrc|] eqn:Hsrc; [|left; eauto].
    destruct (negb (PyStr.mem source (PyStr.split "," ctsrc)));
      [|left; eauto].
    right. left. exists cts, i, ct, ctsrc.
    apply find_value_Some in Hf as (_ & Hi & _). rewrite Nat.sub_0_r in Hi.
    repeat (split; [assumption|]).
    now rewrite (alter_lookup_insert _ _ _ _ Hev).
  - right. right. left.
    pose proof (proj1 (find_value_None _ _ _) Hf) as Hnone.
    destruct (frb || PyStr.mem quanta repbetterquanta).
    + exists cts, (better_list quanta value source error cts).
      split; [reflexivity|]. split; [assumption|]. split; [now right|].
      reflexivity.
    + exists cts, (cts ++ [quantaentry quanta value source error]).
      split; [reflexivity|]. split; [assumption|]. split; [now left|].
      reflexivity.
Qed.

Lemma quantaentry_fields quanta value source error :
  q_value (quantaentry quanta value source error) = norm_value quanta value
  /\ q_error (quantaentry quanta value source error) <> Some ""
  /\ q_source (quantaentry quanta value source error) <> Some "".
Proof.
  unfold quantaentry. cbn. split; [reflexivity|]. split.
  - destruct (PyStr.truthy (norm_error error)) eqn:Ht; [|discriminate].
    intros [= He]. rewrite He in Ht. discriminate.
  - destruct (PyStr.truthy source) eqn:Ht; [|discriminate].
    intros [= He]. rewrite He in Ht. discriminate.
Qed.

Lemma with_source_fields ct ctsrc source error :
  q_error ct <> Some "" ->
  q_value (with_source ct ctsrc source error) = q_value ct
  /\ q_error (with_source ct ctsrc source error) <> Some ""
  /\ q_source (with_source ct ctsrc source error) <> Some "".
Proof.
  intros Hct. unfold with_source. cbn. split; [reflexivity|]. split.
  - destruct (PyStr.truthy (norm_error error)) eqn:Ht; [|assumption].
    intros [= He]. rewrite He in Ht. discriminate.
  - intros [= He]. destruct ctsrc; discriminate.
Qed.

Lemma better_list_ok quanta value source error cts :
  cts <> [] -> NoDup (q_value <$> cts) ->
  (forall r, r ∈ cts -> q_value r <> norm_value quanta value) ->
  Forall (fun r => q_error r <> Some "" /\ q_source r <> Some "") cts ->
  better_list quanta value source error cts <> []
  /\ NoDup (q_value <$> better_list quanta value source error cts)
  /\ Forall (fun r => q_error r <> Some "" /\ q_source r <> Some "")
       (better_list quanta value source error cts).
Proof.
  intros Hne Hnd Hnew Hall. unfold better_list.
  set (serror := norm_error error).
  set (newsig := get_sig_digits (norm_value quanta value)).
  pose proof (quantaentry_fields quanta value source error)
    as (Hv & He & Hs).
  assert (Hsub : filter (fun ct => kept serror newsig ct) cts
                 `sublist_of` cts) by apply sublist_filter.
  split; [|split].
  - destruct (existsb (yields serror newsig) cts) eqn:Hex.
    + intros Heq. apply app_eq_nil in Heq as [_ Heq]. discriminate.
    + now rewrite app_nil_r, filter_kept_all.
  - rewrite fmap_app. apply NoDup_app. split; [|split].
    + eapply sublist_NoDup; [exact Hnd|]. now apply fmap_sublist.
    + intros v (r & -> & Hr)%list_elem_of_fmap Hin.
      apply list_elem_of_filter in Hr as [_ Hr].
      destruct (existsb (yields serror newsig) cts);
        [|now apply elem_of_nil in Hin].
      apply list_elem_of_singleton in Hin.
      apply (Hnew r Hr). now rewrite Hin, Hv.
    + destruct (existsb (yields serror newsig) cts);
        [apply NoDup_singleton | apply NoDup_nil_2].
  - apply Forall_app. split.
    + rewrite Forall_forall in Hall. apply Forall_forall.
      intros r [_ Hr]%list_elem_of_filter. now apply Hall.
    + destruct (existsb (yields serror newsig) cts);
        [apply Forall_singleton; now split | apply Forall_nil_2].
Qed.

End AddQuantaCalls.

(** X7.  A call of [add_quanta] for one quantity leaves the lists of all
    other quantities as they were; a call that raises changes nothing at
    all; and a quantity that the event has is never deleted. *)
Theorem add_quanta_frame `{PyNum} :
  forall ev quanta value source forcereplacebetter error,
    let r := add_quanta ev quanta value source forcereplacebetter error in
    (forall k, k <> quanta -> fst r !! k = ev !! k)
    /\ (raises (snd r) -> fst r = ev)
    /\ (forall k, is_Some (ev !! k) -> is_Some (fst r !! k)).
Proof.
  intros ev quanta value source frb error r. subst r.
  assert (Hins : forall (l : list quantum),
             (forall k, k <> quanta -> <[quanta := l]> ev !! k = ev !! k)
             /\ (forall k, is_Some (ev !! k) ->
                           is_Some (<[quanta := l]> ev !! k))).
  { intros l. unfold quantities in *. split.
    - intros k Hk. rewrite lookup_insert_ne by congruence. reflexivity.
    - intros k Hk. destruct (decide (quanta = k)) as [<-|Hne].
      + rewrite lookup_insert_eq. eauto.
      + rewrite lookup_insert_ne by assumption. assumption. }
  destruct (add_quanta_shapes ev quanta value source frb error)
    as [[o ->]|[(cts & i & ct & ctsrc & Hev & _ & _ & ->)
               |[(cts & cts' & Hev & _ & _ & ->)|[Hev ->]]]];
    cbn [fst snd raises].
  - repeat split; auto.
  - destruct (Hins (<[i := with_source ct ctsrc source error]> cts)).
    split; [|split]; [assumption | contradiction | assumption].
  - destruct (Hins cts').
    split; [|split]; [assumption | contradiction | assumption].
  - destruct (Hins [quantaentry quanta value source error]).
    split; [|split]; [assumption | contradiction | assumption].
Qed.

(** X8.  [add_quanta] keeps the quantity lists well formed: if no list of
    the event is empty, no two records of a list have the same value and no
    stored error or source is the empty string, then the same holds after
    any call, whatever its arguments and whether it returns or raises. *)
Theorem add_quanta_keeps_ok `{PyNum} :
  forall ev quanta value source forcereplacebetter error,
    quanta_ok ev ->
    quanta_ok (fst (add_quanta ev quanta value source forcereplacebetter error)).
Proof.
  intros ev quanta value source frb error Hok.
  unfold quanta_ok, quantities in *.
  destruct (add_quanta_shapes ev quanta value source frb error)
    as [[o ->]|[(cts & i & ct & ctsrc & Hev & Hi & Hsrc & ->)
               |[(cts & cts' & Hev & Hnew & Hcts' & ->)|[Hev ->]]]];
    cbn [fst]; [assumption| | |];
    intros k l Hk; unfold quantities in *;
    (destruct (decide (quanta = k)) as [<-|Hne];
     [rewrite lookup_insert_eq in Hk; injection Hk as <-
     |rewrite lookup_insert_ne in Hk by assumption; exact (Hok k l Hk)]).
  - destruct (Hok _ _ Hev) as (Hne & Hnd & Hall).
    assert (Hct : q_error ct <> Some "").
    { rewrite Forall_forall in Hall.
      apply (Hall ct). eapply list_elem_of_lookup_2. exact Hi. }
    pose proof (with_source_fields ct ctsrc source error Hct)
      as (Hv & He & Hs).
    split; [|split].
    + intros Heq. apply (f_equal length) in Heq.
      rewrite length_insert in Heq. destruct cts; [congruence | discriminate].
    + rewrite list_fmap_insert, Hv, list_insert_id; [assumption|].
      now rewrite list_lookup_fmap, Hi.
    + apply Forall_insert; [assumption | now split].
  - destruct (Hok _ _ Hev) as (Hne & Hnd & Hall).
    pose proof (quantaentry_fields quanta value source error)
      as (Hv & He & Hs).
    destruct Hcts' as [->| ->]; [|now apply better_list_ok].
    split; [|split].
    + intros Heq. apply app_eq_nil in Heq as [_ Heq]. discriminate.
    + rewrite fmap_app. apply NoDup_app. split; [assumption|].
      split; [|apply NoDup_singleton].
      intros v (r & -> & Hr)%list_elem_of_fmap Hin.
      apply list_elem_of_singleton in Hin.
      apply (Hnew r Hr). now rewrite Hin, Hv.
    + apply Forall_app. split; [assumption|].
      apply Forall_singleton. now split.
  - pose proof (quantaentry_fields quanta value source error)
      as (Hv & He & Hs).
    split; [discriminate|]. split; [apply NoDup_singleton|].
    apply Forall_singleton. now split.
Qed.

Lemma add_quanta_keeps_ok_witness :
  let ev : quantities :=
    {[ "redshift" := [Quantum "0.04" None (Some "1")] ]} in
  quanta_ok ev
  /\ quanta_ok (fst (add_quanta (H := DecimalLiterals.pynum)
                       ev "redshift" "0.045" "2" false "0.001")).
Proof.
  intros ev.
  assert (Hok : quanta_ok ev).
  { intros k cts [<- <-]%lookup_singleton_Some.
    split; [discriminate|]. split; [apply NoDup_singleton|].
    apply Forall_singleton. split; discriminate. }
  split; [exact Hok|].
  exact (add_quanta_keeps_ok (H := DecimalLiterals.pynum)
           ev "redshift" "0.045" "2" false "0.001" Hok).
Defined.

(** ** Lists of sources separated by commas *)

Section Commas.

Lemma string_app_cons c a b : String c a +:+ b = String c (a +:+ b).
Proof. reflexivity. Qed.

Lemma string_app_nil_r a : a +:+ "" = a.
Proof.
  induction a as [|c a IH]; [reflexivity|]. now rewrite string_app_cons, IH.
Qed.

Lemma string_app_assoc a b c : (a +:+ b) +:+ c = a +:+ (b +:+ c).
Proof.
  induction a as [|x a IH]; [reflexivity|]. now rewrite !string_app_cons, IH.
Qed.

Lemma rev_app_app s acc :
  String.rev_app s acc = String.rev_app s "" +:+ acc.
Proof.
  revert acc. induction s as [|a s IH]; intros acc; [reflexivity|].
  cbn [String.rev_app]. rewrite (IH (String a acc)), (IH (String a "")).
  now rewrite string_app_assoc.
Qed.

Lemma rev_cons c s : String.rev (String c s) = String.rev s +:+ String c "".
Proof. unfold String.rev. cbn [String.rev_app]. apply rev_app_app. Qed.

Lemma split_go_no_sep (sep : ascii) s cur :
  PyText.contains (PyText.char sep) s = false ->
  PyStr.split_go sep cur s = [String.rev cur +:+ s].
Proof.
  revert cur. induction s as [|c s IH]; intros cur.
  - intros _. cbn [PyStr.split_go]. now rewrite string_app_nil_r.
  - rewrite contains_char_cons. intros [Hc Hs]%orb_false_iff.
    cbn [PyStr.split_go]. rewrite Ascii.eqb_sym, Hc, (IH _ Hs).
    now rewrite rev_cons, string_app_assoc.
Qed.

(** A string without the separator is the only field of itself. *)
Lemma split_no_sep (sep : ascii) s :
  PyText.contains (PyText.char sep) s = false -> PyStr.split sep s = [s].
Proof. intros Hs. unfold PyStr.split. now rewrite split_go_no_sep. Qed.

Lemma split_go_last (sep : ascii) a s cur :
  PyText.contains (PyText.char sep) s = false ->
  s ∈ PyStr.split_go sep cur (a +:+ String sep s).
Proof.
  revert cur. induction a as [|c a IH]; intros cur Hs.
  - change ("" +:+ String sep s) with (String sep s). cbn [PyStr.split_go].
    rewrite Ascii.eqb_refl, (split_go_no_sep _ _ _ Hs). right. left.
  - rewrite string_app_cons. cbn [PyStr.split_go].
    destruct (Ascii.eqb c sep); [right|]; now apply IH.
Qed.

Lemma find_value_app_last v i0 l x :
  (forall r, r ∈ l -> q_value r <> v) -> q_value x = v ->
  find_value v i0 (l ++ [x]) = Some ((i0 + length l)%nat, x).
Proof.
  revert i0. induction l as [|c l IH]; intros i0 Hl Hx; cbn [app find_value].
  - apply String.eqb_eq in Hx. rewrite Hx. cbn. now rewrite Nat.add_0_r.
  - assert (Hc : String.eqb (q_value c) v = false)
      by (apply String.eqb_neq, Hl; now left).
    rewrite Hc, IH; [|intros r Hr; apply Hl; now right | assumption].
    cbn [length]. do 2 f_equal. lia.
Qed.

Lemma find_value_insert v cts i0 i ct ct' :
  find_value v i0 cts = Some (i, ct) -> q_value ct' = v ->
  find_value v i0 (<[(i - i0)%nat := ct']> cts) = Some (i, ct').
Proof.
  revert i0. induction cts as [|c cts IH]; intros i0; cbn [find_value];
    [discriminate|].
  destruct (String.eqb (q_value c) v) eqn:E.
  - intros [= <- <-] Hv. rewrite Nat.sub_diag. simpl.
    apply String.eqb_eq in Hv. now rewrite Hv.
  - intros Hf Hv. pose proof (find_value_Some _ _ _ _ _ Hf) as (Hle & _).
    replace (i - i0)%nat with (S (i - S i0)) by lia. simpl.
    rewrite E. now apply IH.
Qed.

End Commas.

Section AddQuantaTwice.
Context `{PyNum}.

(** A call whose value is there with its source changes nothing. *)
Lemma add_quanta_found ev quanta value source frb error cts i ct :
  accepted quanta value error -> ev !! quanta = Some cts ->
  find_value (norm_value quanta value) 0 cts = Some (i, ct) ->
  (source <> "" ->
   exists ctsrc, q_source ct = Some ctsrc /\ source ∈ PyStr.split "," ctsrc) ->
  add_quanta ev quanta value source frb error = (ev, Returned tt).
Proof.
  intros Hacc Hev Hf Hsrc.
  rewrite (add_quanta_accepted ev quanta value source frb error Hacc).
  rewrite Hev, Hf.
  destruct (PyStr.truthy source) eqn:Ht; [|reflexivity].
  apply truthy_true in Ht. destruct (Hsrc Ht) as (ctsrc & -> & Hin%mem_true).
  now rewrite Hin.
Qed.

End AddQuantaTwice.

(** X9.  For a "prefer-better" quantity and a candidate whose value is new
    to the list: when the candidate states an error that is below the error
    of every record that has one, the candidate replaces the whole,
    non-empty, list; when every record has an error that the error of the
    candidate is not below, the list stays as it is and the candidate is
    dropped, which is also what happens on a list that is empty. *)
Theorem add_quanta_better_error `{PyNum} :
  forall ev quanta value source forcereplacebetter error cts,
    accepted quanta value error ->
    forcereplacebetter || PyStr.mem quanta repbetterquanta = true ->
    ev !! quanta = Some cts ->
    (forall r, r ∈ cts -> q_value r <> norm_value quanta value) ->
    (norm_error error <> "" -> cts <> [] ->
     (forall r e, r ∈ cts -> q_error r = Some e ->
                  float_ltb (norm_error error) e = true) ->
     add_quanta ev quanta value source forcereplacebetter error
     = (<[quanta := [quantaentry quanta value source error]]> ev, Returned tt))
    /\ ((forall r, r ∈ cts ->
                   exists e, q_error r = Some e
                             /\ float_ltb (norm_error error) e = false) ->
        add_quanta ev quanta value source forcereplacebetter error
        = (ev, Returned tt)).
Proof.
  intros ev quanta value source frb error cts Hacc Hkind Hev Hnew.
  rewrite (add_quanta_accepted ev quanta value source frb error Hacc).
  rewrite Hev, (proj2 (find_value_None _ _ 0%nat) Hnew), Hkind.
  set (serror := norm_error error).
  set (newsig := get_sig_digits (norm_value quanta value)).
  split.
  - intros Hse%truthy_true Hne Hlt.
    assert (Hy : forall r, r ∈ cts -> yields serror newsig r = true).
    { intros r Hr. unfold yields. destruct (q_error r) as [e|] eqn:He.
      - now rewrite Hse, (Hlt r e Hr He).
      - now rewrite Hse. }
    assert (Hk : filter (fun ct => kept serror newsig ct) cts = []).
    { clear -Hy Hse. induction cts as [|c cts IH]; [reflexivity|].
      rewrite filter_cons_False.
      - apply IH. intros r Hr. apply Hy. now right.
      - intros Hk%Is_true_true.
        assert (Hyc : yields serror newsig c = true) by (apply Hy; now left).
        unfold kept in Hk. unfold yields in Hyc.
        destruct (q_error c) as [e|].
        + rewrite Hyc in Hk. discriminate.
        + rewrite Hse in Hk. discriminate. }
    rewrite Hk.
    destruct cts as [|c cts]; [congruence|].
    cbn [existsb]. rewrite (Hy c) by now left. reflexivity.
  - intros Hall.
    assert (Hex : existsb (yields serror newsig) cts = false).
    { apply not_true_is_false. intros (r & Hr & Hy)%existsb_exists.
      apply list_elem_of_In in Hr. destruct (Hall r Hr) as (e & He & Hlt).
      unfold yields in Hy. rewrite He, Hlt, andb_false_r in Hy.
      discriminate. }
    rewrite Hex, app_nil_r, (filter_kept_all _ _ _ Hex).
    unfold quantities in *. now rewrite insert_id.
Qed.

Lemma add_quanta_better_error_witness :
  let ev : quantities :=
    {[ "redshift" := [Quantum "0.04" (Some "0.01") (Some "1");
                      Quantum "0.05" None (Some "2")] ]} in
  accepted (H := DecimalLiterals.pynum) "redshift" "0.045" "0.001"
  /\ add_quanta (H := DecimalLiterals.pynum)
       ev "redshift" "0.045" "3" false "0.001"
     = (<["redshift" := [Quantum "0.045" (Some "0.001") (Some "3")]]> ev,
        Returned tt).
Proof.
  intros ev.
  assert (Hacc : accepted (H := DecimalLiterals.pynum)
                   "redshift" "0.045" "0.001")
    by (repeat split; [discriminate | reflexivity..]).
  assert (Hkind : false || PyStr.mem "redshift" repbetterquanta = true)
    by reflexivity.
  assert (Hev : ev !! "redshift"
                = Some [Quantum "0.04" (Some "0.01") (Some "1");
                        Quantum "0.05" None (Some "2")]) by reflexivity.
  assert (Hnew : forall r,
             r ∈ [Quantum "0.04" (Some "0.01") (Some "1");
                  Quantum "0.05" None (Some "2")] ->
             q_value r
             <> norm_value (H := DecimalLiterals.pynum) "redshift" "0.045").
  { intros r Hr.
    repeat (apply elem_of_cons in Hr as [->|Hr]; [discriminate|]).
    now apply elem_of_nil in Hr. }
  assert (Hlt : forall r e,
             r ∈ [Quantum "0.04" (Some "0.01") (Some "1");
                  Quantum "0.05" None (Some "2")] ->
             q_error r = Some e ->
             float_ltb (PyNum := DecimalLiterals.pynum)
               (norm_error (H := DecimalLiterals.pynum) "0.001") e = true).
  { intros r e Hr.
    repeat (apply elem_of_cons in Hr as [->|Hr];
            [cbn [q_error]; intros [= <-]; reflexivity || discriminate|]).
    now apply elem_of_nil in Hr. }
  split; [exact Hacc|].
  destruct (add_quanta_better_error (H := DecimalLiterals.pynum)
              ev "redshift" "0.045" "3" false "0.001" _
              Hacc Hkind Hev Hnew) as [Hbetter _].
  apply Hbetter; [discriminate | discriminate | exact Hlt].
Defined.

(** X10.  With a source that holds no comma, a call of [add_quanta] made a
    second time with the same arguments does what the first did to the
    caller and changes nothing: the value is found, with the source among
    the sources of its record. *)
Theorem add_quanta_twice `{PyNum} :
  forall ev quanta value source forcereplacebetter error,
    PyText.contains "," source = false ->
    let r := add_quanta ev quanta value source forcereplacebetter error in
    add_quanta (fst r) quanta value source forcereplacebetter error
    = (fst r, snd r).
Proof.
  intros ev quanta value source frb error Hs r. subst r.
  change "," with (PyText.char ",") in Hs.
  destruct (add_quanta_guarded ev quanta value source frb error)
    as [Hacc|[o Ho]]; [|rewrite Ho; exact Ho].
  set (qe := quantaentry quanta value source error).
  assert (Hqe : source <> "" ->
                exists ctsrc, q_source qe = Some ctsrc
                              /\ source ∈ PyStr.split "," ctsrc).
  { intros Ht%truthy_true. exists source. unfold qe, quantaentry. cbn.
    rewrite Ht. split; [reflexivity|].
    rewrite (split_no_sep _ _ Hs). now left. }
  assert (Hlast : forall l,
             (forall r, r ∈ l -> q_value r <> norm_value quanta value) ->
             add_quanta (<[quanta := l ++ [qe]]> ev)
               quanta value source frb error
             = (<[quanta := l ++ [qe]]> ev, Returned tt)).
  { intros l Hl.
    apply (add_quanta_found _ _ _ _ _ _ (l ++ [qe]) (0 + length l)%nat qe);
      [assumption | | now apply find_value_app_last | assumption].
    unfold quantities. apply lookup_insert_eq. }
  pose proof (add_quanta_accepted ev quanta value source frb error Hacc)
    as Heq.
  destruct (ev !! quanta) as [cts|] eqn:Hev.
  - destruct (find_value (norm_value quanta value) 0 cts) as [[i ct]|] eqn:Hf.
    + destruct (PyStr.truthy source) eqn:Ht; [|rewrite Heq; exact Heq].
      destruct (q_source ct) as [ctsrc|] eqn:Hsrc; [|rewrite Heq; exact Heq].
      destruct (PyStr.mem source (PyStr.split "," ctsrc)) eqn:Hm;
        cbn [negb] in Heq; [rewrite Heq; exact Heq|].
      rewrite (alter_lookup_insert _ _ _ _ Hev) in Heq.
      rewrite Heq. cbn [fst snd].
      pose proof (find_value_Some _ _ _ _ _ Hf) as (_ & _ & Hv & _).
      pose proof (find_value_insert _ _ _ _ _
                    (with_source ct ctsrc source error) Hf Hv) as Hf'.
      rewrite Nat.sub_0_r in Hf'.
      apply (add_quanta_found _ _ _ _ _ _
               (<[i := with_source ct ctsrc source error]> cts) i
               (with_source ct ctsrc source error) Hacc);
        [unfold quantities; apply lookup_insert_eq | exact Hf' |].
      intros _. exists (ctsrc +:+ "," +:+ source). split; [reflexivity|].
      unfold PyStr.split. now apply split_go_last.
    + pose proof (proj1 (find_value_None _ _ _) Hf) as Hnew.
      destruct (frb || PyStr.mem quanta repbetterquanta).
      * rewrite Heq. cbn [fst snd].
        destruct (existsb _ cts) eqn:Hex.
        -- apply Hlast. intros r [_ Hr]%list_elem_of_filter. now apply Hnew.
        -- rewrite app_nil_r, (filter_kept_all _ _ _ Hex) in Heq |- *.
           unfold quantities in *.
           rewrite insert_id in Heq |- * by assumption. exact Heq.
      * rewrite Heq. cbn [fst snd]. now apply Hlast.
  - rewrite Heq. cbn [fst snd]. apply (Hlast []).
    intros r Hr. now apply elem_of_nil in Hr.
Qed.

Lemma add_quanta_twice_witness :
  let ev : quantities := {[ "host" := [Quantum "M31" None (Some "1")] ]} in
  PyText.contains "," "2" = false
  /\ add_quanta (H := DecimalLiterals.pynum)
       (fst (add_quanta (H := DecimalLiterals.pynum)
               ev "host" "NGC224" "2" false ""))
       "host" "NGC224" "2" false ""
     = (<["host" := [Quantum "M31" None (Some "1");
                     Quantum "NGC 224" None (Some "2")]]> ev, Returned tt).
Proof.
  intros ev.
  assert (Hs : PyText.contains "," "2" = false) by reflexivity.
  split; [exact Hs|].
  exact (add_quanta_twice (H := DecimalLiterals.pynum)
           ev "host" "NGC224" "2" false "" Hs).
Defined.

(** ** The claimed types *)

Section ClaimedTypes.

Lemma claimedtype_rep_found reps s :
  (exists l, (claimedtype_rep reps s, l) ∈ reps /\ s ∈ l)
  \/ (claimedtype_rep reps s = s
      /\ forall rep l, (rep, l) ∈ reps -> s ∉ l).
Proof.
  induction reps as [|[rep0 l0] reps IH]; cbn [claimedtype_rep].
  - right. split; [reflexivity|]. intros rep l Hin.
    now apply elem_of_nil in Hin.
  - destruct (PyStr.mem s l0) eqn:Hm.
    + left. exists l0. split; [now left | now apply mem_true].
    + apply mem_false in Hm. destruct IH as [(l & Hin & Hs)|[Heq Hnone]].
      * left. exists l. split; [now right | assumption].
      * right. split; [assumption|].
        intros rep l [[= -> ->]|Hin]%elem_of_cons; [assumption | eauto].
Qed.

Lemma claimedtype_rep_absent reps s :
  (forall rep l, (rep, l) ∈ reps -> s ∉ l) -> claimedtype_rep reps s = s.
Proof.
  intros Hnone.
  destruct (claimedtype_rep_found reps s) as [(l & Hin & Hs)|[Heq _]];
    [|assumption].
  destruct (Hnone _ _ Hin Hs).
Qed.

(** Every spelling of the table stands for one type. *)
Lemma typereps_variant rep l s :
  (rep, l) ∈ typereps -> s ∈ l -> claimedtype_rep typereps s = rep.
Proof.
  unfold typereps. intros Hin Hs.
  repeat (apply elem_of_cons in Hin as [[= -> ->]|Hin];
          [repeat (apply elem_of_cons in Hs as [->|Hs];
                   [vm_compute; reflexivity|]);
           now apply elem_of_nil in Hs|]).
  now apply elem_of_nil in Hin.
Qed.

End ClaimedTypes.

(** X11.  The type that [add_quanta] stores for a claimed type does not
    depend on the order in which the dictionary [typereps] is iterated; a
    spelling of the table is replaced by the name of its type, any other
    string is kept; and the names of the types, and therefore the stored
    values, are left as they are. *)
Theorem claimedtype_rep_canonical :
  forall svalue,
    let rep := claimedtype_rep typereps svalue in
    (forall reps, reps ≡ₚ typereps -> claimedtype_rep reps svalue = rep)
    /\ (rep = svalue \/ rep ∈ (fst <$> typereps))
    /\ (svalue ∈ (fst <$> typereps) -> rep = svalue)
    /\ claimedtype_rep typereps rep = rep.
Proof.
  intros svalue rep. subst rep.
  assert (Hkeys : forall k, k ∈ (fst <$> typereps) ->
                            claimedtype_rep typereps k = k).
  { intros k Hk. unfold typereps in Hk. cbn [fmap list_fmap fst] in Hk.
    repeat (apply elem_of_cons in Hk as [->|Hk]; [vm_compute; reflexivity|]).
    now apply elem_of_nil in Hk. }
  assert (Hcases : claimedtype_rep typereps svalue = svalue
                   \/ claimedtype_rep typereps svalue ∈ (fst <$> typereps)).
  { destruct (claimedtype_rep_found typereps svalue)
      as [(l & Hin & _)|[Heq _]]; [right | now left].
    apply list_elem_of_fmap. now exists (claimedtype_rep typereps svalue, l). }
  split; [|split; [|split]].
  - intros reps Hperm.
    destruct (claimedtype_rep_found reps svalue) as [(l & Hin & Hs)|[Heq Hnone]].
    + apply (proj1 (elem_of_Permutation_proper _ _ _ Hperm)) in Hin.
      symmetry. now apply (typereps_variant _ l).
    + rewrite Heq. symmetry. apply claimedtype_rep_absent.
      intros r l Hin. apply (Hnone r l).
      now apply (proj2 (elem_of_Permutation_proper _ _ _ Hperm)).
  - exact Hcases.
  - apply Hkeys.
  - destruct Hcases as [Heq|Hin]; [now rewrite !Heq | now apply Hkeys].
Qed.

Lemma claimedtype_rep_canonical_witness :
  rev typereps ≡ₚ typereps
  /\ claimedtype_rep (rev typereps) "Ia-pec" = "Ia P".
Proof.
  assert (Hperm : rev typereps ≡ₚ typereps)
    by (symmetry; apply Permutation_rev).
  split; [exact Hperm|].
  exact (proj1 (claimedtype_rep_canonical "Ia-pec") (rev typereps) Hperm).
Defined.

(** ** [get_source], call after call *)

Section SourceCalls.

Lemma find_citation_elem reference l x :
  find_citation reference l = Some x -> x ∈ l /\ c_name x = reference.
Proof.
  induction l as [|c l IH]; cbn [find_citation]; [discriminate|].
  destruct (String.eqb_spec (c_name c) reference) as [Heq|Hne].
  - intros [= <-]. split; [now left | assumption].
  - intros Hf. destruct (IH Hf) as [Hin Hname]. split; [now right | assumption].
Qed.

Lemma find_citation_app_last reference l new :
  find_citation reference l = None -> c_name new = reference ->
  find_citation reference (l ++ [new]) = Some new.
Proof.
  induction l as [|c l IH]; cbn [app find_citation]; intros Hf Hname.
  - apply String.eqb_eq in Hname. now rewrite Hname.
  - destruct (String.eqb (c_name c) reference); [discriminate | auto].
Qed.

End SourceCalls.

(** X12.  A call of [get_source] raises exactly when it names neither a
    reference nor a bibcode, and then changes nothing.  Otherwise it keeps
    the citations that were there, in their order, and appends at most one;
    the alias it returns is the alias of a citation of the event whose name
    is the reference (the bibcode when no reference is given); and the same
    call made again returns the same alias and changes nothing. *)
Theorem get_source_round_trip :
  forall sources c,
    let r := get_source_call sources c in
    (raises (snd r) <-> effective_name c = "")
    /\ (raises (snd r) -> fst r = sources)
    /\ (exists t, citations (fst r) = citations sources ++ t
                  /\ (length t <= 1)%nat)
    /\ (forall a,
          snd r = Returned a ->
          (exists x, x ∈ citations (fst r) /\ c_alias x = a
                     /\ c_name x = effective_name c)
          /\ get_source_call (fst r) c = (fst r, Returned a)).
Proof.
  intros sources c r. subst r.
  destruct (get_source_call_cases sources c) as
    [[He Hr]|[(Hn & x & Hf & Hr)|(Hn & Hf & new & Hname & Halias & Hr)]].
  - rewrite Hr. cbn [fst snd raises]. split; [tauto|]. split; [reflexivity|].
    split; [exists []; split; [now rewrite app_nil_r | cbn; lia]|].
    intros a [=].
  - pose proof Hr as Hr'. rewrite Hr. cbn [fst snd raises].
    split; [tauto|]. split; [reflexivity|].
    split; [exists []; split; [now rewrite app_nil_r | cbn; lia]|].
    intros a [= <-]. split; [|exact Hr'].
    destruct (find_citation_elem _ _ _ Hf) as [Hin Hx]. now exists x.
  - rewrite Hr. cbn [fst snd raises]. split; [tauto|].
    split; [contradiction|].
    split; [exists [new]; split; [reflexivity | cbn; lia]|].
    intros a [= <-]. split.
    + exists new. split; [|now split].
      cbn. apply elem_of_app. right. now left.
    + pose proof (find_citation_app_last _ _ _ Hf Hname) as Hf'.
      destruct (get_source_call_cases (Some (citations sources ++ [new])) c)
        as [[He _]|[(_ & y & Hfy & ->)|(_ & Hnone & _)]].
      * contradiction.
      * cbn [citations default from_option id] in Hfy.
        rewrite Hf' in Hfy. now injection Hfy as <-.
      * cbn [citations default from_option id] in Hnone.
        rewrite Hf' in Hnone. discriminate.
Qed.

(** ** The extreme points of the light curve *)

Section Extremes.

Lemma map_fmap {A B} (f : A -> B) l : map f l = f <$> l.
Proof. induction l as [|x l IH]; [reflexivity|]. cbn. now rewrite IH. Qed.

Lemma index_min_go_bound {A} (lt : A -> A -> bool) best besti i l :
  (besti < i)%nat -> (index_min_go lt best besti i l < i + length l)%nat.
Proof.
  revert best besti i. induction l as [|x l IH]; intros best besti i Hlt;
    cbn [index_min_go length]; [lia|].
  destruct (lt x best).
  - specialize (IH x i (S i)). lia.
  - specialize (IH best besti (S i)). lia.
Qed.

(** The scans of a non-empty list find a point. *)
Lemma index_min_lookup {A B} (lt : B -> B -> bool) (f : A -> B) ph :
  ph <> [] ->
  exists i p, index_min lt (map f ph) = Some i /\ ph !! i = Some p.
Proof.
  destruct ph as [|p0 ph]; [congruence|]. intros _. cbn [map index_min].
  pose proof (index_min_go_bound lt (f p0) 0 1 (map f ph)) as Hb.
  rewrite length_map in Hb.
  destruct (lookup_lt_is_Some_2 (p0 :: ph)
              (index_min_go lt (f p0) 0 1 (map f ph))) as [p Hp];
    [cbn [length]; lia|].
  eauto.
Qed.

Lemma index_min_least {A B} (lt : B -> B -> bool) (f : A -> B) ph :
  (forall x, lt x x = false) ->
  (forall x y z, lt x y = true -> lt y z = true -> lt x z = true) ->
  ph <> [] ->
  exists i p, index_min lt (map f ph) = Some i /\ ph !! i = Some p
              /\ forall q, q ∈ ph -> lt (f q) (f p) = false.
Proof.
  intros Hirr Htrans Hne.
  destruct (index_min_lookup lt f ph Hne) as (i & p & Hi & Hp).
  exists i, p. split; [assumption|]. split; [assumption|].
  destruct ph as [|p0 ph]; [congruence|]. cbn [map index_min] in Hi.
  injection Hi as <-.
  destruct (index_min_go_least lt Hirr Htrans [f p0] (map f ph) (f p0) 0%nat)
    as (b & Hb & Hleast); [reflexivity | |].
  { intros x ->%list_elem_of_singleton. apply Hirr. }
  change ([f p0] ++ map f ph) with (map f (p0 :: ph)) in Hb, Hleast.
  change (length [f p0]) with 1%nat in Hb.
  rewrite (map_fmap f (p0 :: ph)) in Hb, Hleast.
  rewrite list_lookup_fmap, Hp in Hb. injection Hb as <-.
  intros q Hq. apply Hleast. now apply list_elem_of_fmap_2.
Qed.

Lemma string_compare_refl s : String.compare s s = Eq.
Proof.
  induction s as [|a s IH]; [reflexivity|]. cbn [String.compare].
  unfold Ascii.compare. now rewrite N.compare_refl.
Qed.

Lemma string_ltb_irrefl s : String.ltb s s = false.
Proof. unfold String.ltb. now rewrite string_compare_refl. Qed.

Lemma string_ltb_trans a b c :
  String.ltb a b = true -> String.ltb b c = true -> String.ltb a c = true.
Proof.
  unfold String.ltb. intros Hab Hbc.
  destruct (String.compare a b) eqn:Eab; try discriminate.
  destruct (String.compare b c) eqn:Ebc; try discriminate.
  assert (Hle : String.le a c).
  { transitivity b; unfold String.le, String.leb;
      [rewrite Eab | rewrite Ebc]; exact I. }
  unfold String.le, String.leb in Hle.
  destruct (String.compare a c) eqn:Eac; [|reflexivity|destruct Hle].
  apply String.compare_eq_iff in Eac. subst c.
  rewrite String.compare_antisym, Eab in Ebc. discriminate.
Qed.



(** The scan with a comparison that may raise finds a position of the
    list, when it returns, *)
Lemma index_min_go_raising_bound {A} (lt : A -> A -> outcome bool)
  best besti i l j :
  (besti < i)%nat -> index_min_go_raising lt best besti i l = Returned j ->
  (j < i + length l)%nat.
Proof.
  revert best besti i. induction l as [|x l IH]; intros best besti i Hlt;
    cbn [index_min_go_raising length].
  - intros [= <-]. lia.
  - destruct (lt x best) as [[]|e]; [| |discriminate]; intros Hj.
    + specialize (IH x i (S i) ltac:(lia) Hj). lia.
    + specialize (IH best besti (S i) ltac:(lia) Hj). lia.
Qed.


End Extremes.

Section MaxLight.
Context `{PyNum} `{PyAstro}.

(** On a list that is not empty the selection raises or finds a point. *)
Lemma max_light_point_found e ph :
  ev_photometry e = Some ph -> ph <> [] ->
  (exists x, max_light_point e = Raised x)
  \/ exists p, max_light_point e = Returned (Some p) /\ p ∈ ph.
Proof.
  intros Hph Hne. unfold max_light_point. rewrite Hph.
  destruct ph as [|p0 ph]; [congruence|]. cbn [map index_min_raising].
  destruct (index_min_go_raising decimal_ltb (p_abmag p0) 0 1
              (map p_abmag ph)) as [i|x] eqn:Hi; [|left; eauto].
  right. apply index_min_go_raising_bound in Hi; [|lia].
  rewrite length_map in Hi.
  destruct (lookup_lt_is_Some_2 (p0 :: ph) i) as [p Hp]; [cbn [length]; lia|].
  exists p. rewrite Hp. split; [reflexivity|].
  eapply list_elem_of_lookup_2. exact Hp.
Qed.

Lemma first_light_point_found e ph :
  ev_photometry e = Some ph -> ph <> [] ->
  exists p, first_light_point e = Returned (Some p) /\ p ∈ ph
            /\ forall q, q ∈ ph -> String.ltb (p_time q) (p_time p) = false.
Proof.
  intros Hph Hne. unfold first_light_point. rewrite Hph.
  destruct (index_min_least String.ltb p_time ph
              string_ltb_irrefl string_ltb_trans Hne)
    as (i & p & -> & Hp & Hleast).
  exists p. rewrite Hp. split; [reflexivity|].
  split; [eapply list_elem_of_lookup_2; exact Hp | assumption].
Qed.

End MaxLight.



(** X14.  [get_first_light] returns nothing for an event without
    photometry and raises [ValueError] on an empty photometry list; on a
    list that is not empty it selects a point of the list whose time, as a
    string, no time string of the list is below, and returns the date of
    that point, or raises what the conversion of the time raises. *)
Theorem get_first_light_least `{PyAstro} :
  forall e,
    (ev_photometry e = None -> get_first_light e = Returned None)
    /\ (ev_photometry e = Some [] -> raises (get_first_light e))
    /\ (forall ph,
          ev_photometry e = Some ph -> ph <> [] ->
          exists p,
            first_light_point e = Returned (Some p) /\ p ∈ ph
            /\ (forall q, q ∈ ph ->
                          String.ltb (p_time q) (p_time p) = false)
            /\ get_first_light e
               = match mjd_date (p_time p) with
                 | Returned d => Returned (Some d)
                 | Raised x => Raised x
                 end).
Proof.
  intros e. split; [|split].
  - unfold get_first_light, first_light_point. now intros ->.
  - unfold get_first_light, first_light_point. intros ->. exact I.
  - intros ph Hph Hne.
    destruct (first_light_point_found e ph Hph Hne) as (p & Hp & Hin & Hleast).
    exists p. split; [exact Hp|]. split; [exact Hin|].
    split; [exact Hleast|]. unfold get_first_light. now rewrite Hp.
Qed.

(** X15.  [set_first_max_light] changes nothing and returns on an event
    without photometry; it raises and changes nothing on an empty
    photometry list and when [get_max_light] raises.  When the magnitude of
    the maximum cannot be formatted it raises with the year, month and day
    of the maximum already written.  When it returns on a photometry list
    that is not empty, the seven date and magnitude fields are set.  In
    every case the name, the aliases, the sources, the quantities and the
    photometry of the event are as they were, and so is every field other
    than those seven. *)
Theorem set_first_max_light_edges `{PyNum} `{PyAstro} :
  forall e,
    let r := set_first_max_light e in
    (ev_photometry e = None -> r = (e, Returned tt))
    /\ (ev_photometry e = Some [] ->
        r = (e, Raised (ValueError "min() arg is an empty sequence")))
    /\ (forall x, get_max_light e = Raised x -> r = (e, Raised x))
    /\ (forall d mag x,
          get_max_light e = Returned (Some (d, mag)) ->
          pretty_num_decimal mag = Raised x ->
          r = (set_max_date d e, Raised x)
          /\ ev_scalars (fst r) !! "maxyear" = Some (fst (fst d))
          /\ ev_scalars (fst r) !! "maxappmag" = ev_scalars e !! "maxappmag")
    /\ (forall ph, ev_photometry e = Some ph -> ph <> [] ->
                   snd r = Returned tt ->
                   forall k,
                     k ∈ ["maxyear"; "maxmonth"; "maxday"; "maxappmag";
                          "discoveryear"; "discovermonth"; "discoverday"] ->
                     is_Some (ev_scalars (fst r) !! k))
    /\ (ev_name (fst r) = ev_name e /\ ev_aliases (fst r) = ev_aliases e
        /\ ev_sources (fst r) = ev_sources e /\ ev_quanta (fst r) = ev_quanta e
        /\ ev_photometry (fst r) = ev_photometry e)
    /\ (forall k,
          k ∉ ["maxyear"; "maxmonth"; "maxday"; "maxappmag";
               "discoveryear"; "discovermonth"; "discoverday"] ->
          ev_scalars (fst r) !! k = ev_scalars e !! k).
Proof.
  intros e r. subst r.
  assert (Hother : forall (k a : string) v (m : gmap string string),
             k ∉ ["maxyear"; "maxmonth"; "maxday"; "maxappmag";
                  "discoveryear"; "discovermonth"; "discoverday"] ->
             a ∈ ["maxyear"; "maxmonth"; "maxday"; "maxappmag";
                  "discoveryear"; "discovermonth"; "discoverday"] ->
             <[a := v]> m !! k = m !! k).
  { intros k a v m Hk Ha. apply lookup_insert_ne. now intros ->. }
  assert (Hin : forall a : string,
             In a ["maxyear"; "maxmonth"; "maxday"; "maxappmag";
                   "discoveryear"; "discovermonth"; "discoverday"] ->
             a ∈ ["maxyear"; "maxmonth"; "maxday"; "maxappmag";
                  "discoveryear"; "discovermonth"; "discoverday"])
    by (intros a; apply list_elem_of_In).
  (* the first half *)
  assert (Hhalf : forall e1 o,
             set_max_fields e = (e1, o) ->
             (ev_name e1 = ev_name e /\ ev_aliases e1 = ev_aliases e
              /\ ev_sources e1 = ev_sources e /\ ev_quanta e1 = ev_quanta e
              /\ ev_photometry e1 = ev_photometry e)
             /\ (forall k,
                   k ∉ ["maxyear"; "maxmonth"; "maxday"; "maxappmag";
                        "discoveryear"; "discovermonth"; "discoverday"] ->
                   ev_scalars e1 !! k = ev_scalars e !! k)
             /\ (forall k, is_Some (ev_scalars e !! k) ->
                           is_Some (ev_scalars e1 !! k))
             /\ (o = Returned tt ->
                 get_max_light e <> Returned None ->
                 forall k, k ∈ ["maxyear"; "maxmonth"; "maxday"; "maxappmag"] ->
                           is_Some (ev_scalars e1 !! k))).
  { intros e1 o He1.
    assert (Hkeep : forall (a : string) v (m : gmap string string) k,
               is_Some (m !! k) -> is_Some (<[a := v]> m !! k)).
    { intros a v m k Hk. destruct (decide (a = k)) as [->|Hne];
        [rewrite lookup_insert_eq; eauto
        |now rewrite lookup_insert_ne by assumption]. }
    destruct (set_max_fields_cases e)
      as [(x & _ & Heq)|[[Hnone Heq]|[(d & mag & x & _ & _ & Heq)
                                    |(d & mag & s & _ & _ & Heq)]]];
      rewrite Heq in He1; injection He1 as <- <-.
    - repeat split; auto; discriminate.
    - repeat split; auto. intros _ Hn. now destruct Hn.
    - destruct (set_max_date_frame d e) as (Hn & Ha & Hs & Hq & Hp & Hsc).
      split; [now repeat split|]. split; [|split; [|discriminate]].
      + intros k Hk. rewrite Hsc.
        rewrite !Hother by (assumption || (apply Hin; cbn; tauto)).
        reflexivity.
      + intros k Hk. rewrite Hsc. now repeat apply Hkeep.
    - destruct (set_max_date_frame d e) as (Hn & Ha & Hs & Hq & Hp & Hsc).
      split; [now repeat split|]. split; [|split].
      + intros k Hk. cbn [set_scalar ev_scalars]. rewrite Hsc.
        rewrite !Hother by (assumption || (apply Hin; cbn; tauto)).
        reflexivity.
      + intros k Hk. cbn [set_scalar ev_scalars]. rewrite Hsc.
        now repeat apply Hkeep.
      + intros _ _ k Hk. cbn [set_scalar ev_scalars]. rewrite Hsc.
        repeat (apply elem_of_cons in Hk as [->|Hk];
                [repeat (rewrite lookup_insert_eq
                         || rewrite lookup_insert_ne by discriminate); eauto|]).
        now apply elem_of_nil in Hk. }
  split; [|split; [|split; [|split; [|split]]]].
  - intros Hph. unfold set_first_max_light, set_max_fields, get_max_light,
      max_light_point. rewrite Hph.
    unfold get_first_light, first_light_point. now rewrite Hph.
  - intros Hph. unfold set_first_max_light, set_max_fields, get_max_light,
      max_light_point. now rewrite Hph.
  - intros x Hx. unfold set_first_max_light, set_max_fields. now rewrite Hx.
  - intros d mag x Hmax Hmag.
    assert (Hr : set_first_max_light e = (set_max_date d e, Raised x)).
    { unfold set_first_max_light, set_max_fields. now rewrite Hmax, Hmag. }
    rewrite Hr. cbn [fst]. split; [reflexivity|].
    destruct (set_max_date_frame d e) as (_ & _ & _ & _ & _ & ->).
    split.
    + rewrite lookup_insert_ne by discriminate.
      rewrite lookup_insert_ne by discriminate.
      now rewrite lookup_insert_eq.
    + now rewrite !lookup_insert_ne by discriminate.
  - intros ph Hph Hne. unfold set_first_max_light.
    destruct (set_max_fields e) as [e1 o] eqn:He1.
    destruct (Hhalf e1 o eq_refl) as ((_ & _ & _ & _ & Hp1) & _ & Hkeep & Hset).
    destruct o as [[]|x]; [|discriminate].
    destruct (first_light_point_found e1 ph) as (p & Hpt & _);
      [congruence | assumption|].
    unfold get_first_light. rewrite Hpt.
    destruct (mjd_date (p_time p)) as [d|x]; [|discriminate].
    intros _ k Hk. cbn [fst].
    destruct (set_discover_fields_frame d e1) as (_ & _ & _ & _ & _ & ->).
    assert (Hmaxset : forall k0,
               k0 ∈ ["maxyear"; "maxmonth"; "maxday"; "maxappmag"] ->
               is_Some (ev_scalars e1 !! k0)).
    { apply Hset; [reflexivity|]. unfold get_max_light.
      destruct (max_light_point_found e ph Hph Hne)
        as [[x ->]|(q & -> & _)]; [discriminate|].
      destruct (mjd_date (p_time q)); discriminate. }
    repeat (apply elem_of_cons in Hk as [->|Hk];
            [first
               [ repeat (rewrite lookup_insert_eq
                         || rewrite lookup_insert_ne by discriminate);
                 solve [eauto]
               | rewrite !lookup_insert_ne by discriminate;
                 apply Hmaxset; apply list_elem_of_In; cbn; tauto ]|]).
    now apply elem_of_nil in Hk.
  - unfold set_first_max_light.
    destruct (set_max_fields e) as [e1 o] eqn:He1.
    destruct (Hhalf e1 o eq_refl)
      as ((Hn & Ha & Hs & Hq & Hp) & Hsc & _ & _).
    assert (Hdone : forall e2 (o2 : outcome unit),
               (e2 = e1 \/ exists d, e2 = set_discover_fields d e1) ->
               (ev_name (fst (e2, o2)) = ev_name e
                /\ ev_aliases (fst (e2, o2)) = ev_aliases e
                /\ ev_sources (fst (e2, o2)) = ev_sources e
                /\ ev_quanta (fst (e2, o2)) = ev_quanta e
                /\ ev_photometry (fst (e2, o2)) = ev_photometry e)
               /\ (forall k,
                     k ∉ ["maxyear"; "maxmonth"; "maxday"; "maxappmag";
                          "discoveryear"; "discovermonth"; "discoverday"] ->
                     ev_scalars (fst (e2, o2)) !! k = ev_scalars e !! k)).
    { intros e2 o2 [->|[d ->]]; cbn [fst]; [now repeat split|].
      destruct (set_discover_fields_frame d e1)
        as (Hn2 & Ha2 & Hs2 & Hq2 & Hp2 & Hsc2).
      split; [repeat split; congruence|].
      intros k Hk. rewrite Hsc2.
      rewrite !Hother by (assumption || (apply Hin; cbn; tauto)).
      now apply Hsc. }
    destruct o as [[]|x]; [|apply Hdone; now left].
    destruct (get_first_light e1) as [[d|]|x]; apply Hdone;
      [right; eauto | now left | now left].
Qed.

(** ** The derivation, run again *)

Section DerivationAgain.
Context `{PyNum} `{PyAstro}.

Lemma derive_velocity_result q :
  fst (derive_velocity q) = q
  \/ (is_Some (fst (derive_velocity q) !! "redshift")
      /\ is_Some (fst (derive_velocity q) !! "hvel")).
Proof.
  assert (Hadd : forall kind other v cts,
             q !! kind = None -> q !! other = Some cts -> kind <> other ->
             fst (add_quanta q kind v "D" false "") = q
             \/ (is_Some (fst (add_quanta q kind v "D" false "") !! kind)
                 /\ is_Some (fst (add_quanta q kind v "D" false "") !! other))).
  { intros kind other v cts Hk Ho Hne.
    destruct (add_quanta_shapes q kind v "D" false "")
      as [[o ->]|[(l & i & ct & ctsrc & Hev & _)
                 |[(l & l' & Hev & _)|[_ ->]]]];
      [now left | unfold quantities in *; congruence
      | unfold quantities in *; congruence |].
    right. cbn [fst]. unfold quantities in *.
    rewrite lookup_insert_eq, lookup_insert_ne by assumption.
    rewrite Ho. eauto. }
  unfold derive_velocity.
  destruct (q !! "redshift") as [zs|] eqn:Hz;
    destruct (q !! "hvel") as [hvs|] eqn:Hh; try (now left).
  - destruct (best_sig zs) as [bestz bestsig].
    destruct (0 <? bestsig)%nat; [|now left].
    destruct (doppler_hvel bestz bestsig) as [v|x]; [|now left].
    destruct (Hadd "hvel" "redshift" v zs Hh Hz) as [Heq|[Hv Hr]];
      [discriminate | now left | now right].
  - destruct (best_sig hvs) as [besthv bestsig].
    destruct ((0 <? bestsig)%nat && is_number besthv); [|now left].
    destruct (doppler_redshift besthv bestsig) as [v|x]; [|now left].
    destruct (Hadd "redshift" "hvel" v hvs Hz Hh) as [Heq|[Hr Hv]];
      [discriminate | now left | now right].
Qed.

End DerivationAgain.

(** X16.  The derivation of a velocity or a redshift, run a second time,
    changes nothing: either the first run changed nothing, or the event has
    both quantities after it. *)
Theorem derive_velocity_idempotent `{PyNum} `{PyAstro} :
  forall q,
    fst (derive_velocity (fst (derive_velocity q))) = fst (derive_velocity q).
Proof.
  intros q.
  destruct (derive_velocity_result q) as [Heq|[[zs Hz] [hvs Hh]]].
  - now rewrite !Heq.
  - unfold derive_velocity at 1. now rewrite Hz, Hh.
Qed.

(** ** The catalogue: names, aliases and counts *)

Section CatalogNames.

Lemma entries_get_key name l :
  is_Some (entries_get name l) <-> name ∈ (fst <$> l).
Proof.
  induction l as [|[k e] l IH]; cbn [entries_get fmap list_fmap fst].
  - split; [intros [x Hx]; discriminate | intros Hin; now apply elem_of_nil in Hin].
  - destruct (String.eqb_spec k name) as [->|Hne].
    + split; [intros _; now left | eauto].
    + rewrite IH. split; [now right|].
      intros [Heq|Hin]%elem_of_cons; [congruence | assumption].
Qed.






Lemma scan_entries_found alias l name :
  scan_entries alias l = Some name ->
  is_Some (entries_get name l)
  /\ exists e, (name, e) ∈ l /\ alias ∈ ce_aliases e
               /\ forall d, ce_distinct_from e = Some d -> alias ∉ d.
Proof.
  induction l as [|[k e] l IH]; cbn [scan_entries entries_get]; [discriminate|].
  destruct (PyStr.mem alias (ce_aliases e)
            && match ce_distinct_from e with
               | Some d => negb (PyStr.mem alias d)
               | None => true
               end) eqn:Hc.
  - intros [= <-]. rewrite String.eqb_refl. split; [eauto|].
    apply andb_true_iff in Hc as [Hin Hd]. exists e.
    split; [now left|]. split; [now apply mem_true|].
    intros d Hdist. rewrite Hdist in Hd.
    now apply negb_true_iff, mem_false in Hd.
  - intros Hs. destruct (IH Hs) as (Hget & e' & Hin & Hrest). split.
    + destruct (String.eqb k name); [eauto | assumption].
    + exists e'. split; [now right | assumption].
Qed.

Lemma find_entry_name_of_alias_key c alias name :
  find_entry_name_of_alias c alias = Some name ->
  is_Some (entries_get name (cat_entries c)).
Proof.
  unfold find_entry_name_of_alias.
  destruct (cat_aliases c !! alias) as [n|]; [|discriminate].
  destruct (entries_get n (cat_entries c)) as [e|] eqn:Hn.
  - intros [= <-]. rewrite Hn. eauto.
  - intros Hs. now apply scan_entries_found in Hs as [Hget _].
Qed.

Lemma scan_preferred_found name l k :
  scan_preferred name l = Some k ->
  is_Some (entries_get k l)
  /\ exists e, (k, e) ∈ l /\ name ∈ ce_aliases e
               /\ (1 < length (ce_aliases e))%nat.
Proof.
  induction l as [|[k' e] l IH]; cbn [scan_preferred entries_get];
    [discriminate|].
  destruct ((1 <? length (ce_aliases e))%nat && PyStr.mem name (ce_aliases e))
    eqn:Hc.
  - intros [= <-]. rewrite String.eqb_refl. split; [eauto|].
    apply andb_true_iff in Hc as [Hlen Hin]. exists e.
    split; [now left|]. split; [now apply mem_true | now apply Nat.ltb_lt].
  - intros Hs. destruct (IH Hs) as (Hget & e' & Hin & Hrest). split.
    + destruct (String.eqb k' k); [eauto | assumption].
    + exists e'. split; [now right | assumption].
Qed.

Lemma count_entries_spec l full stub :
  count_entries l full stub
  = ((full + length (filter (fun p => ce_stub (snd p) = false) l))%nat,
     (stub + length (filter (fun p => ce_stub (snd p) = true) l))%nat).
Proof.
  revert full stub. induction l as [|[k e] l IH]; intros full stub;
    cbn [count_entries].
  - cbn. now rewrite !Nat.add_0_r.
  - destruct (ce_stub e) eqn:Hs; rewrite IH.
    + rewrite (filter_cons_True (fun p => ce_stub (snd p) = true)) by exact Hs.
      rewrite (filter_cons_False (fun p => ce_stub (snd p) = false))
        by (cbn; congruence).
      cbn [length]. f_equal. lia.
    + rewrite (filter_cons_False (fun p => ce_stub (snd p) = true))
        by (cbn; congruence).
      rewrite (filter_cons_True (fun p => ce_stub (snd p) = false)) by exact Hs.
      cbn [length]. f_equal. lia.
Qed.

End CatalogNames.

(** X17.  [find_entry_name_of_alias] answers [None] for an alias that the
    index [aliases] does not hold, whatever the entries list.  A name that
    it returns is a key of [entries]; it is the name that the index gives
    for the alias, or the name of an entry that lists the alias and does
    not declare itself distinct from it. *)
Theorem find_entry_name_of_alias_sound :
  forall c alias,
    (cat_aliases c !! alias = None -> find_entry_name_of_alias c alias = None)
    /\ (forall name,
          find_entry_name_of_alias c alias = Some name ->
          name ∈ (fst <$> cat_entries c)
          /\ (cat_aliases c !! alias = Some name
              \/ exists e,
                  (name, e) ∈ cat_entries c /\ alias ∈ ce_aliases e
                  /\ forall d, ce_distinct_from e = Some d -> alias ∉ d)).
Proof.
  intros c alias. split.
  - unfold find_entry_name_of_alias. now intros ->.
  - intros name Hf. split.
    + now apply entries_get_key, (find_entry_name_of_alias_key c alias).
    + unfold find_entry_name_of_alias in Hf.
      destruct (cat_aliases c !! alias) as [n|]; [|discriminate].
      destruct (entries_get n (cat_entries c)) as [e|].
      * injection Hf as <-. now left.
      * right. now apply scan_entries_found in Hf as [_ Hex].
Qed.


Section PreferredName.

(** The loop of [get_preferred_name] stops at the first entry with more
    than one alias that lists the name. *)
Lemma scan_preferred_first name l :
  match scan_preferred name l with
  | Some k =>
      exists before e after,
        l = before ++ (k, e) :: after
        /\ name ∈ ce_aliases e /\ (1 < length (ce_aliases e))%nat
        /\ forall k' e', (k', e') ∈ before ->
                         ~ (name ∈ ce_aliases e'
                            /\ (1 < length (ce_aliases e'))%nat)
  | None =>
      forall k e, (k, e) ∈ l ->
                  ~ (name ∈ ce_aliases e /\ (1 < length (ce_aliases e))%nat)
  end.
Proof.
  induction l as [|[k0 e0] l IH]; cbn [scan_preferred].
  - intros k e Hin. now apply elem_of_nil in Hin.
  - destruct ((1 <? length (ce_aliases e0))%nat
              && PyStr.mem name (ce_aliases e0)) eqn:Hc.
    + apply andb_true_iff in Hc as [Hlen%Nat.ltb_lt Hin%mem_true].
      exists [], e0, l. repeat split; auto.
      intros k' e' Hin'. now apply elem_of_nil in Hin'.
    + assert (Hno : ~ (name ∈ ce_aliases e0
                       /\ (1 < length (ce_aliases e0))%nat)).
      { intros [Hin%mem_true Hlen%Nat.ltb_lt]. now rewrite Hin, Hlen in Hc. }
      destruct (scan_preferred name l) as [k|].
      * destruct IH as (before & e & after & -> & Hin & Hlen & Hfirst).
        exists ((k0, e0) :: before), e, after. repeat split; auto.
        intros k' e' [[= -> ->]|Hin']%elem_of_cons; eauto.
      * intros k e [[= -> ->]|Hin]%elem_of_cons; eauto.
Qed.

End PreferredName.

(** X19.  [get_preferred_name] returns the name it is given when that name
    is an entry, and when it is no entry and no entry with more than one
    alias lists it.  When the name is no entry and some entry with more
    than one alias lists it, the name of the first such entry is returned,
    and the name is one that [entry_exists] accepts.  What is returned is
    preferred already. *)
Theorem get_preferred_name_idempotent :
  forall c name,
    let p := get_preferred_name c name in
    get_preferred_name c p = p
    /\ (name ∈ (fst <$> cat_entries c) -> p = name)
    /\ (name ∉ (fst <$> cat_entries c) ->
        (forall k e, (k, e) ∈ cat_entries c -> name ∈ ce_aliases e ->
                     (length (ce_aliases e) <= 1)%nat) ->
        p = name)
    /\ (name ∉ (fst <$> cat_entries c) ->
        (exists k e, (k, e) ∈ cat_entries c /\ name ∈ ce_aliases e
                     /\ (1 < length (ce_aliases e))%nat) ->
        p <> name
        /\ entry_exists c name = true
        /\ exists before e after,
            cat_entries c = before ++ (p, e) :: after
            /\ name ∈ ce_aliases e /\ (1 < length (ce_aliases e))%nat
            /\ forall k' e', (k', e') ∈ before ->
                             ~ (name ∈ ce_aliases e'
                                /\ (1 < length (ce_aliases e'))%nat)).
Proof.
  intros c name p. subst p.
  destruct (entries_get name (cat_entries c)) as [e|] eqn:Hn.
  - assert (Hp : get_preferred_name c name = name)
      by (unfold get_preferred_name; now rewrite Hn).
    assert (Hkey : name ∈ (fst <$> cat_entries c))
      by (apply entries_get_key; rewrite Hn; eauto).
    rewrite Hp. split; [exact Hp|]. split; [reflexivity|].
    split; intros Hnot; now destruct Hnot.
  - assert (Hnokey : name ∉ (fst <$> cat_entries c)).
    { intros Hin%entries_get_key. rewrite Hn in Hin.
      destruct Hin as [x Hx]. discriminate. }
    pose proof (scan_preferred_first name (cat_entries c)) as Hscan.
    destruct (scan_preferred name (cat_entries c)) as [k|] eqn:Hs.
    + assert (Hp : get_preferred_name c name = k)
        by (unfold get_preferred_name; now rewrite Hn, Hs).
      rewrite Hp.
      destruct Hscan as (before & e & after & Heq & Hin & Hlen & Hfirst).
      assert (Hk : (k, e) ∈ cat_entries c).
      { rewrite Heq. apply elem_of_app. right. now left. }
      assert (Hkkey : k ∈ (fst <$> cat_entries c)).
      { apply list_elem_of_fmap. now exists (k, e). }
      split; [|split; [|split]].
      * apply entries_get_key in Hkkey as [e' He'].
        unfold get_preferred_name. now rewrite He'.
      * intros Hin'. now destruct Hnokey.
      * intros _ Hshort. specialize (Hshort k e Hk Hin). lia.
      * intros _ _. split; [intros ->; now destruct Hnokey|]. split.
        -- unfold entry_exists. rewrite Hn. apply existsb_exists.
           exists (k, e). split; [now apply list_elem_of_In|].
           now apply mem_true.
        -- now exists before, e, after.
    + assert (Hp : get_preferred_name c name = name)
        by (unfold get_preferred_name; now rewrite Hn, Hs).
      rewrite Hp. split; [exact Hp|]. split; [reflexivity|].
      split; [reflexivity|].
      intros _ (k & e & Hin & Hal & Hlen). destruct (Hscan k e Hin).
      now split.
Qed.

Lemma get_preferred_name_idempotent_witness :
  let c := {| cat_entries :=
                [("SN1885A", CEntry false ["SN1885A"] None);
                 ("SN1987A", CEntry false ["SN1987A"; "1987A"] None)];
              cat_aliases := ∅ |} in
  ("1987A" ∉ (fst <$> cat_entries c))
  /\ get_preferred_name c "1987A" <> "1987A"
  /\ entry_exists c "1987A" = true.
Proof.
  intros c.
  assert (Hno : "1987A" ∉ (fst <$> cat_entries c)).
  { intros Hin%entries_get_key. destruct Hin as [x Hx]. discriminate. }
  split; [exact Hno|].
  destruct (get_preferred_name_idempotent c "1987A") as (_ & _ & _ & Hrep).
  destruct Hrep as (Hne & Hex & _); [exact Hno| |now split].
  exists "SN1987A", (CEntry false ["SN1987A"; "1987A"] None).
  split; [right; left|]. split; [right; left | cbn; lia].
Defined.

(** X20.  [count] returns the number of entries that are not stubs and the
    number of stubs; the two add up to the number of entries. *)
Theorem count_partition :
  forall c,
    fst (count c)
    = length (filter (fun p => ce_stub (snd p) = false) (cat_entries c))
    /\ snd (count c)
       = length (filter (fun p => ce_stub (snd p) = true) (cat_entries c))
    /\ (fst (count c) + snd (count c))%nat = length (cat_entries c).
Proof.
  intros c. unfold count. rewrite count_entries_spec. cbn [fst snd].
  split; [reflexivity|]. split; [reflexivity|].
  induction (cat_entries c) as [|[k e] l IH]; [reflexivity|].
  destruct (ce_stub e) eqn:Hs.
  - rewrite (filter_cons_True (fun p => ce_stub (snd p) = true)) by exact Hs.
    rewrite (filter_cons_False (fun p => ce_stub (snd p) = false))
      by (cbn; congruence).
    cbn [length]. lia.
  - rewrite (filter_cons_False (fun p => ce_stub (snd p) = true))
      by (cbn; congruence).
    rewrite (filter_cons_True (fun p => ce_stub (snd p) = false)) by exact Hs.
    cbn [length]. lia.
Qed.

(** ** Copying an entry: the sources and the items that have them *)

Section CopyReturns.
Context {entry : Type} `{EntryOps entry}.

Lemma collect_aliases_spec srcs acc :
  ((exists s, s ∈ srcs /\ s !! ALIAS = None)
   -> raises (collect_aliases srcs acc))
  /\ forall nsa,
      collect_aliases srcs acc = Returned nsa ->
      (forall s, s ∈ srcs -> is_Some (s !! ALIAS))
      /\ (forall a s,
            nsa !! a = Some s ->
            acc !! a = Some s
            \/ (s !! ALIAS = None
                /\ exists s0, s0 ∈ srcs /\ s0 !! ALIAS = Some a
                              /\ s = delete ALIAS s0))
      /\ (forall a, is_Some (acc !! a) -> is_Some (nsa !! a))
      /\ (forall s0 a, s0 ∈ srcs -> s0 !! ALIAS = Some a ->
                       is_Some (nsa !! a)).
Proof.
  revert acc. induction srcs as [|s srcs IH]; intros acc;
    cbn [collect_aliases].
  - split; [intros (s & Hs & _); now apply elem_of_nil in Hs|].
    intros nsa [= <-]. split; [intros s Hs; now apply elem_of_nil in Hs|].
    split; [now left|]. split; [auto|].
    intros s0 a Hs0. now apply elem_of_nil in Hs0.
  - destruct (s !! ALIAS) as [alias|] eqn:Hal.
    + destruct (IH (<[alias := delete ALIAS s]> acc)) as [Hr Hok]. split.
      * intros (s' & [->|Hs']%elem_of_cons & Hnone); [congruence|].
        apply Hr. now exists s'.
      * intros nsa Hnsa. destruct (Hok nsa Hnsa) as (Hall & Hfrom & Hacc & Hin).
        split; [|split; [|split]].
        -- intros s' [->|Hs']%elem_of_cons; [rewrite Hal; eauto | auto].
        -- intros a s' Ha. destruct (Hfrom a s' Ha) as [Hins|(Hp & s0 & Hs0 & Ha0 & ->)].
           ++ destruct (decide (alias = a)) as [<-|Hne].
              ** rewrite lookup_insert_eq in Hins. injection Hins as <-.
                 right. split; [apply lookup_delete_eq|].
                 exists s. split; [now left | now split].
              ** rewrite lookup_insert_ne in Hins by assumption. now left.
           ++ right. split; [assumption|]. exists s0.
              split; [now right | now split].
        -- intros a Ha. apply Hacc.
           destruct (decide (alias = a)) as [<-|Hne];
             [rewrite lookup_insert_eq; eauto
             |now rewrite lookup_insert_ne by assumption].
        -- intros s0 a [->|Hs0]%elem_of_cons Ha; [|eauto].
           apply Hacc. rewrite Hal in Ha. injection Ha as <-.
           rewrite lookup_insert_eq. eauto.
    + split; [intros _; exact I | discriminate].
Qed.

Section Total.
Hypothesis add_source_returns :
  forall d s, exists a, snd (add_source d s) = Returned a.
Hypothesis add_photometry_returns :
  forall d it, snd (add_photometry d it) = Returned tt.
Hypothesis add_spectrum_returns :
  forall d it, snd (add_spectrum d it) = Returned tt.
Hypothesis add_error_returns :
  forall d it, snd (add_error d it) = Returned tt.
Hypothesis add_quantity_returns :
  forall d key it, snd (add_quantity d key it) = Returned tt.

Lemma remap_sources_returns nsa sids dest nsid :
  (forall sid, sid ∈ sids -> is_Some (nsa !! sid)) ->
  exists l, snd (remap_sources nsa sids dest nsid) = Returned l.
Proof.
  revert dest nsid. induction sids as [|sid sids IH]; intros dest nsid Hall;
    cbn [remap_sources].
  - now exists nsid.
  - destruct (Hall sid) as [src ->]; [now left|].
    destruct (add_source_returns dest src) as [a Ha].
    destruct (add_source dest src) as [dest' o]. cbn [snd] in Ha. subst o.
    apply IH. intros sid' Hs. apply Hall. now right.
Qed.

Lemma copy_item_returns nsa key it dest :
  sourced nsa it -> snd (copy_item nsa key it dest) = Returned tt.
Proof.
  intros (src & Hsrc & Hall). unfold copy_item. rewrite Hsrc.
  destruct (remap_sources_returns nsa (PyStr.split "," src) dest [] Hall)
    as [l Hl].
  destruct (remap_sources nsa (PyStr.split "," src) dest []) as [dest' o].
  cbn [snd] in Hl. subst o.
  destruct (String.eqb key PHOTOMETRY); [apply add_photometry_returns|].
  destruct (String.eqb key SPECTRA); [apply add_spectrum_returns|].
  destruct (String.eqb key ERRORS); [apply add_error_returns|].
  apply add_quantity_returns.
Qed.

Lemma copy_items_returns nsa key items dest :
  (forall it, it ∈ items -> sourced nsa it) ->
  snd (copy_items nsa key items dest) = Returned tt.
Proof.
  revert dest. induction items as [|it items IH]; intros dest Hall;
    cbn [copy_items]; [reflexivity|].
  pose proof (copy_item_returns nsa key it dest) as Hit.
  destruct (copy_item nsa key it dest) as [dest' o]. cbn [snd] in Hit.
  rewrite Hit by (apply Hall; now left).
  apply IH. intros it' Hin. apply Hall. now right.
Qed.

Lemma copy_keys_returns nsa fe dest :
  (forall key items, (key, items) ∈ fe -> exists b, no_source key = Returned b) ->
  (forall key items it,
      (key, items) ∈ fe -> no_source key = Returned false -> it ∈ items ->
      sourced nsa it) ->
  snd (copy_keys nsa fe dest) = Returned tt.
Proof.
  revert dest. induction fe as [|[key items] fe IH]; intros dest Hkeys Hall;
    cbn [copy_keys]; [reflexivity|].
  assert (Hkeys' : forall key' items',
             (key', items') ∈ fe -> exists b, no_source key' = Returned b).
  { intros key' items' Hin. apply (Hkeys key' items'). now right. }
  assert (Hrest : forall key' items' it,
             (key', items') ∈ fe -> no_source key' = Returned false ->
             it ∈ items' -> sourced nsa it).
  { intros key' items' it Hin. apply Hall. now right. }
  destruct (Hkeys key items) as [b Hb]; [now left|]. rewrite Hb.
  destruct b; [now apply IH|].
  pose proof (copy_items_returns nsa key items dest) as Hits.
  destruct (copy_items nsa key items dest) as [dest' o]. cbn [snd] in Hits.
  rewrite Hits; [now apply IH|].
  intros it Hin. apply (Hall key items); [now left | assumption | assumption].
Qed.

End Total.

End CopyReturns.

(** X21.  The sources of [fromentry] are collected under their aliases with
    the key [ALIAS] popped: the collection raises [KeyError] exactly when
    some source has no alias; otherwise every alias of a source is a key of
    the collection, and what is kept under an alias is a source of
    [fromentry] of that alias, without its key [ALIAS].  An entry without
    sources gives the empty collection. *)
Theorem collected_sources {entry : Type} `{EntryOps entry} :
  forall fe,
    (entry_get SOURCES fe = None -> collected fe = Returned ∅)
    /\ (forall srcs,
          entry_get SOURCES fe = Some srcs ->
          ((exists s, s ∈ srcs /\ s !! ALIAS = None) <-> raises (collected fe))
          /\ forall nsa,
              collected fe = Returned nsa ->
              (forall a s,
                  nsa !! a = Some s ->
                  s !! ALIAS = None
                  /\ exists s0, s0 ∈ srcs /\ s0 !! ALIAS = Some a
                                /\ s = delete ALIAS s0)
              /\ (forall s0 a, s0 ∈ srcs -> s0 !! ALIAS = Some a ->
                               is_Some (nsa !! a))).
Proof.
  intros fe. unfold collected. split; [now intros ->|].
  intros srcs ->.
  destruct (collect_aliases_spec srcs ∅) as [Hr Hok]. split.
  - split; [exact Hr|].
    destruct (collect_aliases srcs ∅) as [nsa|x] eqn:Hc; [intros []|].
    intros _. clear Hr Hok. revert Hc. generalize (∅ : gmap string item).
    induction srcs as [|s srcs IH]; intros acc; cbn [collect_aliases];
      [discriminate|].
    destruct (s !! ALIAS) as [alias|] eqn:Hal.
    + intros Hc. destruct (IH _ Hc) as (s' & Hs' & Hnone).
      exists s'. split; [now right | assumption].
    + intros _. exists s. split; [now left | assumption].
  - intros nsa Hnsa. destruct (Hok nsa Hnsa) as (_ & Hfrom & _ & Hin).
    split; [|exact Hin].
    intros a s Ha. destruct (Hfrom a s Ha) as [Hempty|Hs]; [|exact Hs].
    rewrite lookup_empty in Hempty. discriminate.
Qed.

(** X22.  [copy_entry_to_entry] raises [KeyError] when [fromentry] or
    the destination has no name.  When both have one, the sources of
    [fromentry] are collected, every key of [fromentry] is the name of a
    key, every item under a key that takes sources has a ['source'] whose
    aliases are all among the collected ones, and the methods of the
    destination entry do not raise, it returns. *)
Theorem copy_entry_sourced_returns {entry : Type} `{EntryOps entry} :
  forall fe dest nsa,
    (forall d s, exists a, snd (add_source d s) = Returned a) ->
    (forall d it, snd (add_photometry d it) = Returned tt) ->
    (forall d it, snd (add_spectrum d it) = Returned tt) ->
    (forall d it, snd (add_error d it) = Returned tt) ->
    (forall d key it, snd (add_quantity d key it) = Returned tt) ->
    (entry_get NAME fe = None \/ has_name dest = false ->
     copy_entry_to_entry fe dest = (dest, Raised (KeyError NAME)))
    /\ (is_Some (entry_get NAME fe) -> has_name dest = true ->
        collected fe = Returned nsa ->
        (forall key items,
            (key, items) ∈ fe -> exists b, no_source key = Returned b) ->
        (forall key items it,
            (key, items) ∈ fe -> no_source key = Returned false ->
            it ∈ items -> sourced nsa it) ->
        snd (copy_entry_to_entry fe dest) = Returned tt).
Proof.
  intros fe dest nsa Hsrc Hph Hsp Her Hq. unfold copy_entry_to_entry. split.
  - intros [->|Hd]; [reflexivity|].
    destruct (entry_get NAME fe); [|reflexivity]. now rewrite Hd.
  - intros [v ->] -> Hnsa Hkeys Hall. cbn [negb]. rewrite Hnsa.
    now apply copy_keys_returns.
Qed.

Lemma copy_entry_sourced_returns_witness :
  let fe : from_entry :=
    [("name", []);
     ("sources", [{[ "alias" := "1"; "name" := "Smith 2001" ]}]);
     ("redshift", [{[ "value" := "0.045"; "source" := "1" ]}])] in
  let nsa : gmap string item := {[ "1" := {[ "name" := "Smith 2001" ]} ]} in
  is_Some (entry_get (NAME (EntryOps := EntryLog.ops)) fe)
  /\ collected (H := EntryLog.ops) fe = Returned nsa
  /\ snd (copy_entry_to_entry (H := EntryLog.ops) fe []) = Returned tt.
Proof.
  intros fe nsa.
  assert (Hname : is_Some (entry_get (NAME (EntryOps := EntryLog.ops)) fe))
    by (eexists; reflexivity).
  assert (Hnsa : collected (H := EntryLog.ops) fe = Returned nsa)
    by (vm_compute; reflexivity).
  split; [exact Hname|]. split; [exact Hnsa|].
  apply (proj2 (copy_entry_sourced_returns (H := EntryLog.ops) fe [] nsa
                  ltac:(intros d s; eexists; reflexivity)
                  ltac:(reflexivity) ltac:(reflexivity) ltac:(reflexivity)
                  ltac:(reflexivity)));
    [exact Hname | reflexivity | exact Hnsa | |].
  - intros key items _. eexists. reflexivity.
  - intros key items it Hin Hns Hit.
    apply elem_of_cons in Hin as [[= -> ->]|Hin]; [discriminate|].
    apply elem_of_cons in Hin as [[= -> ->]|Hin]; [discriminate|].
    apply elem_of_cons in Hin as [[= -> ->]|Hin];
      [|now apply elem_of_nil in Hin].
    apply list_elem_of_singleton in Hit as ->.
    exists "1". split; [reflexivity|].
    intros sid ->%list_elem_of_singleton.
    now exists {[ "name" := "Smith 2001" ]}.
Defined.

(** ** [single_spaces] *)

Section Words.

Lemma rev_app_no_space s acc :
  no_space (String.rev_app s acc) = no_space s && no_space acc.
Proof.
  revert acc. induction s as [|c s IH]; intros acc; [reflexivity|].
  cbn [String.rev_app no_space]. rewrite IH. cbn [no_space].
  destruct (PyStr.is_space c), (no_space s), (no_space acc); reflexivity.
Qed.

Lemma rev_app_nonempty s acc : acc <> "" -> String.rev_app s acc <> "".
Proof.
  revert acc. induction s as [|c s IH]; intros acc Hacc; [assumption|].
  cbn [String.rev_app]. now apply IH.
Qed.

Lemma rev_app_rev_app w a b :
  String.rev_app (String.rev_app w a) b = String.rev_app a (w +:+ b).
Proof.
  revert a. induction w as [|c w IH]; intros a; [reflexivity|].
  cbn [String.rev_app]. now rewrite IH.
Qed.

Lemma rev_rev_app w : String.rev (String.rev_app w "") = w.
Proof.
  unfold String.rev. rewrite rev_app_rev_app. cbn [String.rev_app].
  apply string_app_nil_r.
Qed.

Lemma rev_word acc : is_word acc -> is_word (String.rev acc).
Proof.
  intros [Hne Hns]. unfold String.rev. split.
  - destruct acc as [|c acc]; [congruence|]. cbn [String.rev_app].
    now apply rev_app_nonempty.
  - now rewrite rev_app_no_space, Hns.
Qed.

(** What [split()] returns are words. *)
Lemma words_go_words s cur :
  (forall acc, cur = Some acc -> is_word acc) ->
  forall w, w ∈ PyStr.words_go cur s -> is_word w.
Proof.
  revert cur. induction s as [|c s IH]; intros cur Hcur w;
    cbn [PyStr.words_go].
  - destruct cur as [acc|]; [|intros Hw; now apply elem_of_nil in Hw].
    intros ->%list_elem_of_singleton. now apply rev_word, Hcur.
  - destruct (PyStr.is_space c) eqn:Hc.
    + destruct cur as [acc|].
      * intros [->|Hw]%elem_of_cons; [now apply rev_word, Hcur|].
        now apply (IH None).
      * now apply (IH None).
    + apply IH. intros acc [= <-]. split; [discriminate|].
      cbn [no_space]. rewrite Hc. cbn [negb andb].
      destruct cur as [acc|]; [now apply Hcur | reflexivity].
Qed.

Lemma words_go_word w acc s :
  no_space w = true ->
  PyStr.words_go (Some acc) (w +:+ s)
  = PyStr.words_go (Some (String.rev_app w acc)) s.
Proof.
  revert acc. induction w as [|c w IH]; intros acc; [reflexivity|].
  cbn [no_space]. intros [Hc Hw]%andb_true_iff.
  apply negb_true_iff in Hc.
  rewrite string_app_cons. cbn [PyStr.words_go String.rev_app].
  rewrite Hc. cbn [default from_option id]. now apply IH.
Qed.

Lemma words_go_first_word w s :
  is_word w ->
  PyStr.words_go None (w +:+ s)
  = PyStr.words_go (Some (String.rev_app w "")) s.
Proof.
  intros [Hne Hns]. destruct w as [|c w]; [congruence|].
  cbn [no_space] in Hns. apply andb_true_iff in Hns as [Hc Hw].
  apply negb_true_iff in Hc.
  rewrite string_app_cons. cbn [PyStr.words_go String.rev_app].
  rewrite Hc. cbn [default from_option id]. now apply words_go_word.
Qed.

(** Splitting what [' '.join] made of words gives the words back. *)
Lemma words_join ws :
  Forall is_word ws -> PyStr.words (PyStr.join " " ws) = ws.
Proof.
  unfold PyStr.words, PyStr.join.
  induction ws as [|w ws IH]; intros Hall; [reflexivity|].
  apply Forall_cons in Hall as [Hw Hws].
  destruct ws as [|w2 ws].
  - cbn [String.concat]. rewrite <- (string_app_nil_r w) at 1.
    rewrite (words_go_first_word _ _ Hw). cbn [PyStr.words_go].
    now rewrite rev_rev_app.
  - change (String.concat " " (w :: w2 :: ws))
      with (w +:+ String " " (String.concat " " (w2 :: ws))).
    rewrite (words_go_first_word _ _ Hw). cbn [PyStr.words_go].
    change (PyStr.is_space " ") with true. cbn iota.
    now rewrite rev_rev_app, (IH Hws).
Qed.

Lemma filter_truthy_words ws :
  Forall is_word ws -> List.filter PyStr.truthy ws = ws.
Proof.
  induction ws as [|w ws IH]; intros Hall; [reflexivity|].
  apply Forall_cons in Hall as [[Hne _] Hws]. cbn [List.filter].
  apply truthy_true in Hne. now rewrite Hne, IH.
Qed.

End Words.

(** X23.  [single_spaces] joins the words of the string by single spaces:
    the filter on the fields of [split()] removes nothing, since no field is
    empty.  The words of the result are the words of the string, and the
    function applied to its result changes nothing. *)
Theorem single_spaces_idempotent :
  forall s,
    single_spaces s = PyStr.join " " (PyStr.words s)
    /\ (forall w, w ∈ PyStr.words s -> w <> "" /\ no_space w = true)
    /\ PyStr.words (single_spaces s) = PyStr.words s
    /\ single_spaces (single_spaces s) = single_spaces s.
Proof.
  intros s.
  assert (Hwords : Forall is_word (PyStr.words s)).
  { apply Forall_forall. intros w Hw.
    apply (words_go_words s None); [discriminate | exact Hw]. }
  assert (Hjoin : single_spaces s = PyStr.join " " (PyStr.words s))
    by (unfold single_spaces; now rewrite filter_truthy_words).
  split; [exact Hjoin|]. split; [|split].
  - intros w Hw. rewrite Forall_forall in Hwords. now apply Hwords.
  - rewrite Hjoin. now apply words_join.
  - unfold single_spaces at 1. rewrite Hjoin at 1.
    rewrite (words_join _ Hwords), (filter_truthy_words _ Hwords).
    now rewrite Hjoin.
Qed.

(** ** [add_spectrum] *)

Section Spectra.

Lemma zip2_rows a b :
  length (zip2 a b) = Nat.min (length a) (length b)
  /\ Forall (fun row => length row = 2%nat) (zip2 a b).
Proof.
  revert b. induction a as [|x a IH]; intros b; [now split|].
  destruct b as [|y b]; [now split|].
  destruct (IH b) as [Hlen Hrows]. cbn [zip2 length Nat.min]. split.
  - now rewrite Hlen.
  - now constructor.
Qed.

Lemma zip3_rows a b c :
  length (zip3 a b c)
  = Nat.min (length a) (Nat.min (length b) (length c))
  /\ Forall (fun row => length row = 3%nat) (zip3 a b c).
Proof.
  revert b c. induction a as [|x a IH]; intros b c; [now split|].
  destruct b as [|y b]; [now split|].
  destruct c as [|z c]; [split; [cbn; lia | constructor]|].
  destruct (IH b c) as [Hlen Hrows]. cbn [zip3 length Nat.min]. split.
  - now rewrite Hlen.
  - now constructor.
Qed.

End Spectra.

(** X24.  [add_spectrum] never changes or removes a stored spectrum and
    appends at most one.  Without a wave unit or a flux unit it appends
    nothing; when it raises, on an error that is not a number, it has
    changed nothing.  A spectrum that it appends has the two units of the
    call, and its data are cut to the shortest column: rows of a wavelength
    and a flux, as many as the shorter of the two lists, when it has no
    error unit, and rows of three, as many as the shortest of the three
    lists, when it has one, which is then the error unit of the call. *)
Theorem add_spectrum_appends `{PyNum} :
  forall spectra waveunit fluxunit wavelengths fluxes timeunit time instrument
         deredshifted dereddened errorunit errors source snr observer reducer,
    let r := Script.add_spectrum spectra waveunit fluxunit wavelengths fluxes
               timeunit time instrument deredshifted dereddened errorunit
               errors source snr observer reducer in
    (waveunit = "" \/ fluxunit = "" -> r = (spectra, Returned tt))
    /\ (raises (snd r) -> fst r = spectra)
    /\ exists t,
        default [] (fst r) = default [] spectra ++ t /\ (length t <= 1)%nat
        /\ (t = [] -> fst r = spectra)
        /\ forall sp,
            sp ∈ t ->
            sp_waveunit sp = waveunit /\ sp_fluxunit sp = fluxunit
            /\ waveunit <> "" /\ fluxunit <> ""
            /\ (sp_errorunit sp = None ->
                length (sp_data sp)
                = Nat.min (length wavelengths) (length fluxes)
                /\ Forall (fun row => length row = 2%nat) (sp_data sp))
            /\ (forall eu,
                  sp_errorunit sp = Some eu ->
                  eu = errorunit /\ eu <> ""
                  /\ length (sp_data sp)
                     = Nat.min (length wavelengths)
                         (Nat.min (length fluxes) (length errors))
                  /\ Forall (fun row => length row = 3%nat) (sp_data sp)).
Proof.
  intros spectra waveunit fluxunit wavelengths fluxes timeunit time instrument
    deredshifted dereddened errorunit errors source snr observer reducer r.
  subst r. unfold Script.add_spectrum.
  assert (Hsame : forall o : outcome unit,
             exists t : list spectrum,
               default [] spectra = default [] spectra ++ t
               /\ (length t <= 1)%nat /\ (t = [] -> spectra = spectra)
               /\ forall sp,
                   sp ∈ t ->
                   sp_waveunit sp = waveunit /\ sp_fluxunit sp = fluxunit
                   /\ waveunit <> "" /\ fluxunit <> ""
                   /\ (sp_errorunit sp = None ->
                       length (sp_data sp)
                       = Nat.min (length wavelengths) (length fluxes)
                       /\ Forall (fun row => length row = 2%nat) (sp_data sp))
                   /\ (forall eu,
                         sp_errorunit sp = Some eu ->
                         eu = errorunit /\ eu <> ""
                         /\ length (sp_data sp)
                            = Nat.min (length wavelengths)
                                (Nat.min (length fluxes) (length errors))
                         /\ Forall (fun row => length row = 3%nat)
                              (sp_data sp))).
  { intros _. exists []. rewrite app_nil_r. split; [reflexivity|].
    split; [cbn; lia|]. split; [reflexivity|].
    intros sp Hsp. now apply elem_of_nil in Hsp. }
  destruct (PyStr.truthy waveunit) eqn:Hw; cbn [negb].
  2: { cbn [fst snd raises]. split; [reflexivity|]. split; [reflexivity|].
       exact (Hsame (Returned tt)). }
  destruct (PyStr.truthy fluxunit) eqn:Hf; cbn [negb].
  2: { cbn [fst snd raises]. split; [reflexivity|]. split; [reflexivity|].
       exact (Hsame (Returned tt)). }
  apply truthy_true in Hw, Hf.
  assert (Hplain : forall sp,
             sp_waveunit sp = waveunit -> sp_fluxunit sp = fluxunit ->
             sp_errorunit sp = None ->
             sp_data sp = zip2 wavelengths fluxes ->
             (fun r : option (list spectrum) * outcome unit =>
                (waveunit = "" \/ fluxunit = "" -> r = (spectra, Returned tt))
                /\ (raises (snd r) -> fst r = spectra)
                /\ exists t,
                    default [] (fst r) = default [] spectra ++ t
                    /\ (length t <= 1)%nat /\ (t = [] -> fst r = spectra)
                    /\ forall sp,
                        sp ∈ t ->
                        sp_waveunit sp = waveunit /\ sp_fluxunit sp = fluxunit
                        /\ waveunit <> "" /\ fluxunit <> ""
                        /\ (sp_errorunit sp = None ->
                            length (sp_data sp)
                            = Nat.min (length wavelengths) (length fluxes)
                            /\ Forall (fun row => length row = 2%nat)
                                 (sp_data sp))
                        /\ (forall eu,
                              sp_errorunit sp = Some eu ->
                              eu = errorunit /\ eu <> ""
                              /\ length (sp_data sp)
                                 = Nat.min (length wavelengths)
                                     (Nat.min (length fluxes) (length errors))
                              /\ Forall (fun row => length row = 3%nat)
                                   (sp_data sp)))
               (Some (default [] spectra ++ [sp]), Returned tt)).
  { intros sp Hwu Hfu Heu Hdata. cbn [fst snd raises].
    split; [intros [?|?]; congruence|]. split; [contradiction|].
    exists [sp]. split; [reflexivity|]. split; [cbn; lia|].
    split; [discriminate|].
    intros sp' ->%list_elem_of_singleton.
    repeat (split; [assumption|]). split.
    - intros _. rewrite Hdata. apply zip2_rows.
    - intros eu Heu'. congruence. }
  destruct errors as [|e0 es]; [now apply Hplain|].
  destruct (forallb is_number (e0 :: es)); cbn [negb].
  2: { cbn [fst snd raises]. split; [intros [?|?]; congruence|].
       split; [reflexivity|]. exact (Hsame (Returned tt)). }
  destruct (float_ltb "0." (Script.max_go e0 es)); [|now apply Hplain].
  destruct (PyStr.truthy errorunit) eqn:He; cbn [negb].
  2: { cbn [fst snd raises]. split; [reflexivity|]. split; [reflexivity|].
       exact (Hsame (Returned tt)). }
  apply truthy_true in He. cbn [fst snd raises].
  split; [intros [?|?]; congruence|]. split; [contradiction|].
  eexists [_]. split; [reflexivity|]. split; [cbn; lia|].
  split; [discriminate|].
  intros sp' ->%list_elem_of_singleton. cbn.
  repeat (split; [assumption || reflexivity|]). split; [discriminate|].
  intros eu [= <-]. split; [reflexivity|]. split; [assumption|].
  apply zip3_rows.
Qed.
